(** * tinyAGI harness: a shallow embedding of the execution core

    The development follows the TypeScript sources of the harness:
    - [harness/runtime/loop-engine.ts]   (generator / verifier / revisor loop)
    - [harness/runtime/risk-classifier.ts] (risk levels and loop budgets)
    - [harness/runtime/orchestrator.ts]  (verifyCandidate, safeId)
    - [harness/runtime/proactive-notifier.ts] (quiet hours, blocked-run outreach)
    - [harness/repository.ts], [harness/db.ts] (relational store)
    - [harness/memory/service.ts]        (memory ingest, forget, tokens)
    - [channels/pending-store.ts]        (durable pending messages)
    - [harness/tools/executor.ts]        (approval-gated tool execution,
                                          tool registry commands)
    - [queue-processor.ts]               (long-response spill)

    Conventions.  A JavaScript string is a [string] whose characters are
    code units below 256; a timestamp ([Date.now()]) is a [Z]; a table with
    a TEXT PRIMARY KEY is a [gmap] from the key to its row; a table with an
    AUTOINCREMENT id is a list in insertion order.  Every reading of the
    clock, every random UUID and every answer of a subprocess is an
    explicit argument of the function that asks for it. *)

From Stdlib Require Import ZArith Ascii String List Bool Lia QArith.
From stdpp Require Import base option list strings gmap sorting pretty.

#[local] Set Warnings "-register-all,-abstract-large-number".

Local Open Scope string_scope.
Local Open Scope Z_scope.
Local Open Scope list_scope.

(* ===================================================================== *)
(** * JavaScript string primitives                                        *)
(* ===================================================================== *)

Module Js.

Definition chars (s : string) : list ascii := list_ascii_of_string s.
Definition str (l : list ascii) : string := string_of_list_ascii l.

Definition code (c : ascii) : nat := nat_of_ascii c.

Definition between (lo hi : nat) (c : ascii) : bool :=
  (Nat.leb lo (code c) && Nat.leb (code c) hi)%bool.

(** [\s], also what [trim] strips: TAB, LF, VT, FF, CR, SPACE, NBSP. *)
Definition isSpace (c : ascii) : bool :=
  (between 9 13 c || Nat.eqb (code c) 32 || Nat.eqb (code c) 160)%bool.

(** [\d] *)
Definition isDigit (c : ascii) : bool := between 48 57 c.

(** [\w]: letters, digits and underscore, ASCII only. *)
Definition isWord (c : ascii) : bool :=
  (between 97 122 c || between 65 90 c || isDigit c || Nat.eqb (code c) 95)%bool.

(** Line terminators below 256, which [.] refuses. *)
Definition isLineTerminator (c : ascii) : bool :=
  (Nat.eqb (code c) 10 || Nat.eqb (code c) 13)%bool.

(** [toLowerCase] on one code unit: A-Z, and the Latin-1 capitals. *)
Definition lowerChar (c : ascii) : ascii :=
  if (between 65 90 c || (between 192 222 c && negb (Nat.eqb (code c) 215)))%bool
  then ascii_of_nat (code c + 32) else c.

Definition toLowerCase (s : string) : string := str (map lowerChar (chars s)).

Fixpoint dropSpace (l : list ascii) : list ascii :=
  match l with
  | c :: tl => if isSpace c then dropSpace tl else l
  | [] => []
  end.

Definition trimChars (l : list ascii) : list ascii :=
  rev (dropSpace (rev (dropSpace l))).

Definition trim (s : string) : string := str (trimChars (chars s)).

Definition length (s : string) : nat := String.length s.

(** [Boolean(s)] for a string: non-empty. *)
Definition truthy (s : string) : bool :=
  match s with EmptyString => false | _ => true end.

Definition startsWith (s p : string) : bool := String.prefix p s.

(** [s.substring(0, n)] for [0 <= n]. *)
Fixpoint takeStr (n : nat) (s : string) : string :=
  match n, s with
  | S n', String c tl => String c (takeStr n' tl)
  | _, _ => EmptyString
  end.

(** [s.slice(0, n)] for [0 <= n] is the same prefix. *)
Definition slice0 (n : nat) (s : string) : string := takeStr n s.

(** [s.split('\n')] *)
Fixpoint splitLinesAux (cur : list ascii) (l : list ascii) : list string :=
  match l with
  | [] => [str (rev cur)]
  | c :: tl =>
      if Nat.eqb (code c) 10 then str (rev cur) :: splitLinesAux [] tl
      else splitLinesAux (c :: cur) tl
  end.

Definition splitLines (s : string) : list string := splitLinesAux [] (chars s).

(** [parts.join(sep)] *)
Fixpoint join (sep : string) (parts : list string) : string :=
  match parts with
  | [] => EmptyString
  | [p] => p
  | p :: tl => p +:+ sep +:+ join sep tl
  end.

(** [a || b] on strings. *)
Definition orElse (a b : string) : string := if truthy a then a else b.

Definition LF : string := String (ascii_of_nat 10) EmptyString.

(** A number that holds an integer, as a double: the nearest one, ties to
    the even significand of 53 bits.  Integers up to 2^53 in size are kept
    as they are.  Infinity, which a sum of two doubles reaches only past
    2^1024, has no counterpart here. *)
Definition toDouble (x : Z) : Z :=
  let a := Z.abs x in
  if a <=? 2 ^ 53 then x
  else
    let e := Z.log2 a - 52 in
    let q := Z.shiftr a e in
    let r := a - Z.shiftl q e in
    let half := Z.shiftl 1 (e - 1) in
    let q' := if r <? half then q
              else if half <? r then q + 1
              else if Z.even q then q else q + 1 in
    Z.sgn x * Z.shiftl q' e.

(** [a + b] on numbers that hold integers. *)
Definition plus (a b : Z) : Z := toDouble (a + b).

(** [s.includes(sub)] *)
Fixpoint includes (sub s : string) : bool :=
  (String.prefix sub s ||
   match s with
   | EmptyString => false
   | String _ tl => includes sub tl
   end)%bool.

End Js.

(* ===================================================================== *)
(** * Regular expressions with JavaScript's backtracking semantics        *)
(* ===================================================================== *)

Module Regex.

Inductive re : Type :=
| Eps
| Cls (p : ascii -> bool)     (* one code unit accepted by [p] *)
| Seq (r1 r2 : re)
| Alt (r1 r2 : re)            (* [r1|r2], left first *)
| Star (r : re)               (* [r*], greedy *)
| LazyStar (r : re)           (* [r*?] *)
| Grp (n : nat) (r : re)      (* capture group number [n] *)
| WordB                       (* [\b] *)
| Bos                         (* [^] without the m flag *)
| Eos.                        (* [$] without the m flag *)

Definition Plus (r : re) : re := Seq r (Star r).
Definition Opt (r : re) : re := Alt r Eps.

(** The matcher's position: index, previous code unit, remaining input,
    and the captures recorded so far (latest first). *)
Record st : Type := mkSt {
  pos : nat;
  prev : option ascii;
  rest : list ascii;
  caps : list (nat * list ascii)
}.

Definition isWordOpt (o : option ascii) : bool :=
  match o with Some c => Js.isWord c | None => false end.

Definition atWordBoundary (s : st) : bool :=
  xorb (isWordOpt (prev s)) (isWordOpt (head (rest s))).

Definition setCap (n : nat) (from to : st) : st :=
  mkSt (pos to) (prev to) (rest to)
       ((n, take (pos to - pos from) (rest from)) :: caps to).

Definition advance (c : ascii) (tl : list ascii) (s : st) : st :=
  mkSt (S (pos s)) (Some c) tl (caps s).

(** One more pass of a quantified pattern, which must consume input. *)
Definition progress (s0 : st) (next : st -> option st) (s1 : st) : option st :=
  if Nat.ltb (pos s0) (pos s1) then next s1 else None.

(** [r*]: as many passes of [step] as possible, then the continuation;
    fewer passes when that fails.  A pass consumes at least one code unit,
    so [fuel] above the length of the remaining input is never used up. *)
Fixpoint greedyLoop (step : (st -> option st) -> st -> option st)
  (k : st -> option st) (fuel : nat) (s0 : st) {struct fuel} : option st :=
  match fuel with
  | O => k s0
  | S fuel' =>
      match step (progress s0 (greedyLoop step k fuel')) s0 with
      | Some x => Some x
      | None => k s0
      end
  end.

(** [r*?]: the continuation first, one more pass when that fails. *)
Fixpoint lazyLoop (step : (st -> option st) -> st -> option st)
  (k : st -> option st) (fuel : nat) (s0 : st) {struct fuel} : option st :=
  match fuel with
  | O => k s0
  | S fuel' =>
      match k s0 with
      | Some x => Some x
      | None => step (progress s0 (lazyLoop step k fuel')) s0
      end
  end.

(** Continuation-passing matcher: the first success in priority order. *)
Fixpoint run (r : re) (k : st -> option st) (s : st) {struct r} : option st :=
  match r with
  | Eps => k s
  | Cls p =>
      match rest s with
      | c :: tl => if p c then k (advance c tl s) else None
      | [] => None
      end
  | Seq r1 r2 => run r1 (run r2 k) s
  | Alt r1 r2 =>
      match run r1 k s with
      | Some x => Some x
      | None => run r2 k s
      end
  | Star r1 => greedyLoop (run r1) k (S (List.length (rest s))) s
  | LazyStar r1 => lazyLoop (run r1) k (S (List.length (rest s))) s
  | Grp n r1 => run r1 (fun s1 => k (setCap n s s1)) s
  | WordB => if atWordBoundary s then k s else None
  | Bos => if Nat.eqb (pos s) 0 then k s else None
  | Eos => match rest s with [] => k s | _ => None end
  end.

(** A successful match: [match.index], [match[0]], the groups, and the
    position just after the match (the next [lastIndex]). *)
Record result : Type := mkResult {
  index : nat;
  whole : string;
  groups : list (nat * list ascii);
  after : st
}.

Definition matchAt (r : re) (s : st) : option result :=
  match run r Some (mkSt (pos s) (prev s) (rest s) []) with
  | Some e => Some (mkResult (pos s) (Js.str (take (pos e - pos s) (rest s)))
                             (caps e) e)
  | None => None
  end.

(** Leftmost match at or after the position [s]. *)
Fixpoint searchFrom (r : re) (i : nat) (p : option ascii) (l : list ascii)
  {struct l} : option result :=
  match matchAt r (mkSt i p l []) with
  | Some m => Some m
  | None =>
      match l with
      | [] => None
      | c :: tl => searchFrom r (S i) (Some c) tl
      end
  end.

(** [re.exec(s)] / [s.match(re)] without the g flag. *)
Definition exec (r : re) (s : string) : option result :=
  searchFrom r 0 None (Js.chars s).

(** [re.test(s)] *)
Definition test (r : re) (s : string) : bool :=
  match exec r s with Some _ => true | None => false end.

(** [match[n]]: [None] is JavaScript's [undefined]. *)
Definition group (n : nat) (m : result) : option string :=
  match List.find (fun c => Nat.eqb (fst c) n) (groups m) with
  | Some c => Some (Js.str (snd c))
  | None => None
  end.

(** The loop [while ((m = re.exec(s)) !== null)] with the g flag.  Every
    pattern used with it consumes at least one code unit per match. *)
Fixpoint execAllFrom (fuel : nat) (r : re) (s : st) : list result :=
  match fuel with
  | O => []
  | S fuel' =>
      match searchFrom r (pos s) (prev s) (rest s) with
      | Some m => m :: execAllFrom fuel' r (after m)
      | None => []
      end
  end.

Definition execAll (r : re) (s : string) : list result :=
  execAllFrom (S (String.length s)) r (mkSt 0 None (Js.chars s) []).

(** [s.replace(re, '')] without the g flag: drop the leftmost match. *)
Definition removeFirst (r : re) (s : string) : string :=
  match exec r s with
  | Some m => Js.str (take (index m) (Js.chars s) ++ rest (after m))
  | None => s
  end.

(** Pattern builders. *)
Definition chr (c : ascii) : re := Cls (Ascii.eqb c).
(** A literal code unit under the i flag. *)
Definition chrI (c : ascii) : re :=
  Cls (fun x => Ascii.eqb (Js.lowerChar x) (Js.lowerChar c)).

Fixpoint seqOf (f : ascii -> re) (l : list ascii) : re :=
  match l with
  | [] => Eps
  | [c] => f c
  | c :: tl => Seq (f c) (seqOf f tl)
  end.

Definition lit (s : string) : re := seqOf chr (Js.chars s).
Definition litI (s : string) : re := seqOf chrI (Js.chars s).

Fixpoint alts (l : list re) : re :=
  match l with
  | [] => Eps
  | [r] => r
  | r :: tl => Alt r (alts tl)
  end.

Definition oneOf (s : string) : re :=
  Cls (fun c => existsb (Ascii.eqb c) (Js.chars s)).
Definition noneOf (s : string) : re :=
  Cls (fun c => negb (existsb (Ascii.eqb c) (Js.chars s))).
Definition space : re := Cls Js.isSpace.
Definition nonSpace : re := Cls (fun c => negb (Js.isSpace c)).
Definition digit : re := Cls Js.isDigit.
Definition anyChar : re := Cls (fun _ => true).          (* [\s\S] *)
Definition dot : re := Cls (fun c => negb (Js.isLineTerminator c)).

(** Where a match starts, what it spans and its first two groups. *)
Definition matched (m : option result)
  : option (nat * string * option string * option string) :=
  match m with
  | Some r => Some (index r, whole r, group 1 r, group 2 r)
  | None => None
  end.

(** The code unit that precedes the position reached after reading [l],
    starting with [prev] before it: what [prev] holds there. *)
Definition lastOf (prev : option ascii) (l : list ascii) : option ascii :=
  foldl (fun _ c => Some c) prev l.

End Regex.

(* ===================================================================== *)
(** * Shared types ([harness/types.ts])                                   *)
(* ===================================================================== *)

Module Types.

Inductive RiskLevel : Type := low | medium | high | critical.

Inductive RunStatus : Type :=
| queued | in_progress | needs_input | needs_revision | verified
| rejected | awaiting_approval | sent | failed.

Inductive VerifierOutcome : Type := pass | minor_fix | critical_fail | abstain.

#[global] Instance RiskLevel_eq_dec : EqDecision RiskLevel.
Proof. solve_decision. Defined.
#[global] Instance RunStatus_eq_dec : EqDecision RunStatus.
Proof. solve_decision. Defined.
#[global] Instance VerifierOutcome_eq_dec : EqDecision VerifierOutcome.
Proof. solve_decision. Defined.

Record VerificationVerdict : Type := mkVerdict {
  runId : string;
  verifier : string;
  outcome : VerifierOutcome;
  findings : list string;
  requiredActions : list string;
  evidenceRefs : list string
}.

(** A JavaScript value as [JSON.parse] produces it and [JSON.stringify]
    consumes it. *)
Inductive JsValue : Type :=
| JNull
| JBool (b : bool)
| JNum (z : Z)
| JStr (s : string)
| JArr (l : list JsValue)
| JObj (fields : list (string * JsValue)).

(** [v || {}]: the empty object for a falsy value, which is null or
    undefined, false, 0 or the empty string. *)
Definition orEmptyObject (v : JsValue) : JsValue :=
  match v with
  | JNull | JBool false | JNum 0 | JStr EmptyString => JObj []
  | _ => v
  end.

Definition outcomeName (o : VerifierOutcome) : string :=
  match o with
  | pass => "pass" | minor_fix => "minor_fix"
  | critical_fail => "critical_fail" | abstain => "abstain"
  end.

Definition riskName (r : RiskLevel) : string :=
  match r with
  | low => "low" | medium => "medium" | high => "high" | critical => "critical"
  end.

Definition verdictJson (v : VerificationVerdict) : JsValue :=
  JObj [("runId", JStr (runId v)); ("verifier", JStr (verifier v));
        ("outcome", JStr (outcomeName (outcome v)));
        ("findings", JArr (map JStr (findings v)));
        ("requiredActions", JArr (map JStr (requiredActions v)));
        ("evidenceRefs", JArr (map JStr (evidenceRefs v)))].

End Types.

(* ===================================================================== *)
(** * The relational store ([harness/db.ts])                              *)
(* ===================================================================== *)

Module Store.
Import Types.

(** ** Rows.  The TEXT PRIMARY KEY column of a table is the key of its
    map and is not repeated inside the row. *)

(** [task_runs], keyed by [run_id].  [sender_id] is nullable in the
    schema, but [createTaskRun], the only writer, always stores a string. *)
Record TaskRunRow : Type := mkTaskRun {
  task_id : string;
  channel : string;
  sender : string;
  sender_id : string;
  conversation_id : string;
  branch_key : string;
  objective : string;
  risk_level : RiskLevel;
  status : RunStatus;
  assigned_agent : string;
  loop_iteration : Z;
  max_iterations : Z;
  verifier_outcome : option VerifierOutcome;
  result_text : option string;
  created_at : Z;
  updated_at : Z
}.

(** [task_steps] and [task_events]: append-only, id = position. *)
Record LogRow : Type := mkLog {
  log_key : string;          (* run_id, tool_id or metric_name *)
  log_type : string;         (* step_type / event_type *)
  payload : JsValue;         (* the value handed to [toJson] *)
  log_created_at : Z
}.

(** [memory_records], keyed by [record_id]. *)
Record MemoryRow : Type := mkMemory {
  user_id : string;
  category : string;
  key : string;
  value : string;
  confidence : Q;
  source_run_id : string;
  mem_created_at : Z;
  mem_updated_at : Z
}.

Inductive PermissionStatus : Type := active | revoked | pending.
#[global] Instance PermissionStatus_eq_dec : EqDecision PermissionStatus.
Proof. solve_decision. Defined.

(** [permissions], keyed by [permission_id]. *)
Record PermissionRow : Type := mkPermission {
  perm_user_id : string;
  subject : string;
  action : string;
  resource : string;
  perm_status : PermissionStatus;
  perm_created_at : Z;
  perm_updated_at : Z
}.

Inductive ToolStatus : Type := approved | blocked | tool_pending.
Inductive TrustClass : Type := curated | mainstream | unknown.

(** [tool_registry], keyed by [tool_id]. *)
Record ToolRow : Type := mkTool {
  name : string;
  source : string;
  trust_class : TrustClass;
  tool_status : ToolStatus;
  last_verified_at : Z;
  metadata : JsValue;
  tool_created_at : Z;
  tool_updated_at : Z
}.

(** [channel_pending_messages], keyed by [message_id]. *)
Record ChannelPendingMessageRow : Type := mkPending {
  pm_channel : string;
  pm_sender : string;
  pm_sender_id : string;
  chat_ref : string;
  reply_ref : string;
  expires_at : Z;
  pm_created_at : Z;
  pm_updated_at : Z
}.

(** [harness_metric_events]: append-only. *)
Record MetricEventRow : Type := mkMetricEvent {
  me_metric_name : string;
  me_delta : Z;
  me_metadata : JsValue;
  me_created_at : Z
}.

(** [harness_metrics], keyed by [metric_name]. *)
Record MetricRow : Type := mkMetric {
  metric_value : Z;
  metric_updated_at : Z
}.

Record Db : Type := mkDb {
  task_runs : gmap string TaskRunRow;
  task_steps : list LogRow;
  task_events : list LogRow;
  memory_records : gmap string MemoryRow;
  permissions : gmap string PermissionRow;
  tool_registry : gmap string ToolRow;
  tool_events : list LogRow;
  channel_pending_messages : gmap string ChannelPendingMessageRow;
  harness_metrics : gmap string MetricRow;
  harness_metric_events : list MetricEventRow
}.

Definition emptyDb : Db := mkDb ∅ [] [] ∅ ∅ ∅ [] ∅ ∅ [].

Definition with_task_runs (f : gmap string TaskRunRow -> gmap string TaskRunRow)
  (d : Db) : Db :=
  mkDb (f (task_runs d)) (task_steps d) (task_events d) (memory_records d)
       (permissions d) (tool_registry d) (tool_events d)
       (channel_pending_messages d) (harness_metrics d) (harness_metric_events d).

Definition with_task_steps (f : list LogRow -> list LogRow) (d : Db) : Db :=
  mkDb (task_runs d) (f (task_steps d)) (task_events d) (memory_records d)
       (permissions d) (tool_registry d) (tool_events d)
       (channel_pending_messages d) (harness_metrics d) (harness_metric_events d).

Definition with_task_events (f : list LogRow -> list LogRow) (d : Db) : Db :=
  mkDb (task_runs d) (task_steps d) (f (task_events d)) (memory_records d)
       (permissions d) (tool_registry d) (tool_events d)
       (channel_pending_messages d) (harness_metrics d) (harness_metric_events d).

Definition with_memory_records (f : gmap string MemoryRow -> gmap string MemoryRow)
  (d : Db) : Db :=
  mkDb (task_runs d) (task_steps d) (task_events d) (f (memory_records d))
       (permissions d) (tool_registry d) (tool_events d)
       (channel_pending_messages d) (harness_metrics d) (harness_metric_events d).

Definition with_permissions (f : gmap string PermissionRow -> gmap string PermissionRow)
  (d : Db) : Db :=
  mkDb (task_runs d) (task_steps d) (task_events d) (memory_records d)
       (f (permissions d)) (tool_registry d) (tool_events d)
       (channel_pending_messages d) (harness_metrics d) (harness_metric_events d).

Definition with_tool_registry (f : gmap string ToolRow -> gmap string ToolRow)
  (d : Db) : Db :=
  mkDb (task_runs d) (task_steps d) (task_events d) (memory_records d)
       (permissions d) (f (tool_registry d)) (tool_events d)
       (channel_pending_messages d) (harness_metrics d) (harness_metric_events d).

Definition with_tool_events (f : list LogRow -> list LogRow) (d : Db) : Db :=
  mkDb (task_runs d) (task_steps d) (task_events d) (memory_records d)
       (permissions d) (tool_registry d) (f (tool_events d))
       (channel_pending_messages d) (harness_metrics d) (harness_metric_events d).

Definition with_pending
  (f : gmap string ChannelPendingMessageRow -> gmap string ChannelPendingMessageRow)
  (d : Db) : Db :=
  mkDb (task_runs d) (task_steps d) (task_events d) (memory_records d)
       (permissions d) (tool_registry d) (tool_events d)
       (f (channel_pending_messages d)) (harness_metrics d) (harness_metric_events d).

Definition with_metrics (f : gmap string MetricRow -> gmap string MetricRow)
  (g : list MetricEventRow -> list MetricEventRow) (d : Db) : Db :=
  mkDb (task_runs d) (task_steps d) (task_events d) (memory_records d)
       (permissions d) (tool_registry d) (tool_events d)
       (channel_pending_messages d) (f (harness_metrics d))
       (g (harness_metric_events d)).

(** ** [HarnessDB.upsert]: INSERT ... ON CONFLICT(pk) DO UPDATE SET cols.
    [merge old new] is the stored row with the update columns taken from
    the proposed row. *)
Definition upsert {V : Type} (merge : V -> V -> V) (k : string) (v : V)
  (m : gmap string V) : gmap string V :=
  match m !! k with
  | Some old => <[k := merge old v]> m
  | None => <[k := v]> m
  end.

(** [SELECT ... FROM t WHERE p]: the rows with their keys. *)
Definition selectWhere {V : Type} (p : string -> V -> bool) (m : gmap string V)
  : list (string * V) :=
  List.filter (fun kv => p (fst kv) (snd kv)) (map_to_list m).

(** [DELETE FROM t WHERE p] *)
Definition deleteWhere {V : Type} (p : string -> V -> bool) (m : gmap string V)
  : gmap string V :=
  filter (fun kv => p (fst kv) (snd kv) = false) m.

End Store.

(* ===================================================================== *)
(** * Effects: exceptions, the store, the clock                           *)
(* ===================================================================== *)

Module Eff.
Import Store.

(** A computation returns or throws. *)
Inductive res (A : Type) : Type :=
| Ok (a : A)
| Throw (e : string).
Arguments Ok {A} a.
Arguments Throw {A} e.

(** What a function of the harness acts on: the store, the clock (the
    n-th reading of [Date.now()] is [clock n]) and whatever else [X] the
    caller's collaborators keep. *)
Record World (X : Type) : Type := mkWorld {
  ext : X;
  db : Db;
  clock : nat -> Z;
  reads : nat
}.
Arguments mkWorld {X}.
Arguments ext {X}.
Arguments db {X}.
Arguments clock {X}.
Arguments reads {X}.

Definition M (X A : Type) : Type := World X -> res A * World X.

Definition ret {X A} (a : A) : M X A := fun w => (Ok a, w).
Definition throw {X A} (e : string) : M X A := fun w => (Throw e, w).
Definition bind {X A B} (m : M X A) (f : A -> M X B) : M X B :=
  fun w => match m w with
           | (Ok a, w') => f a w'
           | (Throw e, w') => (Throw e, w')
           end.

(** [try { m } catch (error) { h error.message }] *)
Definition catch {X A} (m : M X A) (h : string -> M X A) : M X A :=
  fun w => match m w with
           | (Ok a, w') => (Ok a, w')
           | (Throw e, w') => h e w'
           end.

(** A pure step that returns or throws. *)
Definition liftRes {X A} (r : res A) : M X A := fun w => (r, w).

(** [Date.now()] *)
Definition now {X} : M X Z :=
  fun w => (Ok (clock w (reads w)), mkWorld (ext w) (db w) (clock w) (S (reads w))).

Definition getDb {X} : M X Db := fun w => (Ok (db w), w).
Definition modifyDb {X} (f : Db -> Db) : M X unit :=
  fun w => (Ok tt, mkWorld (ext w) (f (db w)) (clock w) (reads w)).
Definition getExt {X} : M X X := fun w => (Ok (ext w), w).
Definition modifyExt {X} (f : X -> X) : M X unit :=
  fun w => (Ok tt, mkWorld (f (ext w)) (db w) (clock w) (reads w)).

(** A repository call that stamps its row with the clock. *)
Definition stamped {X} (f : Z -> Db -> Db) : M X unit :=
  bind now (fun t => modifyDb (f t)).

(** [for (const a of l) f(a)] *)
Fixpoint forEach {X A} (f : A -> M X unit) (l : list A) : M X unit :=
  match l with
  | [] => ret tt
  | a :: tl => bind (f a) (fun _ => forEach f tl)
  end.

(** The world a computation leaves, and what it returns. *)
Definition after {X A} (m : M X A) (w : World X) : World X := snd (m w).
Definition outcomeOf {X A} (m : M X A) (w : World X) : res A := fst (m w).

(** A computation that throws in no world. *)
Definition returns {X A} (m : M X A) : Prop :=
  forall w, exists a w', m w = (Ok a, w').

End Eff.

Declare Scope eff_scope.
Delimit Scope eff_scope with eff.
Notation "x <- m ;; k" := (Eff.bind m (fun x => k))
  (at level 100, m at next level, right associativity) : eff_scope.
Notation "m ;;; k" := (Eff.bind m (fun _ => k))
  (at level 100, right associativity) : eff_scope.

(* ===================================================================== *)
(** * The repository ([harness/repository.ts])                            *)
(* ===================================================================== *)

Module Repository.
Import Types Store Eff.
Local Open Scope eff_scope.

(** ** Task runs *)

Record CreateTaskRunInput : Type := mkCreateTaskRun {
  in_runId : string;
  in_taskId : string;
  in_channel : string;
  in_sender : string;
  in_senderId : option string;
  in_conversationId : option string;
  in_branchKey : option string;
  in_objective : string;
  in_riskLevel : RiskLevel;
  in_status : RunStatus;
  in_assignedAgent : option string;
  in_loopIteration : Z;
  in_maxIterations : Z
}.

(** [x || ''] for an optional string. *)
Definition orEmpty (o : option string) : string :=
  match o with Some s => Js.orElse s "" | None => "" end.

(** [createTaskRun]: a plain INSERT, which SQLite refuses on a duplicate
    key; the wrapper turns the refusal into an exception. *)
Definition createTaskRun {X} (input : CreateTaskRunInput) : M X unit :=
  t <- now ;;
  d <- getDb ;;
  match task_runs d !! in_runId input with
  | Some _ => throw "UNIQUE constraint failed: task_runs.run_id"
  | None =>
      modifyDb (with_task_runs
        (insert (in_runId input)
           (mkTaskRun (in_taskId input) (in_channel input) (in_sender input)
              (orEmpty (in_senderId input)) (orEmpty (in_conversationId input))
              (orEmpty (in_branchKey input)) (in_objective input)
              (in_riskLevel input) (in_status input)
              (orEmpty (in_assignedAgent input)) (in_loopIteration input)
              (in_maxIterations input) None None t t)))
  end.

Record TaskRunPatch : Type := mkPatch {
  p_status : option RunStatus;
  p_loopIteration : option Z;
  p_resultText : option string;
  p_verifierOutcome : option VerifierOutcome
}.

Definition applyPatch (t : Z) (p : TaskRunPatch) (r : TaskRunRow) : TaskRunRow :=
  mkTaskRun (task_id r) (channel r) (sender r) (sender_id r) (conversation_id r)
    (branch_key r) (objective r) (risk_level r)
    (default (status r) (p_status p))
    (assigned_agent r)
    (default (loop_iteration r) (p_loopIteration p))
    (max_iterations r)
    (match p_verifierOutcome p with Some o => Some o | None => verifier_outcome r end)
    (match p_resultText p with Some s => Some s | None => result_text r end)
    (created_at r) t.

(** [updateTaskRun]: UPDATE task_runs SET ... WHERE run_id = runId. *)
Definition updateTaskRun {X} (runId : string) (p : TaskRunPatch) : M X unit :=
  t <- now ;;
  modifyDb (with_task_runs (alter (applyPatch t p) runId)).

Definition appendTaskStep {X} (runId stepType : string) (pl : JsValue) : M X unit :=
  stamped (fun t => with_task_steps (fun l => l ++ [mkLog runId stepType pl t])).

(** The payload stored is [payload || {}]. *)
Definition appendTaskEvent {X} (runId eventType : string) (pl : JsValue) : M X unit :=
  stamped (fun t => with_task_events
                      (fun l => l ++ [mkLog runId eventType (orEmptyObject pl) t])).

(** ORDER BY updated_at ASC; rows with equal keys come in the order the
    engine enumerates them, which SQL leaves open. *)
Definition byUpdatedAt (a b : string * TaskRunRow) : Prop :=
  updated_at (snd a) ≤ updated_at (snd b).

#[global] Instance byUpdatedAt_dec a b : Decision (byUpdatedAt a b).
Proof. unfold byUpdatedAt. apply _. Defined.

Definition orderByUpdatedAt (l : list (string * TaskRunRow)) : list (string * TaskRunRow) :=
  merge_sort byUpdatedAt l.

(** [BlockedRunRow] *)
Record BlockedRunRow : Type := mkBlocked {
  b_run_id : string;
  b_channel : string;
  b_sender : string;
  b_sender_id : string;
  b_status : RunStatus;
  b_objective : string;
  b_result_text : string;
  b_created_at : Z;
  b_updated_at : Z
}.

(** COALESCE(tr.result_text, '') *)
Definition coalesce (o : option string) : string := default "" o.

Definition toBlocked (kv : string * TaskRunRow) : BlockedRunRow :=
  let r := snd kv in
  mkBlocked (fst kv) (channel r) (sender r) (sender_id r) (status r) (objective r)
    (coalesce (result_text r)) (created_at r) (updated_at r).

Definition isBlockedStatus (s : RunStatus) : bool :=
  match s with needs_input | awaiting_approval => true | _ => false end.

(** The sub-select of [listBlockedRunsForOutreach]: a row [newer] of the
    same channel and sender, another run, created after [tr] was last
    updated. *)
Definition isNewerSibling (k : string) (tr : TaskRunRow) (kv : string * TaskRunRow) : bool :=
  (String.eqb (channel (snd kv)) (channel tr)
   && String.eqb (sender_id (snd kv)) (sender_id tr)
   && negb (String.eqb (fst kv) k)
   && Z.ltb (updated_at tr) (created_at (snd kv)))%bool.

Definition hasNewerSibling (m : gmap string TaskRunRow) (k : string) (tr : TaskRunRow) : bool :=
  existsb (isNewerSibling k tr) (map_to_list m).

Definition blockedForOutreach (m : gmap string TaskRunRow) (cutoff : Z)
  (k : string) (tr : TaskRunRow) : bool :=
  (isBlockedStatus (status tr)
   && negb (String.eqb (sender_id tr) "")
   && Z.leb (updated_at tr) cutoff
   && negb (hasNewerSibling m k tr))%bool.

(** The SELECT of [listBlockedRunsForOutreach] for a given cutoff. *)
Definition selectBlockedRuns (cutoff limit : Z) (m : gmap string TaskRunRow)
  : list (string * TaskRunRow) :=
  take (Z.to_nat (Z.max 1 (Z.min limit 1000)))
    (orderByUpdatedAt (selectWhere (blockedForOutreach m cutoff) m)).

(** [listBlockedRunsForOutreach(minAgeMs, limit = 100)] *)
Definition listBlockedRunsForOutreach {X} (minAgeMs : Z) (limit : Z)
  : M X (list BlockedRunRow) :=
  t <- now ;;
  let cutoff := t - Z.max 0 minAgeMs in
  d <- getDb ;;
  ret (map toBlocked (selectBlockedRuns cutoff limit (task_runs d))).

Definition supersedable (channel0 senderId : string) (beforeTs : Z)
  (k : string) (tr : TaskRunRow) : bool :=
  (String.eqb (channel tr) channel0
   && String.eqb (sender_id tr) senderId
   && bool_decide (status tr = needs_input)
   && Z.ltb (updated_at tr) beforeTs)%bool.

(** The SELECT of [supersedeNeedsInputRuns]. *)
Definition selectSupersedable (channel0 senderId : string) (beforeTs : Z)
  (m : gmap string TaskRunRow) : list (string * TaskRunRow) :=
  take 200 (orderByUpdatedAt (selectWhere (supersedable channel0 senderId beforeTs) m)).

(** The assignment [{ status: 'rejected', updated_at: t }]. *)
Definition rejectRow (t : Z) (r : TaskRunRow) : TaskRunRow :=
  mkTaskRun (task_id r) (channel r) (sender r) (sender_id r) (conversation_id r)
    (branch_key r) (objective r) (risk_level r) rejected (assigned_agent r)
    (loop_iteration r) (max_iterations r) (verifier_outcome r) (result_text r)
    (created_at r) t.

(** The loop of UPDATEs, one per selected run id. *)
Definition rejectAll (t : Z) (ids : list string) (m : gmap string TaskRunRow)
  : gmap string TaskRunRow :=
  foldl (fun m' id => alter (rejectRow t) id m') m ids.

(** [supersedeNeedsInputRuns(channel, senderId, beforeTs)] *)
Definition supersedeNeedsInputRuns {X} (channel0 senderId : string) (beforeTs : Z)
  : M X (list string) :=
  if negb (Js.truthy senderId) then ret []
  else
    d <- getDb ;;
    let rows := selectSupersedable channel0 senderId beforeTs (task_runs d) in
    if Nat.eqb (length rows) 0 then ret []
    else
      t <- now ;;
      modifyDb (with_task_runs (rejectAll t (map fst rows))) ;;;
      ret (map fst rows).

(** ** Memory records *)

Inductive MemoryCategory : Type :=
| preferences | projects | workflows | contacts | task_states | confirmed_facts.

Definition categoryName (c : MemoryCategory) : string :=
  match c with
  | preferences => "preferences" | projects => "projects"
  | workflows => "workflows" | contacts => "contacts"
  | task_states => "task_states" | confirmed_facts => "confirmed_facts"
  end.

Record MemoryInsertInput : Type := mkMemoryInput {
  mi_recordId : string;
  mi_userId : string;
  mi_category : MemoryCategory;
  mi_key : string;
  mi_value : string;
  mi_confidence : Q;
  mi_sourceRunId : option string
}.

(** ON CONFLICT(record_id) DO UPDATE SET value, confidence,
    source_run_id, updated_at. *)
Definition mergeMemory (old new : MemoryRow) : MemoryRow :=
  mkMemory (user_id old) (category old) (key old) (value new) (confidence new)
    (source_run_id new) (mem_created_at old) (mem_updated_at new).

Definition memoryRowOf (t : Z) (input : MemoryInsertInput) : MemoryRow :=
  mkMemory (mi_userId input) (categoryName (mi_category input)) (mi_key input)
    (mi_value input) (mi_confidence input) (orEmpty (mi_sourceRunId input)) t t.

Definition upsertMemoryRecord {X} (input : MemoryInsertInput) : M X unit :=
  t <- now ;;
  modifyDb (with_memory_records
              (upsert mergeMemory (mi_recordId input) (memoryRowOf t input))).

(** ** Permissions and the tool registry *)

(** ON CONFLICT(permission_id) DO UPDATE SET status, resource, updated_at. *)
Definition mergePermission (old new : PermissionRow) : PermissionRow :=
  mkPermission (perm_user_id old) (subject old) (action old) (resource new)
    (perm_status new) (perm_created_at old) (perm_updated_at new).

Definition upsertPermission {X} (permissionId userId subject0 action0 resource0 : string)
  (st : PermissionStatus) : M X unit :=
  t <- now ;;
  modifyDb (with_permissions
              (upsert mergePermission permissionId
                 (mkPermission userId subject0 action0 resource0 st t t))).

Definition isActiveFor (userId subject0 action0 : string) (k : string) (r : PermissionRow)
  : bool :=
  (String.eqb (perm_user_id r) userId && String.eqb (subject r) subject0
   && String.eqb (action r) action0 && bool_decide (perm_status r = active))%bool.

(** SELECT COUNT( * ) ... > 0 *)
Definition hasActivePermission {X} (userId subject0 action0 : string) : M X bool :=
  d <- getDb ;;
  ret (Nat.ltb 0 (length (selectWhere (isActiveFor userId subject0 action0) (permissions d)))).

(** ON CONFLICT(tool_id) DO UPDATE SET name, source, trust_class, status,
    last_verified_at, metadata_json, updated_at. *)
Definition mergeTool (old new : ToolRow) : ToolRow :=
  mkTool (name new) (source new) (trust_class new) (tool_status new)
    (last_verified_at new) (metadata new) (tool_created_at old) (tool_updated_at new).

Definition upsertTool {X} (toolId name0 source0 : string) (trust : TrustClass)
  (st : ToolStatus) (meta : JsValue) : M X unit :=
  t <- now ;;
  modifyDb (with_tool_registry
              (upsert mergeTool toolId
                 (mkTool name0 source0 trust st t (orEmptyObject meta) t t))).

(** SQLite's [lower()], which folds ASCII letters only. *)
Definition sqlLower (s : string) : string :=
  Js.str (map (fun c => if Js.between 65 90 c then ascii_of_nat (Js.code c + 32) else c)
            (Js.chars s)).

(** SELECT * FROM tool_registry WHERE lower(name) = lower(?) LIMIT 1 *)
Definition getToolByName {X} (name0 : string) : M X (option (string * ToolRow)) :=
  d <- getDb ;;
  ret (head (selectWhere (fun _ r => String.eqb (sqlLower (name r)) (sqlLower name0))
               (tool_registry d))).

Definition appendToolEvent {X} (toolId eventType : string) (pl : JsValue) : M X unit :=
  stamped (fun t => with_tool_events
                      (fun l => l ++ [mkLog toolId eventType (orEmptyObject pl) t])).

(** ** Metrics *)

(** ON CONFLICT(metric_name) DO UPDATE SET metric_value, updated_at. *)
Definition mergeMetric (old new : MetricRow) : MetricRow := new.

(** The value and the delta are numbers in a REAL column; the model has
    the ones that hold integers, added as doubles are.  The metadata stored
    is [metadata || {}]. *)
Definition incrementMetric {X} (metricName : string) (delta : Z) (meta : JsValue) : M X Z :=
  d <- getDb ;;
  let current := default 0 (metric_value <$> harness_metrics d !! metricName) in
  let nextValue := Js.plus current delta in
  t1 <- now ;;
  modifyDb (with_metrics (upsert mergeMetric metricName (mkMetric nextValue t1)) id) ;;;
  t2 <- now ;;
  modifyDb (with_metrics id
              (fun l => l ++ [mkMetricEvent metricName delta (orEmptyObject meta) t2])) ;;;
  ret nextValue.

(** ** Durable pending messages *)

Record PendingInput : Type := mkPendingInput {
  pi_messageId : string;
  pi_channel : string;
  pi_sender : string;
  pi_senderId : string;
  pi_chatRef : option string;
  pi_replyRef : option string;
  pi_expiresAt : Z
}.

(** ON CONFLICT(message_id) DO UPDATE SET channel, sender, sender_id,
    chat_ref, reply_ref, expires_at, updated_at. *)
Definition mergePending (old new : ChannelPendingMessageRow) : ChannelPendingMessageRow :=
  mkPending (pm_channel new) (pm_sender new) (pm_sender_id new) (chat_ref new)
    (reply_ref new) (expires_at new) (pm_created_at old) (pm_updated_at new).

Definition upsertChannelPendingMessage {X} (input : PendingInput) : M X unit :=
  t <- now ;;
  modifyDb (with_pending
              (upsert mergePending (pi_messageId input)
                 (mkPending (pi_channel input) (pi_sender input) (pi_senderId input)
                    (orEmpty (pi_chatRef input)) (orEmpty (pi_replyRef input))
                    (pi_expiresAt input) t t))).

Definition getChannelPendingMessage {X} (messageId : string)
  : M X (option ChannelPendingMessageRow) :=
  d <- getDb ;;
  ret (channel_pending_messages d !! messageId).

Definition deleteChannelPendingMessage {X} (messageId : string) : M X unit :=
  modifyDb (with_pending (delete messageId)).

(** WHERE expires_at <= cutoff [AND channel = ?]; the channel filter is
    left out for an empty channel. *)
Definition expiredIn (channel0 : string) (cutoff : Z)
  (k : string) (r : ChannelPendingMessageRow) : bool :=
  (Z.leb (expires_at r) cutoff
   && (if Js.truthy channel0 then String.eqb (pm_channel r) channel0 else true))%bool.

Definition purgeExpiredChannelPendingMessages {X} (channel0 : string) (olderThanMs : Z)
  : M X Z :=
  t <- now ;;
  let cutoff := t - Z.max 0 olderThanMs in
  d <- getDb ;;
  let before := length (selectWhere (expiredIn channel0 cutoff) (channel_pending_messages d)) in
  modifyDb (with_pending (deleteWhere (expiredIn channel0 cutoff))) ;;;
  ret (Z.of_nat before).

End Repository.

(* ===================================================================== *)
(** * The loop engine ([harness/runtime/loop-engine.ts])                  *)
(* ===================================================================== *)

Module LoopEngine.
Import Types Eff Repository.
Local Open Scope eff_scope.

Record Generated : Type := mkGenerated {
  g_output : string;
  g_evidenceRefs : option (list string)
}.

Record LoopCallbacks (X : Type) : Type := mkCallbacks {
  generate : M X Generated;
  verify : string -> Z -> M X VerificationVerdict;
  revise : string -> VerificationVerdict -> Z -> M X string
}.
Arguments generate {X}.
Arguments verify {X}.
Arguments revise {X}.

Record LoopResult : Type := mkLoopResult {
  output : string;
  verdict : VerificationVerdict;
  loopsUsed : Z;
  exhausted : bool
}.

Definition budgetForRisk (risk : RiskLevel) : Z :=
  if bool_decide (risk = critical) || bool_decide (risk = high) then 5
  else if bool_decide (risk = medium) then 3
  else 1.

Definition isResolvable (o : VerifierOutcome) : bool :=
  bool_decide (o = minor_fix) || bool_decide (o = critical_fail).

Definition refsJson (o : option (list string)) : JsValue :=
  JArr (map JStr (default [] o)).

Definition loopEventJson (iteration : Z) (o : VerifierOutcome) : JsValue :=
  JObj [("iteration", JNum iteration); ("outcome", JStr (outcomeName o))].

Section Loop.
Context {X : Type}.
Variable runId : string.
Variable callbacks : LoopCallbacks X.
Variable maxLoops : Z.

(** The [for (let iteration = 1; iteration <= maxLoops; iteration += 1)]
    loop.  [remaining] counts the passes the loop header still admits,
    [remaining = maxLoops + 1 - iteration]; at [remaining = 0] the
    header's test fails and control reaches the code after the loop. *)
Fixpoint iterate (remaining : nat) (iteration : Z)
  (generated : Generated) (verdict0 : VerificationVerdict) : M X LoopResult :=
  match remaining with
  | O =>
      ret (mkLoopResult (g_output generated) verdict0 maxLoops true)
  | S remaining' =>
      if bool_decide (outcome verdict0 = pass) || bool_decide (outcome verdict0 = abstain)
      then
        appendTaskEvent runId "loop_completed"
          (loopEventJson iteration (outcome verdict0)) ;;;
        ret (mkLoopResult (g_output generated) verdict0 iteration false)
      else if negb (isResolvable (outcome verdict0)) || (maxLoops <=? iteration)
      then
        appendTaskEvent runId "loop_exhausted"
          (loopEventJson iteration (outcome verdict0)) ;;;
        ret (mkLoopResult (g_output generated) verdict0 iteration true)
      else
        revised <- revise callbacks (g_output generated) verdict0 (iteration + 1) ;;
        appendTaskStep runId "revisor"
          (JObj [("iteration", JNum (iteration + 1));
                 ("outputPreview", JStr (Js.slice0 1000 revised))]) ;;;
        let generated' := mkGenerated revised (Some (evidenceRefs verdict0)) in
        verdict' <- verify callbacks (g_output generated') (iteration + 1) ;;
        appendTaskStep runId "verifier"
          (JObj [("iteration", JNum (iteration + 1)); ("verdict", verdictJson verdict')]) ;;;
        iterate remaining' (iteration + 1) generated' verdict'
  end.

End Loop.

Definition runGeneratorVerifierRevisorLoop {X} (runId : string) (risk : RiskLevel)
  (callbacks : LoopCallbacks X) : M X LoopResult :=
  let maxLoops := budgetForRisk risk in
  generated <- generate callbacks ;;
  appendTaskStep runId "generator"
    (JObj [("iteration", JNum 1);
           ("outputPreview", JStr (Js.slice0 1000 (g_output generated)));
           ("evidenceRefs", refsJson (g_evidenceRefs generated))]) ;;;
  verdict0 <- verify callbacks (g_output generated) 1 ;;
  appendTaskStep runId "verifier"
    (JObj [("iteration", JNum 1); ("verdict", verdictJson verdict0)]) ;;;
  iterate runId callbacks maxLoops (Z.to_nat maxLoops) 1 generated verdict0.

End LoopEngine.

(* ===================================================================== *)
(** * SHA-1 ([crypto.createHash('sha1')], FIPS 180-4)                     *)
(* ===================================================================== *)

Module Sha1.

Definition w32 (x : Z) : Z := Z.land x 4294967295.
Definition add32 (a b : Z) : Z := w32 (a + b).
Definition rotl (n x : Z) : Z := w32 (Z.lor (Z.shiftl x n) (Z.shiftr x (32 - n))).
Definition not32 (x : Z) : Z := Z.lxor x 4294967295.

(** [update(string)] hashes the UTF-8 encoding of the string. *)
Definition utf8 (c : ascii) : list Z :=
  let n := Z.of_nat (nat_of_ascii c) in
  if n <? 128 then [n]
  else [Z.lor 192 (Z.shiftr n 6); Z.lor 128 (Z.land n 63)].

Definition bytesOf (s : string) : list Z := flat_map utf8 (Js.chars s).

Definition be64 (n : Z) : list Z :=
  map (fun i => Z.land (Z.shiftr n (8 * i)) 255) [7; 6; 5; 4; 3; 2; 1; 0].

(** Padding: 0x80, zeros up to 56 modulo 64, the bit length on 8 bytes. *)
Definition pad (msg : list Z) : list Z :=
  let len := Z.of_nat (length msg) in
  let zeros := Z.to_nat ((55 - len) mod 64) in
  msg ++ [128] ++ repeat 0 zeros ++ be64 (8 * len).

Fixpoint words (fuel : nat) (bytes : list Z) : list Z :=
  match fuel, bytes with
  | S fuel', b0 :: b1 :: b2 :: b3 :: tl =>
      (Z.lor (Z.shiftl b0 24) (Z.lor (Z.shiftl b1 16) (Z.lor (Z.shiftl b2 8) b3)))
      :: words fuel' tl
  | _, _ => []
  end.

(** The message schedule, latest word first. *)
Fixpoint extend (n : nat) (w : list Z) : list Z :=
  match n with
  | O => w
  | S n' =>
      let x := Z.lxor (Z.lxor (nth 2 w 0) (nth 7 w 0)) (Z.lxor (nth 13 w 0) (nth 15 w 0)) in
      extend n' (rotl 1 x :: w)
  end.

Definition schedule (block : list Z) : list Z := rev (extend 64 (rev block)).

Record regs : Type := mkRegs { ra : Z; rb : Z; rc : Z; rd : Z; re : Z }.

Definition round (i : nat) (w : Z) (r : regs) : regs :=
  let '(mkRegs a b c d e) := r in
  let '(f, k) :=
    if Nat.ltb i 20 then (Z.lor (Z.land b c) (Z.land (not32 b) d), 1518500249)
    else if Nat.ltb i 40 then (Z.lxor (Z.lxor b c) d, 1859775393)
    else if Nat.ltb i 60 then
      (Z.lor (Z.lor (Z.land b c) (Z.land b d)) (Z.land c d), 2400959708)
    else (Z.lxor (Z.lxor b c) d, 3395469782) in
  let temp := add32 (add32 (add32 (add32 (rotl 5 a) f) e) k) w in
  mkRegs temp a (rotl 30 b) c d.

Fixpoint rounds (i : nat) (ws : list Z) (r : regs) : regs :=
  match ws with
  | [] => r
  | w :: tl => rounds (S i) tl (round i w r)
  end.

Definition compress (h : regs) (block : list Z) : regs :=
  let r := rounds 0 (schedule block) h in
  mkRegs (add32 (ra h) (ra r)) (add32 (rb h) (rb r)) (add32 (rc h) (rc r))
         (add32 (rd h) (rd r)) (add32 (re h) (re r)).

Fixpoint blocks (fuel : nat) (ws : list Z) (h : regs) : regs :=
  match fuel, ws with
  | S fuel', _ :: _ => blocks fuel' (drop 16 ws) (compress h (take 16 ws))
  | _, _ => h
  end.

Definition hexDigit (n : Z) : ascii :=
  ascii_of_nat (Z.to_nat (if n <? 10 then 48 + n else 87 + n)).

Definition hex32 (x : Z) : list ascii :=
  map (fun i => hexDigit (Z.land (Z.shiftr x (4 * i)) 15)) [7; 6; 5; 4; 3; 2; 1; 0].

(** [createHash('sha1').update(s).digest('hex')] *)
Definition hex (s : string) : string :=
  let bytes := pad (bytesOf s) in
  let ws := words (length bytes) bytes in
  let h := blocks (length ws) ws
             (mkRegs 1732584193 4023233417 2562383102 271733878 3285377520) in
  Js.str (hex32 (ra h) ++ hex32 (rb h) ++ hex32 (rc h) ++ hex32 (rd h) ++ hex32 (re h)).

End Sha1.

(* ===================================================================== *)
(** * The verifier ([harness/runtime/orchestrator.ts])                    *)
(* ===================================================================== *)

Module Orchestrator.
Import Types Eff.
Local Open Scope eff_scope.

Record VerifyContext : Type := mkVerifyContext {
  ctx_runId : string;
  ctx_objective : string;
  ctx_risk : RiskLevel
}.

(** [Set.add]: keeps the first occurrence, in insertion order. *)
Definition setAdd (x : string) (l : list string) : list string :=
  if existsb (String.eqb x) l then l else l ++ [x].

(** [/(https?:\/\/[^\s)]+)/g] *)
Definition urlRegex : Regex.re :=
  Regex.Grp 1 (Regex.Seq (Regex.lit "http") (Regex.Seq (Regex.Opt (Regex.lit "s"))
    (Regex.Seq (Regex.lit "://")
       (Regex.Plus (Regex.Cls (fun c => negb (Js.isSpace c || Ascii.eqb c ")"))))))).

(** [/\[(?:evidence|source):\s*([^\]]+)\]/gi] *)
Definition evidenceRegex : Regex.re :=
  Regex.Seq (Regex.lit "[")
    (Regex.Seq (Regex.Alt (Regex.litI "evidence") (Regex.litI "source"))
       (Regex.Seq (Regex.lit ":") (Regex.Seq (Regex.Star Regex.space)
          (Regex.Seq (Regex.Grp 1 (Regex.Plus (Regex.noneOf "]"))) (Regex.lit "]"))))).

Definition group1 (m : Regex.result) : string := default "" (Regex.group 1 m).

Definition extractEvidenceRefs (text : string) : list string :=
  let refs := foldl (fun acc m => setAdd (group1 m) acc) [] (Regex.execAll urlRegex text) in
  foldl (fun acc m => setAdd (Js.trim (group1 m)) acc) refs (Regex.execAll evidenceRegex text).

(** [/sorry,?\s+i encountered an error/i] *)
Definition errorPlaceholder : Regex.re :=
  Regex.Seq (Regex.litI "sorry") (Regex.Seq (Regex.Opt (Regex.lit ","))
    (Regex.Seq (Regex.Plus Regex.space) (Regex.litI "i encountered an error"))).

(** [/```(?:json)?\s*([\s\S]*?)\s*```/] *)
Definition fencedRegex : Regex.re :=
  Regex.Seq (Regex.lit "```") (Regex.Seq (Regex.Opt (Regex.lit "json"))
    (Regex.Seq (Regex.Star Regex.space)
       (Regex.Seq (Regex.Grp 1 (Regex.LazyStar Regex.anyChar))
          (Regex.Seq (Regex.Star Regex.space) (Regex.lit "```"))))).

(** [/\{[\s\S]*\}/] *)
Definition objectRegex : Regex.re :=
  Regex.Seq (Regex.lit "{") (Regex.Seq (Regex.Star Regex.anyChar) (Regex.lit "}")).

(** The double quote character. *)
Definition dq : string := String (ascii_of_nat 34) EmptyString.

Definition verifierPrompt (ctx : VerifyContext) (candidate : string) : string :=
  Js.join Js.LF
    ["You are a response quality verifier for an AI assistant. Evaluate whether the agent response adequately addresses the user request.";
     "";
     "<request risk=" +:+ dq +:+ riskName (ctx_risk ctx) +:+ dq +:+ ">";
     ctx_objective ctx;
     "</request>";
     "";
     "<response>";
     candidate;
     "</response>";
     "";
     "Output ONLY a JSON object with these fields, no other text:";
     "{";
     ("  " +:+ dq +:+ "outcome" +:+ dq +:+ ": " +:+ dq +:+ "pass" +:+ dq +:+ " | " +:+ dq +:+ "minor_fix" +:+ dq +:+ " | " +:+ dq +:+ "critical_fail" +:+ dq +:+ " | " +:+ dq +:+ "abstain" +:+ dq +:+ ",");
     ("  " +:+ dq +:+ "findings" +:+ dq +:+ ": [" +:+ dq +:+ "list of issues, empty if pass" +:+ dq +:+ "],");
     ("  " +:+ dq +:+ "required_actions" +:+ dq +:+ ": [" +:+ dq +:+ "fixes needed, empty if pass" +:+ dq +:+ "]");
     "}";
     "";
     "Guidelines:";
     ("- " +:+ dq +:+ "pass" +:+ dq +:+ ": Response is relevant, coherent, and addresses the request. Conversational and casual messages should pass easily.");
     ("- " +:+ dq +:+ "minor_fix" +:+ dq +:+ ": Response is partially correct but has notable gaps or inaccuracies.");
     ("- " +:+ dq +:+ "critical_fail" +:+ dq +:+ ": Response is completely off-topic, nonsensical, or could cause harm.");
     ("- " +:+ dq +:+ "abstain" +:+ dq +:+ ": Cannot evaluate (too specialized or ambiguous).");
     "- Be pragmatic. A helpful on-topic response should pass even if imperfect."].

(** [for (const x of l) f(x)], collecting the results up to the first
    exception. *)
Definition mapRes {A B} (f : A -> res B) : list A -> res (list B) :=
  fix go (l : list A) : res (list B) :=
    match l with
    | [] => Ok []
    | x :: tl =>
        match f x with
        | Ok y => match go tl with
                  | Ok ys => Ok (y :: ys)
                  | Throw e => Throw e
                  end
        | Throw e => Throw e
        end
    end.

(** An own property of a parsed object. *)
Definition hasOwn (name : string) (fields : list (string * JsValue)) : bool :=
  existsb (fun kv => String.eqb (fst kv) name) fields.

(** JavaScript's [String(v)] on parsed JSON.  A plain object answers
    through [Object.prototype.toString], unless an own [toString] key,
    which holds no function, hides it: then [valueOf] yields no primitive
    either and the conversion throws a TypeError.  An array joins its
    elements, null as the empty string, and throws where one of them
    does. *)
Fixpoint jsString (v : JsValue) : res string :=
  match v with
  | JNull => Ok "null"
  | JBool b => Ok (if b then "true" else "false")
  | JNum z => Ok (pretty z)
  | JStr s => Ok s
  | JArr l =>
      match mapRes (fun x => match x with
                             | JNull => Ok ""
                             | _ => jsString x
                             end) l with
      | Ok parts => Ok (Js.join "," parts)
      | Throw e => Throw e
      end
  | JObj fields =>
      if hasOwn "toString" fields
      then Throw "Cannot convert object to primitive value"
      else Ok "[object Object]"
  end.

(** Truthiness, [typeof v === 'object'], [Array.isArray] and property
    access on parsed JSON. *)

Definition jsTruthy (v : JsValue) : bool :=
  match v with
  | JNull => false
  | JBool b => b
  | JNum z => negb (z =? 0)
  | JStr s => Js.truthy s
  | JArr _ | JObj _ => true
  end.

Definition typeofObject (v : JsValue) : bool :=
  match v with JNull | JArr _ | JObj _ => true | _ => false end.

(** [v.name]: the last binding of a duplicated key wins in [JSON.parse]. *)
Definition getField (name : string) (v : JsValue) : option JsValue :=
  match v with
  | JObj fields =>
      snd <$> List.find (fun kv => String.eqb (fst kv) name) (rev fields)
  | _ => None
  end.

(** [Array.isArray(v) ? v.map(String) : []] *)
Definition stringArray (o : option JsValue) : res (list string) :=
  match o with
  | Some (JArr l) => mapRes jsString l
  | _ => Ok []
  end.

(** [String(parsed.outcome || '')] *)
Definition outcomeRawOf (obj : JsValue) : res string :=
  match getField "outcome" obj with
  | Some v => if jsTruthy v then jsString v else Ok ""
  | None => Ok ""
  end.

Definition validOutcome (s : string) : option VerifierOutcome :=
  if String.eqb s "pass" then Some pass
  else if String.eqb s "minor_fix" then Some minor_fix
  else if String.eqb s "critical_fail" then Some critical_fail
  else if String.eqb s "abstain" then Some abstain
  else None.

Section Verify.
Context {X : Type}.
(** [runOneShotPrompt(prompt, model)] of [lib/invoke.ts]: a model
    subprocess, which answers or throws. *)
Variable runOneShotPrompt : string -> string -> M X string.
(** The built-in [JSON.parse], which returns a value or throws. *)
Variable JSON_parse : string -> res JsValue.

Definition parseOrThrow (s : string) : res (option JsValue) :=
  match JSON_parse s with
  | Ok v => Ok (Some v)
  | Throw e => Throw e
  end.

(** The nested [try { JSON.parse(trimmed) } catch { ... }]: the value
    of [parsed] ([None] is the initial [null]), or the exception that
    escapes to the outer handler. *)
Definition parseVerifierOutput (trimmed : string) : res (option JsValue) :=
  match JSON_parse trimmed with
  | Ok v => Ok (Some v)
  | Throw _ =>
      match Regex.exec fencedRegex trimmed with
      | Some fenced => parseOrThrow (group1 fenced)
      | None =>
          match Regex.exec objectRegex trimmed with
          | Some objMatch => parseOrThrow (Regex.whole objMatch)
          | None => Ok None
          end
      end
  end.

(** [!parsed || typeof parsed !== 'object'] *)
Definition notAnObject (parsed : option JsValue) : bool :=
  match parsed with
  | None => true
  | Some v => negb (jsTruthy v) || negb (typeofObject v)
  end.

Definition verdictOf (ctx : VerifyContext) (o : VerifierOutcome)
  (fs acts refs : list string) : VerificationVerdict :=
  mkVerdict (ctx_runId ctx) "llm" o fs acts refs.

(** The two fast paths that answer without a model call. *)
Definition tooShort (candidate : string) : bool :=
  negb (Js.truthy candidate) || Nat.ltb (Js.length (Js.trim candidate)) 8.

(** The body of the [try]: the model call, the parse of its answer and
    the reading of the parsed object.  Each of the three can throw. *)
Definition askVerifier (ctx : VerifyContext) (candidate : string)
  : M X VerificationVerdict :=
  let refs := extractEvidenceRefs candidate in
  raw <- runOneShotPrompt (verifierPrompt ctx candidate) "claude-opus-4-6" ;;
  let trimmed := Js.trim raw in
  parsed <- liftRes (parseVerifierOutput trimmed) ;;
  if notAnObject parsed then
    ret (verdictOf ctx pass
           ["Verifier output could not be parsed; defaulting to pass."] [] refs)
  else
    let obj := default JNull parsed in
    outcomeRaw <- liftRes (outcomeRawOf obj) ;;
    let o := default pass (validOutcome outcomeRaw) in
    findings0 <- liftRes (stringArray (getField "findings" obj)) ;;
    requiredActions0 <- liftRes (stringArray (getField "required_actions" obj)) ;;
    ret (verdictOf ctx o findings0 requiredActions0 refs).

Definition verifyCandidate (ctx : VerifyContext) (candidate : string)
  : M X VerificationVerdict :=
  let refs := extractEvidenceRefs candidate in
  if tooShort candidate then
    ret (verdictOf ctx critical_fail ["Response is empty or too short."]
           ["Provide a complete response."] refs)
  else if Regex.test errorPlaceholder candidate then
    ret (verdictOf ctx critical_fail ["Agent returned an execution error placeholder."]
           ["Regenerate a concrete answer."] refs)
  else
    catch (askVerifier ctx candidate)
      (fun e =>
         ret (verdictOf ctx pass
                ["Verifier error: " +:+ e +:+ "; defaulting to pass."] [] refs)).

End Verify.

End Orchestrator.

(* ===================================================================== *)
(** * The memory service ([harness/memory/service.ts])                    *)
(* ===================================================================== *)

Module MemoryService.
Import Types Store Eff Repository.
Local Open Scope eff_scope.

Definition deterministicMemoryId (userId category0 key0 : string) : string :=
  let hash := Js.slice0 16
                (Sha1.hex (userId +:+ ":" +:+ category0 +:+ ":" +:+ Js.toLowerCase key0)) in
  "mem_" +:+ hash.

(** [/\b(p1|p2|...)\b[<seps>\s-]*(.+)$/i]: one of the phrases as a word,
    separators, then the rest of the text on one line. *)
Definition phraseThenRest (phrases : list string) (seps : string) : Regex.re :=
  Regex.Seq Regex.WordB
    (Regex.Seq (Regex.Grp 1 (Regex.alts (map Regex.litI phrases)))
       (Regex.Seq Regex.WordB
          (Regex.Seq (Regex.Star (Regex.Cls (fun c =>
                        existsb (Ascii.eqb c) (Js.chars seps) || Js.isSpace c
                        || Ascii.eqb c "-")))
             (Regex.Seq (Regex.Grp 2 (Regex.Plus Regex.dot)) Regex.Eos)))).

Definition preferenceRegex : Regex.re :=
  phraseThenRest ["i prefer"; "please always"; "my preference is"; "i usually"] ":".
Definition workflowRegex : Regex.re :=
  phraseThenRest ["this is my workflow"; "how i do this"; "process is"] ":".
Definition projectRegex : Regex.re :=
  phraseThenRest ["project"; "working on"; "build"] ":".
Definition taskStateRegex : Regex.re :=
  phraseThenRest ["remember that"; "remind me"; "i need to"] ":".
(** [/\bactually\b[,:\s-]*(.+)$/i]; its rest is the pattern's group 1. *)
Definition correctionRegex : Regex.re := phraseThenRest ["actually"] ",:".

(** [/\b(always|must)\b/i] *)
Definition alwaysMustRegex : Regex.re :=
  Regex.Seq Regex.WordB
    (Regex.Seq (Regex.Alt (Regex.litI "always") (Regex.litI "must")) Regex.WordB).

(** [/\bproject\b/] *)
Definition projectWordRegex : Regex.re :=
  Regex.Seq Regex.WordB (Regex.Seq (Regex.lit "project") Regex.WordB).

Definition restOf (m : Regex.result) : string := default "" (Regex.group 2 m).

Definition rawRow (c : MemoryCategory) (k v : string) (conf : Q) : MemoryInsertInput :=
  mkMemoryInput "" "" c k v conf None.

Definition when {A} (o : option A) (f : A -> list MemoryInsertInput) : list MemoryInsertInput :=
  match o with Some a => f a | None => [] end.

Definition buildMemoryRowsFromText (text : string) : list MemoryInsertInput :=
  let lower := Js.toLowerCase text in
  when (Regex.exec preferenceRegex text) (fun m =>
    [rawRow preferences "preference" (Js.trim (restOf m))
       (if Regex.test alwaysMustRegex (restOf m) then 95 # 100 else 85 # 100)])
  ++ when (Regex.exec workflowRegex text) (fun m =>
    [rawRow workflows "workflow" (Js.trim (restOf m)) (82 # 100)])
  ++ when (Regex.exec projectRegex text) (fun m =>
    if Regex.test projectWordRegex lower
    then [rawRow projects "active_project" (Js.trim (restOf m)) (7 # 10)]
    else [])
  ++ when (Regex.exec taskStateRegex text) (fun m =>
    [rawRow task_states "task_state" (Js.trim (restOf m)) (72 # 100)])
  ++ when (Regex.exec correctionRegex text) (fun m =>
    [rawRow confirmed_facts "explicit_correction" (Js.trim (restOf m)) (9 # 10)]).

(** A JavaScript [Map] with string keys: insertion order, and [set] on a
    present key replaces the value in place. *)
Definition mapGet {V} (k : string) (m : list (string * V)) : option V :=
  snd <$> List.find (fun kv => String.eqb (fst kv) k) m.

Fixpoint mapSet {V} (k : string) (v : V) (m : list (string * V)) : list (string * V) :=
  match m with
  | [] => [(k, v)]
  | (k', v') :: tl => if String.eqb k' k then (k, v) :: tl else (k', v') :: mapSet k v tl
  end.

(** [a > b] on confidences. *)
Definition gtb (a b : Q) : bool := negb (Qle_bool a b).

Definition dedupKey (row : MemoryInsertInput) : string :=
  categoryName (mi_category row) +:+ ":" +:+ mi_key row +:+ ":"
    +:+ Js.toLowerCase (mi_value row).

Definition dedupStep (dedup : list (string * MemoryInsertInput)) (row : MemoryInsertInput)
  : list (string * MemoryInsertInput) :=
  match mapGet (dedupKey row) dedup with
  | Some existing =>
      if gtb (mi_confidence row) (mi_confidence existing)
      then mapSet (dedupKey row) row dedup else dedup
  | None => mapSet (dedupKey row) row dedup
  end.

Definition dedupRows (rawRows : list MemoryInsertInput) : list MemoryInsertInput :=
  map snd (foldl dedupStep [] rawRows).

Definition stableInput (userId runId : string) (row : MemoryInsertInput) : MemoryInsertInput :=
  mkMemoryInput
    (deterministicMemoryId userId (categoryName (mi_category row)) (mi_key row))
    userId (mi_category row) (mi_key row) (mi_value row) (mi_confidence row) (Some runId).

Definition ingestMemorySignals {X} (userId runId objective0 responseText : string) : M X Z :=
  let fromObjective := buildMemoryRowsFromText objective0 in
  let fromResponse := buildMemoryRowsFromText responseText in
  let rawRows := fromObjective ++ fromResponse in
  if Nat.eqb (length rawRows) 0 then ret 0
  else
    let dedup := dedupRows rawRows in
    forEach (fun row => upsertMemoryRecord (stableInput userId runId row)) dedup ;;;
    ret (Z.of_nat (length dedup)).

(** The store's memory table after the upserts of [rows] in order, the
    n-th of them stamped with the n-th clock reading from [i] on. *)
Fixpoint upsertAll (clock0 : nat -> Z) (i : nat) (rows : list MemoryInsertInput)
  (m : gmap string MemoryRow) : gmap string MemoryRow :=
  match rows with
  | [] => m
  | row :: tl =>
      upsertAll clock0 (S i) tl
        (upsert mergeMemory (mi_recordId row) (memoryRowOf (clock0 i) row) m)
  end.

(** Every row sits under the id computed from its own user, category and key. *)
Definition keyed (m : gmap string MemoryRow) : Prop :=
  forall id r, m !! id = Some r ->
    id = deterministicMemoryId (user_id r) (category r) (key r).

End MemoryService.

(* ===================================================================== *)
(** * The durable pending-message store ([channels/pending-store.ts])     *)
(* ===================================================================== *)

Module PendingStore.
Import Types Store Eff Repository.
Local Open Scope eff_scope.

Definition DEFAULT_TTL_MS : Z := 10 * 60 * 1000.

Record DurablePendingMessage : Type := mkDurable {
  d_channel : string;
  d_sender : string;
  d_senderId : string;
  d_chatRef : string;
  d_replyRef : string
}.

Record RememberInput : Type := mkRemember {
  r_messageId : string;
  r_channel : string;
  r_sender : string;
  r_senderId : string;
  r_chatRef : option string;
  r_replyRef : option string;
  r_ttlMs : option Z
}.

(** [input.ttlMs || DEFAULT_TTL_MS] *)
Definition ttlOrDefault (o : option Z) : Z :=
  match o with
  | Some n => if n =? 0 then DEFAULT_TTL_MS else n
  | None => DEFAULT_TTL_MS
  end.

Definition rememberPendingMessage {X} (input : RememberInput) : M X unit :=
  let ttlMs := Z.max 1 (ttlOrDefault (r_ttlMs input)) in
  t <- now ;;
  let expiresAt := t + ttlMs in
  upsertChannelPendingMessage
    (mkPendingInput (r_messageId input) (r_channel input) (r_sender input)
       (r_senderId input)
       (Some (Js.orElse (orEmpty (r_chatRef input)) (r_senderId input)))
       (Some (orEmpty (r_replyRef input)))
       expiresAt).

Definition readPendingMessage {X} (channel0 messageId : string)
  : M X (option DurablePendingMessage) :=
  row <- getChannelPendingMessage messageId ;;
  match row with
  | None => ret None
  | Some r =>
      if negb (String.eqb (pm_channel r) channel0) then ret None
      else
        t <- now ;;
        if expires_at r <=? t then
          deleteChannelPendingMessage messageId ;;;
          ret None
        else
          ret (Some (mkDurable (pm_channel r) (pm_sender r) (pm_sender_id r)
                       (Js.orElse (chat_ref r) (pm_sender_id r))
                       (Js.orElse (reply_ref r) "")))
  end.

Definition clearPendingMessage {X} (messageId : string) : M X unit :=
  deleteChannelPendingMessage messageId.

Definition cleanupExpiredPendingMessages {X} (channel0 : string) : M X Z :=
  removed <- purgeExpiredChannelPendingMessages channel0 0 ;;
  (if 0 <? removed
   then _ <- incrementMetric "channel_pending_expired_count" removed
               (JObj [("channel", JStr channel0)]) ;; ret tt
   else ret tt) ;;;
  ret removed.

End PendingStore.

(* ===================================================================== *)
(** * Long-response spill ([queue-processor.ts])                          *)
(* ===================================================================== *)

Module QueueProcessor.
Import Types Eff.
Local Open Scope eff_scope.

(** [ResponseData]: the outgoing envelope. *)
Record ResponseData : Type := mkResponse {
  rd_channel : string;
  rd_sender : string;
  rd_senderId : option string;
  rd_message : string;
  rd_originalMessage : string;
  rd_timestamp : Z;
  rd_messageId : string;
  rd_agent : option string;
  rd_files : option (list string)
}.

(** The file system as the queue processor uses it: file contents, the
    paths a write would fail on, the envelopes written to the outgoing
    queue (latest last), and the log. *)
Record Disk : Type := mkDisk {
  contents : gmap string string;
  readOnly : string -> bool;
  outgoing : list (string * ResponseData);
  logged : list string
}.

Definition LONG_RESPONSE_THRESHOLD : nat := 4000.

(** [path.join(dir, name)] for a normalised [dir] and a plain file name. *)
Definition pathJoin (dir name : string) : string := dir +:+ "/" +:+ name.

(** [fs.writeFileSync(path, data)] *)
Definition writeFileSync (path data : string) : M Disk unit :=
  d <- getExt ;;
  if readOnly d path then throw ("EACCES: permission denied, open '" +:+ path +:+ "'")
  else modifyExt (fun d => mkDisk (<[path := data]> (contents d)) (readOnly d)
                                  (outgoing d) (logged d)).

Definition log (level message : string) : M Disk unit :=
  modifyExt (fun d => mkDisk (contents d) (readOnly d) (outgoing d)
                             (logged d ++ ["[" +:+ level +:+ "] " +:+ message])).

Definition previewSuffix : string :=
  Js.LF +:+ Js.LF +:+ "_(Full response attached as file)_".

Section Spill.
(** [FILES_DIR] and [QUEUE_OUTGOING] of [lib/config.ts]. *)
Variable FILES_DIR : string.
Variable QUEUE_OUTGOING : string.

Definition handleLongResponse (response : string) (existingFiles : list string)
  : M Disk (string * list string) :=
  if Nat.leb (Js.length response) LONG_RESPONSE_THRESHOLD
  then ret (response, existingFiles)
  else
    t <- now ;;
    let filename := "response_" +:+ pretty t +:+ ".md" in
    let filePath := pathJoin FILES_DIR filename in
    writeFileSync filePath response ;;;
    log "INFO" ("Long response (" +:+ pretty (Js.length response)
                  +:+ " chars) saved to " +:+ filename) ;;;
    let preview := Js.takeStr LONG_RESPONSE_THRESHOLD response +:+ previewSuffix in
    ret (preview, existingFiles ++ [filePath]).

(** The end of the no-team branch of [processMessage]: spill, build the
    envelope, write it to the outgoing queue. *)
Definition writeResponse (channel0 sender0 : string) (senderId : option string)
  (rawMessage messageId agentId finalResponse : string) (outboundFiles : list string)
  : M Disk ResponseData :=
  spilled <- handleLongResponse finalResponse outboundFiles ;;
  let responseMessage := fst spilled in
  let allFiles := snd spilled in
  t1 <- now ;;
  let responseData :=
    mkResponse channel0 sender0 senderId responseMessage rawMessage t1 messageId
      (Some agentId) (if Nat.ltb 0 (length allFiles) then Some allFiles else None) in
  responseFile <-
    (if String.eqb channel0 "heartbeat"
     then ret (pathJoin QUEUE_OUTGOING (messageId +:+ ".json"))
     else t2 <- now ;;
          ret (pathJoin QUEUE_OUTGOING
                 (channel0 +:+ "_" +:+ messageId +:+ "_" +:+ pretty t2 +:+ ".json"))) ;;
  d <- getExt ;;
  if readOnly d responseFile
  then throw ("EACCES: permission denied, open '" +:+ responseFile +:+ "'")
  else
    modifyExt (fun d => mkDisk (contents d) (readOnly d)
                               (outgoing d ++ [(responseFile, responseData)]) (logged d)) ;;;
    ret responseData.

End Spill.

End QueueProcessor.

(* ===================================================================== *)
(** * The tooling executor ([harness/tools/executor.ts])                  *)
(* ===================================================================== *)

Module ToolExecutor.
Import Types Store Eff Repository.
Local Open Scope eff_scope.

Record ToolExecutionInput : Type := mkToolInput {
  ti_runId : string;
  ti_userId : string;
  ti_objective : string;
  ti_candidateOutput : option string;
  ti_workspacePath : string
}.

Inductive ExecutionStatus : Type := completed | needs_approval | needs_input | failed.

Record ToolExecutionResult : Type := mkToolResult {
  status : ExecutionStatus;
  message : string;
  requestId : option string;
  toolName : option string;
  command : option string;
  outputSnippet : option string
}.

Definition ALLOWED_TOOLS : list string :=
  ["npm"; "npx"; "pip"; "pip3"; "brew"; "git"; "docker"; "pnpm"; "yarn"].
Definition MAX_OUTPUT_BYTES : nat := 24 * 1024.

(** What the operating system answers to [spawn]: an [error] event, or
    [close] with an exit code ([None] when a signal ended the child, as
    the 120 s SIGTERM does) after the chunks written to stdout and stderr. *)
Inductive SpawnOutcome : Type :=
| SpawnError (msg : string)
| Closed (code : option Z) (stdoutChunks stderrChunks : list string).

Record SpawnCall : Type := mkSpawn {
  bin : string;
  args : list string;
  cwd : string
}.

(** The executor's collaborators: the UUID source, the operating system,
    and the record of every [spawn] made. *)
Record Os : Type := mkOs {
  uuids : nat -> string;
  draws : nat;
  answer : SpawnCall -> SpawnOutcome;
  spawned : list SpawnCall
}.

(** [crypto.randomUUID()] *)
Definition randomUUID : M Os string :=
  o <- getExt ;;
  modifyExt (fun o => mkOs (uuids o) (S (draws o)) (answer o) (spawned o)) ;;;
  ret (uuids o (draws o)).

(** [spawn(bin, args, { cwd, shell: false })] *)
Definition spawn (c : SpawnCall) : M Os SpawnOutcome :=
  o <- getExt ;;
  modifyExt (fun o => mkOs (uuids o) (draws o) (answer o) (spawned o ++ [c])) ;;;
  ret (answer o c).

Definition isLowerAlnum (c : ascii) : bool :=
  Js.between 97 122 c || Js.isDigit c.

(** [s.replace(/[^a-z0-9]+/g, '_')] *)
Fixpoint slug (inRun : bool) (l : list ascii) : list ascii :=
  match l with
  | [] => []
  | c :: tl =>
      if isLowerAlnum c then c :: slug false tl
      else if inRun then slug true tl
      else "_"%char :: slug true tl
  end.

Definition toolIdFromName (name0 : string) : string :=
  "tool_" +:+ Js.str (slug false (Js.chars (Js.toLowerCase name0))).

Definition classifyTrust (source0 : string) : TrustClass :=
  let normalized := Js.toLowerCase source0 in
  if Regex.test (Regex.alts (map Regex.lit
                   ["github"; "npm"; "pypi"; "homebrew"; "docker"; "git"])) normalized
  then mainstream
  else if Regex.test (Regex.alts (map Regex.lit ["internal"; "local"; "curated"])) normalized
  then curated
  else unknown.

(** [/^[-*]\s+/] and [/^\d+[.)]\s+/] *)
Definition bulletPrefix : Regex.re :=
  Regex.Seq Regex.Bos (Regex.Seq (Regex.oneOf "-*") (Regex.Plus Regex.space)).
Definition numberPrefix : Regex.re :=
  Regex.Seq Regex.Bos (Regex.Seq (Regex.Plus Regex.digit)
    (Regex.Seq (Regex.oneOf ".)") (Regex.Plus Regex.space))).

Definition stripLinePrefix (line : string) : string :=
  Js.trim (Regex.removeFirst numberPrefix (Regex.removeFirst bulletPrefix line)).

(** [new RegExp(`\\b(${tool})\\s+[^\\n]+`, 'i')] *)
Definition toolRegex (tool : string) : Regex.re :=
  Regex.Seq Regex.WordB (Regex.Seq (Regex.Grp 1 (Regex.litI tool))
    (Regex.Seq (Regex.Plus Regex.space) (Regex.Plus (Regex.noneOf Js.LF)))).

Definition startsWithTool (line : string) : bool :=
  existsb (fun tool =>
             Js.startsWith (Js.toLowerCase line) (tool +:+ " ")
             || String.eqb (Js.toLowerCase line) tool) ALLOWED_TOOLS.

Fixpoint firstMatch (blob : string) (tools : list string) : option Regex.result :=
  match tools with
  | [] => None
  | tool :: tl =>
      match Regex.exec (toolRegex tool) blob with
      | Some m => Some m
      | None => firstMatch blob tl
      end
  end.

Definition extractCommandCandidate (blob : string) : string :=
  let lines := List.filter Js.truthy (map stripLinePrefix (Js.splitLines blob)) in
  match List.find startsWithTool lines with
  | Some line => line
  | None =>
      match firstMatch blob ALLOWED_TOOLS with
      | Some m => Js.trim (Regex.whole m)
      | None => ""
      end
  end.

Definition dqChar : ascii := Eval cbv in ascii_of_nat 34.

(** The tokenizer's pattern: a double-quoted run (group 1), a
    single-quoted run (group 2) or a run of non-blanks (group 3), with
    the g flag. *)
Definition tokenRegex : Regex.re :=
  Regex.Alt
    (Regex.Seq (Regex.chr dqChar)
       (Regex.Seq (Regex.Grp 1 (Regex.Star (Regex.Cls (fun c => negb (Ascii.eqb c dqChar)))))
          (Regex.chr dqChar)))
    (Regex.Alt
       (Regex.Seq (Regex.chr "'")
          (Regex.Seq (Regex.Grp 2 (Regex.Star (Regex.noneOf "'"))) (Regex.chr "'")))
       (Regex.Grp 3 (Regex.Plus Regex.nonSpace))).

(** [match[1] ?? match[2] ?? match[3] ?? ''] *)
Definition tokenOf (m : Regex.result) : string :=
  match Regex.group 1 m with
  | Some s => s
  | None =>
      match Regex.group 2 m with
      | Some s => s
      | None => default "" (Regex.group 3 m)
      end
  end.

Definition tokenizeCommand (command0 : string) : list string :=
  List.filter Js.truthy (map tokenOf (Regex.execAll tokenRegex command0)).

(** [/[;&|`]/], [/\bsudo\b/i] and [/\brm\s+-rf\b/i] *)
Definition metaRegex : Regex.re := Regex.oneOf ";&|`".
Definition sudoRegex : Regex.re :=
  Regex.Seq Regex.WordB (Regex.Seq (Regex.litI "sudo") Regex.WordB).
Definition rmRfRegex : Regex.re :=
  Regex.Seq Regex.WordB (Regex.Seq (Regex.litI "rm")
    (Regex.Seq (Regex.Plus Regex.space) (Regex.Seq (Regex.litI "-rf") Regex.WordB))).

Record Validation : Type := mkValidation {
  ok : bool;
  reason : option string
}.

Definition includesTool (tool : string) : bool := existsb (String.eqb tool) ALLOWED_TOOLS.

Definition sanitizeCommand (command0 : string) : Validation :=
  if negb (Js.truthy (Js.trim command0)) then
    mkValidation false (Some "No executable tool command found.")
  else if Regex.test metaRegex command0 then
    mkValidation false (Some "Command chaining/pipes are blocked in harness tooling mode.")
  else if Regex.test sudoRegex command0 then
    mkValidation false (Some "sudo is blocked in harness tooling mode.")
  else if Regex.test rmRfRegex command0 then
    mkValidation false (Some "Destructive rm -rf command blocked.")
  else
    match tokenizeCommand command0 with
    | [] => mkValidation false (Some "Command parser could not extract executable tokens.")
    | first :: _ =>
        let tool := Js.toLowerCase first in
        if negb (includesTool tool) then
          mkValidation false
            (Some ("Tool '" +:+ tool +:+ "' is not in allowed harness tool list."))
        else mkValidation true None
    end.

(** [appendBounded]: keep the last [MAX_OUTPUT_BYTES] code units. *)
Definition appendBounded (prev nextChunk : string) : string :=
  let merged := prev +:+ nextChunk in
  if Nat.leb (Js.length merged) MAX_OUTPUT_BYTES then merged
  else Js.str (drop (Js.length merged - MAX_OUTPUT_BYTES) (Js.chars merged)).

Definition section (label text : string) : string :=
  if Js.truthy (Js.trim text) then label +:+ ":" +:+ Js.LF +:+ Js.trim text else "".

Definition executeCommand (command0 cwd0 : string) : M Os (Z * string) :=
  match tokenizeCommand command0 with
  | [] => ret (1, "Command parse failed.")
  | bin0 :: args0 =>
      outcome0 <- spawn (mkSpawn bin0 args0 cwd0) ;;
      startedAt <- now ;;
      match outcome0 with
      | SpawnError msg => ret (1, "Failed to run command: " +:+ msg)
      | Closed code out err =>
          let stdout := foldl appendBounded "" out in
          let stderr := foldl appendBounded "" err in
          closedAt <- now ;;
          let elapsedMs := closedAt - startedAt in
          let output :=
            Js.join (Js.LF +:+ Js.LF)
              (List.filter Js.truthy
                 ["Exit code: " +:+ pretty (default 1 code);
                  "Duration: " +:+ pretty elapsedMs +:+ "ms";
                  section "stdout" stdout;
                  section "stderr" stderr]) in
          ret (default 1 code, output)
      end
  end.

Definition count {X} (metric : string) (fields : list (string * JsValue)) : M X unit :=
  _ <- incrementMetric metric 1 (JObj fields) ;; ret tt.

(** [[input.objective, input.candidateOutput || ''].filter(Boolean).join('\n')] *)
Definition sourceTextOf (input : ToolExecutionInput) : string :=
  Js.join Js.LF (List.filter Js.truthy
                   [ti_objective input; orEmpty (ti_candidateOutput input)]).

Definition commandOf (input : ToolExecutionInput) : string :=
  extractCommandCandidate (sourceTextOf input).

(** [(tokens[0] || '').toLowerCase()] *)
Definition toolNameOf (command0 : string) : string :=
  Js.toLowerCase (default "" (head (tokenizeCommand command0))).

Definition approvalMessage (toolName0 requestId0 : string) : string :=
  "Tool execution requires approval for '" +:+ toolName0
    +:+ "'. Reply with /approve " +:+ requestId0 +:+ " or /deny "
    +:+ requestId0 +:+ ".".

Definition executeToolingTask (input : ToolExecutionInput) : M Os ToolExecutionResult :=
  let command0 := commandOf input in
  let validated := sanitizeCommand command0 in
  if negb (ok validated) then
    count "tooling_needs_input_count" [("runId", JStr (ti_runId input))] ;;;
    ret (mkToolResult needs_input
           (Js.orElse (orEmpty (reason validated))
              "Could not build an executable tool command.")
           None None None None)
  else
    let toolName0 := toolNameOf command0 in
    let toolId := toolIdFromName toolName0 in
    known <- getToolByName toolName0 ;;
    (if negb (bool_decide (is_Some known)) then
       upsertTool toolId toolName0 "runtime" (classifyTrust toolName0) tool_pending
         (JObj [("discoveredBy", JStr "harness_runtime"); ("runId", JStr (ti_runId input))])
     else ret tt) ;;;
    permitted <- hasActivePermission (ti_userId input) toolName0 "execute" ;;
    if negb permitted then
      uuid <- randomUUID ;;
      let requestId0 := "perm_" +:+ uuid in
      upsertPermission requestId0 (ti_userId input) toolName0 "execute" "tool" pending ;;;
      appendToolEvent toolId "approval_required"
        (JObj [("runId", JStr (ti_runId input)); ("userId", JStr (ti_userId input));
               ("command", JStr command0); ("requestId", JStr requestId0)]) ;;;
      count "tooling_approval_required_count"
        [("toolName", JStr toolName0); ("runId", JStr (ti_runId input))] ;;;
      ret (mkToolResult needs_approval (approvalMessage toolName0 requestId0)
             (Some requestId0) (Some toolName0) (Some command0) None)
    else
      upsertTool toolId toolName0 "runtime" (classifyTrust toolName0) approved
        (JObj [("executedBy", JStr (ti_userId input)); ("lastRunId", JStr (ti_runId input))]) ;;;
      appendToolEvent toolId "execute_start"
        (JObj [("runId", JStr (ti_runId input)); ("userId", JStr (ti_userId input));
               ("command", JStr command0)]) ;;;
      result <- executeCommand command0 (ti_workspacePath input) ;;
      if negb (fst result =? 0) then
        appendToolEvent toolId "execute_failed"
          (JObj [("runId", JStr (ti_runId input)); ("command", JStr command0);
                 ("output", JStr (snd result))]) ;;;
        count "tooling_failed_count"
          [("toolName", JStr toolName0); ("runId", JStr (ti_runId input))] ;;;
        ret (mkToolResult failed ("Tool command failed for '" +:+ toolName0 +:+ "'.")
               None (Some toolName0) (Some command0)
               (Some (Js.slice0 8000 (snd result))))
      else
        appendToolEvent toolId "execute_success"
          (JObj [("runId", JStr (ti_runId input)); ("command", JStr command0);
                 ("output", JStr (snd result))]) ;;;
        count "tooling_success_count"
          [("toolName", JStr toolName0); ("runId", JStr (ti_runId input))] ;;;
        ret (mkToolResult completed ("Tool command completed: " +:+ command0)
               None (Some toolName0) (Some command0)
               (Some (Js.slice0 8000 (snd result)))).

End ToolExecutor.

(* ===================================================================== *)
(** * Scenarios: concrete runs of the harness                             *)
(* ===================================================================== *)

Module Scenarios.
Import Types Store Eff Repository.
Local Open Scope eff_scope.

(** A fresh store whose clock reads 1, 2, 3, ... *)
Definition freshWorld {X} (x : X) : World X :=
  mkWorld x emptyDb (fun n => Z.of_nat (S n)) 0.

Definition runOf (runId senderId : string) : CreateTaskRunInput :=
  mkCreateTaskRun runId ("task_" +:+ runId) "whatsapp" "Ada" (Some senderId) None None
    "book a table" low in_progress (Some "default") 0 1.

Definition blockOn (runId : string) : M unit unit :=
  updateTaskRun runId (mkPatch (Some needs_input) None (Some "Which day?") None).

(** 201 runs of one sender, each created and then left waiting for input. *)
Definition floodWorld : World unit :=
  after (forEach (fun i => let id := "run_" +:+ pretty i in
                           createTaskRun (runOf id "u1") ;;; blockOn id)
           (seq 0 201))
        (freshWorld tt).

(** Two runs of one sender on two agents: the second starts while the
    first is still in progress, and both end waiting for input. *)
Definition overlapWorld : World unit :=
  after (createTaskRun (runOf "run_a" "u1") ;;;
         createTaskRun (runOf "run_b" "u1") ;;;
         blockOn "run_b" ;;;
         blockOn "run_a")
        (freshWorld tt).

(** A user states a preference with emphasis, then a plain one. *)
Definition frenchWorld : World unit :=
  after (MemoryService.ingestMemorySignals "u1" "run_1"
           "I prefer that you always answer in French" "Noted.")
        (freshWorld tt).

Definition englishWorld : World unit :=
  after (MemoryService.ingestMemorySignals "u1" "run_2" "I prefer English" "Okay.")
        frenchWorld.

Definition preferenceId : string :=
  MemoryService.deterministicMemoryId "u1" "preferences" "preference".

(** A disk on which every write succeeds, and a response of 4001 code
    units on its way out. *)
Definition emptyDisk : QueueProcessor.Disk :=
  QueueProcessor.mkDisk ∅ (fun _ => false) [] [].

Definition longText : string := Js.str (repeat "a"%char 4001).

Definition longReply : M QueueProcessor.Disk QueueProcessor.ResponseData :=
  QueueProcessor.writeResponse "/home/ada/.tinyagi/files" "/home/ada/.tinyagi/queue/outgoing"
    "whatsapp" "Ada" (Some "u1") "tell me everything" "msg_1" "default" longText [].

(** An operating system on which every command prints a version and
    exits with 0, and a UUID source. *)
Definition quietOs : ToolExecutor.Os :=
  ToolExecutor.mkOs
    (fun n => "3f2b8c1e-0000-4000-8000-00000000000" +:+ pretty n) 0
    (fun _ => ToolExecutor.Closed (Some 0) ["10.2.4" +:+ Js.LF] [])
    [].

(** The user u1 after [permission grant u1 npm execute tool]. *)
Definition grantedWorld : World ToolExecutor.Os :=
  after (upsertPermission "perm_grant" "u1" "npm" "execute" "tool" active)
        (freshWorld quietOs).

Definition npmVersion : ToolExecutor.ToolExecutionInput :=
  ToolExecutor.mkToolInput "run_tool_1" "u1" "npm --version" None "/home/ada/work".

Definition shoutedNpm : ToolExecutor.ToolExecutionInput :=
  ToolExecutor.mkToolInput "run_tool_2" "u1" "NPM --version" None "/home/ada/work".

(** A model that answers in prose, and [JSON.parse] as far as that answer
    needs it: neither the answer nor a part of it is a JSON text. *)
Definition proseModel : string -> string -> M unit string :=
  fun _ _ => ret "Looks good to me.".

Definition noJson : string -> res JsValue :=
  fun _ => Throw "SyntaxError: Unexpected token L in JSON at position 0".

Definition parisContext : Orchestrator.VerifyContext :=
  Orchestrator.mkVerifyContext "run_1" "What is the capital of France?" low.

(** A verifier that asks for a small fix at every pass, and a revisor that
    complies. *)
Definition minorFix (runId : string) : VerificationVerdict :=
  mkVerdict runId "verifier" minor_fix ["tighten the wording"] [] [].

Definition stubbornCallbacks : LoopEngine.LoopCallbacks unit :=
  LoopEngine.mkCallbacks unit
    (ret (LoopEngine.mkGenerated "draft" None))
    (fun _ _ => ret (minorFix "run_1"))
    (fun output _ _ => ret (output +:+ ".")).

(** A clock that reads the given values in turn, then stays at [last]. *)
Definition clockOf (readings : list Z) (last : Z) : nat -> Z :=
  fun n => nth n readings last.

Definition telegramMessage : PendingStore.RememberInput :=
  PendingStore.mkRemember "m1" "telegram" "Ada" "42" (Some "chat42") None (Some 60000).

(** A telegram message remembered at time 1000 to expire at 61000; the
    whatsapp adapter cleans up at time 100000. *)
Definition staleTelegramWorld : World unit :=
  after (PendingStore.rememberPendingMessage telegramMessage)
        (mkWorld tt emptyDb (clockOf [1000; 1000] 100000) 0).

(** The same message; cleanups of its own channel at times 50000 and
    100000. *)
Definition twoCleanupsWorld : World unit :=
  after (PendingStore.rememberPendingMessage telegramMessage)
        (mkWorld tt emptyDb (clockOf [1000; 1000; 50000] 100000) 0).

End Scenarios.

(* ===================================================================== *)
(** * SQL string literals ([q] of [harness/repository.ts])                *)
(* ===================================================================== *)

Module Sql.

(** [value.replace(/'/g, "''")] *)
Fixpoint doubleQuotes (l : list ascii) : list ascii :=
  match l with
  | [] => []
  | c :: tl =>
      if Ascii.eqb c "'" then "'"%char :: "'"%char :: doubleQuotes tl
      else c :: doubleQuotes tl
  end.

(** [q(value)]: the value between single quotes, its quotes doubled. *)
Definition q (value : string) : string :=
  Js.str ("'"%char :: doubleQuotes (Js.chars value) ++ ["'"%char]).

(** How SQLite reads the body of a string literal, after the opening
    quote: two quotes in a row stand for one, a lone quote ends the
    literal.  The result is the value read and the text that follows;
    [None] when the literal is not closed. *)
Fixpoint readBody (l : list ascii) : option (list ascii * list ascii) :=
  match l with
  | [] => None
  | c :: tl =>
      if Ascii.eqb c "'" then
        match tl with
        | c2 :: tl2 =>
            if Ascii.eqb c2 "'" then
              match readBody tl2 with
              | Some (v, r) => Some ("'"%char :: v, r)
              | None => None
              end
            else Some ([], tl)
        | [] => Some ([], [])
        end
      else
        match readBody tl with
        | Some (v, r) => Some (c :: v, r)
        | None => None
        end
  end.

Definition readLiteral (l : list ascii) : option (string * list ascii) :=
  match l with
  | c :: tl =>
      if Ascii.eqb c "'" then
        match readBody tl with
        | Some (v, r) => Some (Js.str v, r)
        | None => None
        end
      else None
  | [] => None
  end.

End Sql.

(* ===================================================================== *)
(** * The risk classifier ([harness/runtime/risk-classifier.ts])          *)
(* ===================================================================== *)

Module RiskClassifier.
Import Types.

Record RiskClassification : Type := mkRiskClassification {
  rc_risk : RiskLevel;
  rc_critical : bool;
  rc_reasons : list string
}.

Record RiskPattern : Type := mkPattern {
  regex : Regex.re;
  level : RiskLevel;
  reason : string
}.

(** [/\b(p1|p2|...)\b/i] *)
Definition anyWord (phrases : list string) : Regex.re :=
  Regex.Seq Regex.WordB
    (Regex.Seq (Regex.Grp 1 (Regex.alts (map Regex.litI phrases))) Regex.WordB).

Definition PATTERNS : list RiskPattern :=
  [mkPattern
     (anyWord ["refactor"; "edit"; "patch"; "fix"; "implement"; "write code";
               "change code"; "commit"; "pull request"; "migration"])
     critical "Code change request detected";
   mkPattern
     (anyWord ["install"; "npm i"; "pip install"; "brew install";
               "download executable"; "script install"; "new tool"])
     critical "Tool install/execution change detected";
   mkPattern
     (anyWord ["delete"; "drop"; "remove permanently"; "irreversible"; "transfer";
               "wallet"; "checkout"; "pay"; "payment"; "purchase"; "wire"])
     critical "Irreversible or payment action detected";
   mkPattern
     (anyWord ["contract"; "commitment"; "promise"; "deadline"; "send to client";
               "customer communication"; "legal"])
     high "External commitment detected";
   mkPattern
     (anyWord ["fact"; "research"; "latest"; "today"; "financial"; "medical";
               "legal"; "security"])
     high "High-impact factual domain detected";
   mkPattern
     (anyWord ["browse"; "browser"; "chrome"; "website"; "login"; "account"])
     medium "Browser/system action detected"].

Definition rank (l : RiskLevel) : Z :=
  match l with
  | low => 0
  | medium => 1
  | high => 2
  | critical => 3
  end.

(** One pass of the [for (const pattern of PATTERNS)] loop over the pair
    [(risk, reasons)]. *)
Definition classifyStep (objective : string) (acc : RiskLevel * list string)
  (pattern : RiskPattern) : RiskLevel * list string :=
  if Regex.test (regex pattern) objective then
    (if rank (fst acc) <? rank (level pattern) then level pattern else fst acc,
     snd acc ++ [reason pattern])
  else acc.

Definition classifyRisk (objective : string) : RiskClassification :=
  let scanned := foldl (classifyStep objective) (low, []) PATTERNS in
  let risk := fst scanned in
  let reasons :=
    if Nat.eqb (length (snd scanned)) 0
    then snd scanned ++ ["No high-risk keywords detected"]
    else snd scanned in
  mkRiskClassification risk
    (bool_decide (risk = critical) || bool_decide (risk = high)) reasons.

Definition loopBudgetForRisk (risk : RiskLevel) : Z :=
  if bool_decide (risk = critical) || bool_decide (risk = high) then 5
  else if bool_decide (risk = medium) then 3
  else 1.

(** The patterns of a table that an objective matches, in table order. *)
Definition hits (objective : string) (ps : list RiskPattern) : list RiskPattern :=
  List.filter (fun p => Regex.test (regex p) objective) ps.

End RiskClassifier.

(* ===================================================================== *)
(** * Run identifiers ([safeId] of [harness/runtime/orchestrator.ts])     *)
(* ===================================================================== *)

Module RunIds.

(** The class [[a-zA-Z0-9_-]]. *)
Definition isIdChar (c : ascii) : bool :=
  Js.between 97 122 c || Js.between 65 90 c || Js.isDigit c
  || Ascii.eqb c "_" || Ascii.eqb c "-".

(** [value.replace(/[^a-zA-Z0-9_-]/g, '_').slice(0, 80)] *)
Definition safeId (value : string) : string :=
  Js.slice0 80
    (Js.str (map (fun c => if isIdChar c then c else "_"%char) (Js.chars value))).

End RunIds.

(* ===================================================================== *)
(** * The tool registry service (after the executor in [executor.ts])    *)
(* ===================================================================== *)

Module ToolService.
Import Types Store Eff Repository.
Local Open Scope eff_scope.

(** [/(github\.com|npmjs\.com|pypi\.org|homebrew\.sh|playwright\.dev|openai\.com)/]
    and [/(internal|local|curated)/] on the lower-cased source. *)
Definition classifyTrust (source0 : string) : TrustClass :=
  let normalized := Js.toLowerCase source0 in
  if Regex.test
       (Regex.Grp 1 (Regex.alts (map Regex.lit
          ["github.com"; "npmjs.com"; "pypi.org"; "homebrew.sh"; "playwright.dev";
           "openai.com"]))) normalized
  then mainstream
  else if Regex.test
            (Regex.Grp 1 (Regex.alts (map Regex.lit ["internal"; "local"; "curated"])))
            normalized
  then curated
  else unknown.

(** The three commands build the tool id with the expression of
    [toolIdFromName]. *)
Definition registerTool {X} (name0 source0 : string) : M X string :=
  let toolId := ToolExecutor.toolIdFromName name0 in
  upsertTool toolId name0 source0 (classifyTrust source0) tool_pending
    (JObj [("reproducibility", JStr "unknown"); ("license", JStr "unknown")]) ;;;
  ret toolId.

Definition approveTool (name0 userId : string) : M ToolExecutor.Os string :=
  let toolId := ToolExecutor.toolIdFromName name0 in
  upsertTool toolId name0 "manual" curated approved
    (JObj [("approvedBy", JStr userId)]) ;;;
  uuid <- ToolExecutor.randomUUID ;;
  upsertPermission ("perm_" +:+ uuid) userId name0 "execute" "tool" active ;;;
  ret ("Tool " +:+ name0 +:+ " approved for " +:+ userId +:+ ".").

Definition blockTool (name0 userId : string) : M ToolExecutor.Os string :=
  let toolId := ToolExecutor.toolIdFromName name0 in
  upsertTool toolId name0 "manual" unknown blocked
    (JObj [("blockedBy", JStr userId)]) ;;;
  uuid <- ToolExecutor.randomUUID ;;
  upsertPermission ("perm_" +:+ uuid) userId name0 "execute" "tool" revoked ;;;
  ret ("Tool " +:+ name0 +:+ " blocked for " +:+ userId +:+ ".").

(** ['active' | 'missing'] *)
Definition toolPermissionStatus {X} (userId name0 : string) : M X string :=
  permitted <- hasActivePermission userId name0 "execute" ;;
  ret (if permitted : bool then "active" else "missing").

End ToolService.

(* ===================================================================== *)
(** * Reading the store ([harness/repository.ts])                         *)
(* ===================================================================== *)

Module Queries.
Import Types Store Eff Repository.
Local Open Scope eff_scope.

(** SELECT * FROM task_runs WHERE run_id = ? LIMIT 1 *)
Definition getTaskRun {X} (runId : string) : M X (option TaskRunRow) :=
  d <- getDb ;;
  ret (task_runs d !! runId).

(** SELECT * FROM permissions WHERE permission_id = ? LIMIT 1 *)
Definition getPermission {X} (permissionId : string) : M X (option PermissionRow) :=
  d <- getDb ;;
  ret (permissions d !! permissionId).

(** WHERE run_id = ? AND event_type = ? *)
Definition isEvent (runId eventType : string) (r : LogRow) : bool :=
  String.eqb (log_key r) runId && String.eqb (log_type r) eventType.

(** SELECT COUNT( * ) ...; [row?.count || 0] *)
Definition getTaskEventCount {X} (runId eventType : string) : M X Z :=
  d <- getDb ;;
  ret (Z.of_nat (length (List.filter (isEvent runId eventType) (task_events d)))).

(** MAX(created_at), NULL over no row. *)
Definition maxOf (l : list Z) : option Z :=
  match l with
  | [] => None
  | x :: tl => Some (foldl Z.max x tl)
  end.

(** SELECT MAX(created_at) as ts ...; [row?.ts || 0] *)
Definition getLastTaskEventAt {X} (runId eventType : string) : M X Z :=
  d <- getDb ;;
  ret (default 0
         (maxOf (map log_created_at
                   (List.filter (isEvent runId eventType) (task_events d))))).

(** SQLite's LIKE: [%] stands for any run of characters, [_] for any one
    character, and the letters A-Z match in either case. *)
Definition foldAscii (c : ascii) : ascii :=
  if Js.between 65 90 c then ascii_of_nat (Js.code c + 32) else c.

Fixpoint likeFrom (p : list ascii) : list ascii -> bool :=
  match p with
  | [] => fun t => match t with [] => true | _ :: _ => false end
  | c :: p' =>
      if Ascii.eqb c "%" then
        fix skip (t : list ascii) : bool :=
          likeFrom p' t || match t with [] => false | _ :: t' => skip t' end
      else if Ascii.eqb c "_" then
        fun t => match t with [] => false | _ :: t' => likeFrom p' t' end
      else
        fun t => match t with
                 | [] => false
                 | x :: t' => Ascii.eqb (foldAscii x) (foldAscii c) && likeFrom p' t'
                 end
  end.

(** [text LIKE pattern] *)
Definition sqlLike (text pattern : string) : bool :=
  likeFrom (Js.chars pattern) (Js.chars text).

(** WHERE user_id = ? *)
Definition ofUser (userId : string) (k : string) (r : MemoryRow) : bool :=
  String.eqb (user_id r) userId.

(** WHERE user_id = ? AND (key LIKE '%topic%' OR value LIKE '%topic%') *)
Definition aboutTopic (userId topic : string) (k : string) (r : MemoryRow) : bool :=
  String.eqb (user_id r) userId
  && (sqlLike (key r) ("%" +:+ topic +:+ "%") || sqlLike (value r) ("%" +:+ topic +:+ "%")).

(** ORDER BY updated_at DESC; rows with equal keys come in the order the
    engine enumerates them, which SQL leaves open. *)
Definition byUpdatedDesc (a b : string * MemoryRow) : Prop :=
  mem_updated_at (snd b) ≤ mem_updated_at (snd a).

#[global] Instance byUpdatedDesc_dec a b : Decision (byUpdatedDesc a b).
Proof. unfold byUpdatedDesc. apply _. Defined.

(** SELECT * FROM memory_records WHERE ... ORDER BY updated_at DESC LIMIT 200 *)
Definition listMemory {X} (userId topic : string) : M X (list (string * MemoryRow)) :=
  d <- getDb ;;
  let filter0 := if Js.truthy topic then aboutTopic userId topic else ofUser userId in
  ret (take 200 (merge_sort byUpdatedDesc (selectWhere filter0 (memory_records d)))).

(** The count of the matching records, then their DELETE. *)
Definition forgetMemory {X} (userId topic : string) : M X Z :=
  d <- getDb ;;
  let before := length (selectWhere (aboutTopic userId topic) (memory_records d)) in
  modifyDb (with_memory_records (deleteWhere (aboutTopic userId topic))) ;;;
  ret (Z.of_nat before).

End Queries.

(* ===================================================================== *)
(** * Memory commands ([harness/memory/service.ts])                       *)
(* ===================================================================== *)

Module MemoryCommands.
Import Types Store Eff Repository Queries.
Local Open Scope eff_scope.

Definition dq : string := Orchestrator.dq.

Definition forgetMemoryForUser {X} (userId topic : string) : M X string :=
  if negb (Js.truthy (Js.trim topic)) then ret "Please provide a topic to forget."
  else
    removed <- forgetMemory userId topic ;;
    ret (if 0 <? removed
         then "Forgot " +:+ pretty removed +:+ " memory record(s) matching "
                +:+ dq +:+ topic +:+ dq +:+ "."
         else "No memory records matched " +:+ dq +:+ topic +:+ dq +:+ ".").

(** [input.split(/[^a-z0-9]+/g)]: the pieces between the runs of other
    characters; a run at either end leaves an empty piece there. *)
Fixpoint splitWords (cur : list ascii) (inRun : bool) (l : list ascii) : list string :=
  match l with
  | [] => [Js.str (rev cur)]
  | c :: tl =>
      if ToolExecutor.isLowerAlnum c then splitWords (c :: cur) false tl
      else if inRun then splitWords cur true tl
      else Js.str (rev cur) :: splitWords [] true tl
  end.

Definition tokenizeObjective (input : string) : list string :=
  take 24
    (List.filter (fun token => Nat.leb 3 (Js.length token))
       (map Js.trim (splitWords [] false (Js.chars (Js.toLowerCase input))))).

End MemoryCommands.

(* ===================================================================== *)
(** * The audit trail of a loop run                                       *)
(* ===================================================================== *)

Module LoopAudit.
Import Types Store Eff.

(** A callback that writes neither task steps nor task events, as the
    model calls behind [generate], [verify] and [revise] do not. *)
Definition keepsLogs {X A} (m : M X A) : Prop :=
  forall w, task_steps (db (after m w)) = task_steps (db w)
            /\ task_events (db (after m w)) = task_events (db w).

Definition callbacksKeepLogs {X} (callbacks : LoopEngine.LoopCallbacks X) : Prop :=
  keepsLogs (LoopEngine.generate callbacks)
  /\ (forall o i, keepsLogs (LoopEngine.verify callbacks o i))
  /\ (forall o v i, keepsLogs (LoopEngine.revise callbacks o v i)).

(** The event that closes a run of the loop. *)
Definition closingEvent (runId : string) (r : LoopEngine.LoopResult) (t : Z) : LogRow :=
  mkLog runId
    (if LoopEngine.exhausted r then "loop_exhausted" else "loop_completed")
    (LoopEngine.loopEventJson (LoopEngine.loopsUsed r)
       (outcome (LoopEngine.verdict r)))
    t.

End LoopAudit.

(* ===================================================================== *)
(** * The row of a remembered message                                     *)
(* ===================================================================== *)

Module PendingRows.
Import Types Store Repository PendingStore.

(** The row [rememberPendingMessage] proposes when its two clock
    readings are [t0] and [t1]. *)
Definition rememberedRow (input : RememberInput) (t0 t1 : Z) : ChannelPendingMessageRow :=
  mkPending (r_channel input) (r_sender input) (r_senderId input)
    (Js.orElse (orEmpty (r_chatRef input)) (r_senderId input))
    (orEmpty (r_replyRef input))
    (t0 + Z.max 1 (ttlOrDefault (r_ttlMs input))) t1 t1.

End PendingRows.

(* ===================================================================== *)
(** * The proactive notifier ([harness/runtime/proactive-notifier.ts])    *)
(* ===================================================================== *)

Module ProactiveNotifier.
Import Types Store Eff Repository Queries.
Local Open Scope eff_scope.

Definition BLOCKED_OUTREACH_MIN_AGE_MS : Z := 10 * 60 * 1000.
Definition BLOCKED_OUTREACH_MIN_INTERVAL_MS : Z := 4 * 60 * 60 * 1000.
Definition BLOCKED_OUTREACH_MAX_ATTEMPTS : Z := 3.
Definition BLOCKED_OUTREACH_MAX_AGE_MS : Z := 24 * 60 * 60 * 1000.

(** [isQuietHours]: [start] and [end0] are the minutes of the day that
    [parseClock] reads from the settings, [current] the local minute of
    the day. *)
Definition isQuietHours (start end0 current : Z) : bool :=
  if start =? end0 then false
  else if start <? end0 then (start <=? current) && (current <? end0)
  else (start <=? current) || (current <? end0).

(** The argument of [queueProactiveMessage]. *)
Record ProactiveMessage : Type := mkProactive {
  pr_channel : string;
  pr_sender : string;
  pr_senderId : string;
  pr_text : string;
  pr_files : option (list string);
  pr_urgent : bool
}.

Definition statusName (s : RunStatus) : string :=
  match s with
  | queued => "queued" | in_progress => "in_progress" | needs_input => "needs_input"
  | needs_revision => "needs_revision" | verified => "verified"
  | rejected => "rejected" | awaiting_approval => "awaiting_approval"
  | sent => "sent" | failed => "failed"
  end.

Definition OUTREACH : string := "proactive_outreach".

Section Outreach.
Context {X : Type}.
(** [queueProactiveMessage] writes a file of the outgoing queue, or in
    quiet hours a line of the deferred file, and returns the path written
    or [deferred_quiet_hours]. *)
Variable queueProactiveMessage : ProactiveMessage -> M X string.
(** [buildBlockedOutreachText]: the text of the message, which is only
    handed on. *)
Variable buildBlockedOutreachText : BlockedRunRow -> string.

(** One pass of the [for (const run of blocked)] loop over the counters
    [(sent, deferred)]. *)
Definition outreachTo (run : BlockedRunRow) (acc : Z * Z) : M X (Z * Z) :=
  t <- now ;;
  let ageMs := t - b_updated_at run in
  if BLOCKED_OUTREACH_MAX_AGE_MS <? ageMs then ret acc
  else
    outreachCount <- getTaskEventCount (b_run_id run) OUTREACH ;;
    if BLOCKED_OUTREACH_MAX_ATTEMPTS <=? outreachCount then ret acc
    else
      lastOutreach <- getLastTaskEventAt (b_run_id run) OUTREACH ;;
      tooSoon <- (if 0 <? lastOutreach
                  then t2 <- now ;;
                       ret (t2 - lastOutreach <? BLOCKED_OUTREACH_MIN_INTERVAL_MS)
                  else ret false) ;;
      if tooSoon : bool then ret acc
      else
        let text := buildBlockedOutreachText run in
        result <- queueProactiveMessage
                    (mkProactive (b_channel run) (b_sender run) (b_sender_id run) text
                       None (bool_decide (b_status run = awaiting_approval))) ;;
        appendTaskEvent (b_run_id run) OUTREACH
          (JObj [("result", JStr result);
                 ("status", JStr (statusName (b_status run)));
                 ("attempt", JNum (outreachCount + 1))]) ;;;
        ret (if String.eqb result "deferred_quiet_hours"
             then (fst acc, snd acc + 1)
             else (fst acc + 1, snd acc)).

Fixpoint outreachAll (runs : list BlockedRunRow) (acc : Z * Z) : M X (Z * Z) :=
  match runs with
  | [] => ret acc
  | run :: tl => acc' <- outreachTo run acc ;; outreachAll tl acc'
  end.

(** [queueBlockedRunOutreach]: [(sent, deferred)] *)
Definition queueBlockedRunOutreach : M X (Z * Z) :=
  blocked <- listBlockedRunsForOutreach BLOCKED_OUTREACH_MIN_AGE_MS 200 ;;
  outreachAll blocked (0, 0).

End Outreach.

(** The outreach events the log holds for a run. *)
Definition outreachCount (runId : string) (d : Db) : Z :=
  Z.of_nat (length (List.filter (isEvent runId OUTREACH) (task_events d))).

End ProactiveNotifier.

(* ===================================================================== *)
(** * More worlds and inputs for the examples                             *)
(* ===================================================================== *)

Module Cases.
Import Types Store Eff Repository.
Local Open Scope eff_scope.

(** A verifier model that asks for a small fix in one JSON object, and
    [JSON.parse] as far as that answer needs it. *)
Definition fixText : string :=
  "{" +:+ Orchestrator.dq +:+ "outcome" +:+ Orchestrator.dq +:+ ":"
  +:+ Orchestrator.dq +:+ "minor_fix" +:+ Orchestrator.dq +:+ "}".

Definition fixModel : string -> string -> M unit string :=
  fun _ _ => ret (fixText +:+ Js.LF).

Definition fixJson : string -> res JsValue :=
  fun text => if String.eqb text fixText
              then Ok (JObj [("outcome", JStr "minor_fix")])
              else Throw "SyntaxError: Unexpected token in JSON".

(** The two blocked runs of [Scenarios.overlapWorld], looked at twelve
    minutes later. *)
Definition lateWorld : World unit :=
  mkWorld tt (db Scenarios.overlapWorld) (fun n => 720000 + Z.of_nat n) 0.

(** A proactive queue that writes a file outside the store and returns
    its path. *)
Definition fileQueue : ProactiveNotifier.ProactiveMessage -> M unit string :=
  fun _ => ret "/home/ada/.tinyagi/queue/outgoing/proactive_1.json".

Definition plainText : BlockedRunRow -> string :=
  fun run => "Still waiting on " +:+ b_run_id run.

(** The user u1 after [permission grant u1 git execute tool], and two
    spellings of one command: as it is, and with a token in quotes. *)
Definition gitWorld : World ToolExecutor.Os :=
  after (upsertPermission "perm_git" "u1" "git" "execute" "tool" active)
        (Scenarios.freshWorld Scenarios.quietOs).

Definition plainRm : ToolExecutor.ToolExecutionInput :=
  ToolExecutor.mkToolInput "run_tool_3" "u1" "git rm -rf x" None "/home/ada/work".

Definition quotedRm : ToolExecutor.ToolExecutionInput :=
  ToolExecutor.mkToolInput "run_tool_4" "u1" "git 'rm' -rf x" None "/home/ada/work".

(** A verifier answer with a finding that has a key [toString], and
    [JSON.parse] as far as that answer needs it. *)
Definition shadowText : string :=
  "{" +:+ Orchestrator.dq +:+ "outcome" +:+ Orchestrator.dq +:+ ":"
  +:+ Orchestrator.dq +:+ "critical_fail" +:+ Orchestrator.dq +:+ ","
  +:+ Orchestrator.dq +:+ "findings" +:+ Orchestrator.dq +:+ ":[{"
  +:+ Orchestrator.dq +:+ "toString" +:+ Orchestrator.dq +:+ ":1}]}".

Definition shadowModel : string -> string -> M unit string :=
  fun _ _ => ret shadowText.

Definition shadowJson : string -> res JsValue :=
  fun text => if String.eqb text shadowText
              then Ok (JObj [("outcome", JStr "critical_fail");
                             ("findings", JArr [JObj [("toString", JNum 1)]])])
              else Throw "SyntaxError: Unexpected token in JSON".

End Cases.

(* ===================================================================== *)
(** * Properties                                                          *)
(* ===================================================================== *)

(** ** Running effectful code *)

Section EffFacts.
Import Eff.
Context {X : Type}.

Lemma bind_ok {A B} (m : M X A) (f : A -> M X B) (w w' : World X) (b : B) :
  bind m f w = (Ok b, w') ->
  exists a w1, m w = (Ok a, w1) /\ f a w1 = (Ok b, w').
Proof.
  unfold bind. destruct (m w) as [[a|e] w1]; intros H.
  - exists a, w1. split; [reflexivity | exact H].
  - discriminate H.
Qed.

Lemma bind_run {A B} (m : M X A) (f : A -> M X B) (w w1 : World X) (a : A) :
  m w = (Ok a, w1) -> bind m f w = f a w1.
Proof. unfold bind. intros ->. reflexivity. Qed.

Lemma stamped_run (f : Z -> Store.Db -> Store.Db) (w : World X) :
  stamped f w
  = (Ok tt, mkWorld (ext w) (f (clock w (reads w)) (db w)) (clock w) (S (reads w))).
Proof. reflexivity. Qed.

End EffFacts.

(** ** The loop engine *)

Section LoopFacts.
Import Types Eff LoopEngine.
Context {X : Type}.
Variable runId : string.
Variable callbacks : LoopCallbacks X.
Variable maxLoops : Z.

(** Along the loop [iteration + remaining = maxLoops + 1]; whatever the
    callbacks do, a returned result used between [iteration] and
    [maxLoops] loops. *)
Lemma iterate_loopsUsed (remaining : nat) :
  forall (iteration : Z) (generated : Generated) (verdict0 : VerificationVerdict)
         (w w' : World X) (r : LoopResult),
    iteration + Z.of_nat remaining = maxLoops + 1 ->
    iterate runId callbacks maxLoops remaining iteration generated verdict0 w = (Ok r, w') ->
    iteration <= loopsUsed r + Z.of_nat (Nat.b2n (Nat.eqb remaining 0))
    /\ loopsUsed r <= maxLoops.
Proof.
  induction remaining as [|n IH]; intros iteration generated verdict0 w w' r Hinv Hrun.
  - simpl in Hrun. unfold ret in Hrun. inversion Hrun; subst; simpl. lia.
  - simpl in Hrun.
    destruct (bool_decide (outcome verdict0 = pass) || bool_decide (outcome verdict0 = abstain)).
    + unfold bind, Repository.appendTaskEvent in Hrun. rewrite stamped_run in Hrun.
      unfold ret in Hrun. inversion Hrun; subst; simpl. lia.
    + destruct (negb (isResolvable (outcome verdict0)) || (maxLoops <=? iteration)).
      * unfold bind, Repository.appendTaskEvent in Hrun. rewrite stamped_run in Hrun.
        unfold ret in Hrun. inversion Hrun; subst; simpl. lia.
      * apply bind_ok in Hrun as (revised & w1 & _ & Hrun).
        apply bind_ok in Hrun as (? & w2 & _ & Hrun).
        apply bind_ok in Hrun as (verdict' & w3 & _ & Hrun).
        apply bind_ok in Hrun as (? & w4 & _ & Hrun).
        apply IH in Hrun; [|lia].
        destruct Hrun as [Hlo Hhi]. split; [|exact Hhi].
        destruct n; simpl in *; lia.
Qed.

(** The loop ends: with callbacks that do not throw, every pass returns. *)
Lemma iterate_returns (remaining : nat) :
  (forall o i, returns (verify callbacks o i)) ->
  (forall o v i, returns (revise callbacks o v i)) ->
  forall (iteration : Z) (generated : Generated) (verdict0 : VerificationVerdict),
    returns (iterate runId callbacks maxLoops remaining iteration generated verdict0).
Proof.
  intros Hverify Hrevise.
  induction remaining as [|n IH]; intros iteration generated verdict0 w.
  - simpl. unfold ret. eauto.
  - simpl.
    destruct (bool_decide (outcome verdict0 = pass) || bool_decide (outcome verdict0 = abstain)).
    + unfold bind, Repository.appendTaskEvent. rewrite stamped_run. unfold ret. eauto.
    + destruct (negb (isResolvable (outcome verdict0)) || (maxLoops <=? iteration)).
      * unfold bind, Repository.appendTaskEvent. rewrite stamped_run. unfold ret. eauto.
      * destruct (Hrevise (g_output generated) verdict0 (iteration + 1) w)
          as (revised & w1 & Hr).
        rewrite (bind_run _ _ _ _ _ Hr).
        unfold Repository.appendTaskStep at 1.
        erewrite bind_run by apply stamped_run.
        match goal with
        | |- exists _ _, bind (verify callbacks ?o ?i) _ ?w2 = _ =>
            destruct (Hverify o i w2) as (verdict' & w3 & Hv)
        end.
        rewrite (bind_run _ _ _ _ _ Hv).
        unfold Repository.appendTaskStep at 1.
        erewrite bind_run by apply stamped_run.
        apply IH.
Qed.

End LoopFacts.

Section LoopTotal.
Import Types Eff LoopEngine.
Context {X : Type}.

Lemma runGeneratorVerifierRevisorLoop_returns (runId : string) (risk : RiskLevel)
  (callbacks : LoopCallbacks X) :
  returns (generate callbacks) ->
  (forall o i, returns (verify callbacks o i)) ->
  (forall o v i, returns (revise callbacks o v i)) ->
  returns (runGeneratorVerifierRevisorLoop runId risk callbacks).
Proof.
  intros Hgenerate Hverify Hrevise w. unfold runGeneratorVerifierRevisorLoop.
  destruct (Hgenerate w) as (g & w1 & Hg).
  rewrite (bind_run _ _ _ _ _ Hg).
  unfold Repository.appendTaskStep at 1.
  erewrite bind_run by apply stamped_run.
  match goal with
  | |- exists _ _, bind (verify callbacks ?o ?i) _ ?w2 = _ =>
      destruct (Hverify o i w2) as (v & w3 & Hv)
  end.
  rewrite (bind_run _ _ _ _ _ Hv).
  unfold Repository.appendTaskStep at 1.
  erewrite bind_run by apply stamped_run.
  apply iterate_returns; assumption.
Qed.

End LoopTotal.

Section LoopBudget.
Import Types Eff LoopEngine.

Lemma budgetForRisk_values (risk : RiskLevel) :
  budgetForRisk risk = match risk with
                       | low => 1 | medium => 3 | high => 5 | critical => 5
                       end.
Proof. destruct risk; reflexivity. Qed.

(** C2. The iteration budget is 1 for a low, 3 for a medium and 5 for a
    high or critical risk level, and the [loopsUsed] of every result the
    loop returns lies between 1 and that budget, whatever the callbacks
    do. *)
Theorem C2_loop_budget :
  budgetForRisk low = 1 /\ budgetForRisk medium = 3
  /\ budgetForRisk high = 5 /\ budgetForRisk critical = 5
  /\ forall (X : Type) (runId : string) (risk : RiskLevel) (callbacks : LoopCallbacks X)
            (w w' : World X) (r : LoopResult),
       runGeneratorVerifierRevisorLoop runId risk callbacks w = (Ok r, w') ->
       1 <= loopsUsed r <= budgetForRisk risk.
Proof.
  split; [reflexivity|]. split; [reflexivity|]. split; [reflexivity|].
  split; [reflexivity|].
  intros X runId risk callbacks w w' r Hrun.
  unfold runGeneratorVerifierRevisorLoop in Hrun.
  apply bind_ok in Hrun as (g & w1 & _ & Hrun).
  apply bind_ok in Hrun as (? & w2 & _ & Hrun).
  apply bind_ok in Hrun as (v & w3 & _ & Hrun).
  apply bind_ok in Hrun as (? & w4 & _ & Hrun).
  apply iterate_loopsUsed in Hrun; [|destruct risk; reflexivity].
  destruct Hrun as [Hlo Hhi]. split; [|exact Hhi].
  destruct risk; simpl in Hlo; lia.
Qed.

(** A verifier that keeps asking for fixes uses the whole budget and no
    more: five passes at high risk, three at medium, one at low. *)
Example loop_stops_at_budget :
  map (fun risk =>
         match outcomeOf (runGeneratorVerifierRevisorLoop "run_1" risk
                            Scenarios.stubbornCallbacks) (Scenarios.freshWorld tt) with
         | Ok r => Some (loopsUsed r, exhausted r, output r)
         | Throw _ => None
         end)
      [low; medium; high; critical]
  = [Some (1, true, "draft"); Some (3, true, "draft..");
     Some (5, true, "draft...."); Some (5, true, "draft....")].
Proof. vm_compute. reflexivity. Qed.

End LoopBudget.

(** ** SELECT, ORDER BY and LIMIT over a keyed table *)

Section StoreFacts.
Import Store.
Context {V : Type}.

Lemma elem_of_selectWhere (p : string -> V -> bool) (m : gmap string V) (k : string) (v : V) :
  (k, v) ∈ selectWhere p m <-> m !! k = Some v /\ p k v = true.
Proof.
  unfold selectWhere. rewrite list_elem_of_In, filter_In, <- list_elem_of_In.
  rewrite elem_of_map_to_list. reflexivity.
Qed.

Lemma NoDup_fst_filter (f : string * V -> bool) (l : list (string * V)) :
  NoDup l.*1 -> NoDup (List.filter f l).*1.
Proof.
  induction l as [|[k v] l IH]; simpl; intros Hnd; [constructor|].
  apply NoDup_cons in Hnd as [Hk Hnd].
  destruct (f (k, v)); simpl; [|auto].
  apply NoDup_cons. split; [|auto].
  intros Hin. apply Hk.
  apply list_elem_of_fmap in Hin as [[k' v'] [-> Hin]].
  apply list_elem_of_In, filter_In in Hin as [Hin _].
  apply list_elem_of_fmap. exists (k', v'). split; [reflexivity|].
  apply list_elem_of_In. exact Hin.
Qed.

Lemma NoDup_fst_selectWhere (p : string -> V -> bool) (m : gmap string V) :
  NoDup (selectWhere p m).*1.
Proof. apply NoDup_fst_filter, NoDup_fst_map_to_list. Qed.

Lemma selectWhere_nil (p : string -> V -> bool) (m : gmap string V) :
  selectWhere p m = [] <-> forall k v, m !! k = Some v -> p k v = false.
Proof.
  split.
  - intros Hnil k v Hk. destruct (p k v) eqn:Hp; [|reflexivity].
    assert (Hin : (k, v) ∈ selectWhere p m) by (apply elem_of_selectWhere; auto).
    rewrite Hnil in Hin. inversion Hin.
  - intros Hall. destruct (selectWhere p m) as [|[k v] l] eqn:Hsel; [reflexivity|].
    assert (Hin : (k, v) ∈ selectWhere p m) by (rewrite Hsel; left).
    apply elem_of_selectWhere in Hin as [Hk Hp]. rewrite (Hall k v Hk) in Hp. discriminate.
Qed.

Lemma lookup_deleteWhere (p : string -> V -> bool) (m : gmap string V) (k : string) :
  deleteWhere p m !! k
  = match m !! k with
    | Some v => if p k v then None else Some v
    | None => None
    end.
Proof.
  unfold deleteWhere. destruct (m !! k) as [v|] eqn:Hk.
  - destruct (p k v) eqn:Hp.
    + apply map_lookup_filter_None. right. intros x Hx. simpl.
      rewrite Hk in Hx. inversion Hx; subst. rewrite Hp. discriminate.
    + apply map_lookup_filter_Some. split; [exact Hk | exact Hp].
  - apply map_lookup_filter_None. left. exact Hk.
Qed.

End StoreFacts.

Section TaskRunFacts.
Import Types Store Eff Repository.

#[local] Instance byUpdatedAt_trans : Transitive byUpdatedAt.
Proof. intros a b c. unfold byUpdatedAt. lia. Qed.

#[local] Instance byUpdatedAt_total : Total byUpdatedAt.
Proof. intros a b. unfold byUpdatedAt. lia. Qed.

Lemma orderByUpdatedAt_perm (l : list (string * TaskRunRow)) : orderByUpdatedAt l ≡ₚ l.
Proof. apply merge_sort_Permutation. Qed.

Lemma orderByUpdatedAt_sorted (l : list (string * TaskRunRow)) :
  StronglySorted byUpdatedAt (orderByUpdatedAt l).
Proof. apply StronglySorted_merge_sort; apply _. Qed.

(** The first [n] rows of an ORDER BY: a part of the rows, without
    repetition, all of them when there are at most [n], and otherwise [n]
    rows none of which is more recent than a row left out. *)
Lemma limit_NoDup (n : nat) (l : list (string * TaskRunRow)) :
  NoDup l.*1 -> NoDup (take n (orderByUpdatedAt l)).*1.
Proof.
  intros Hnd. rewrite fmap_take.
  apply (sublist_NoDup _ (orderByUpdatedAt l).*1); [|apply sublist_take].
  rewrite (orderByUpdatedAt_perm l). exact Hnd.
Qed.

Lemma limit_subset (n : nat) (l : list (string * TaskRunRow)) kv :
  kv ∈ take n (orderByUpdatedAt l) -> kv ∈ l.
Proof.
  intros Hin. rewrite <- (orderByUpdatedAt_perm l).
  apply elem_of_take in Hin as (i & Hi & _). apply list_elem_of_lookup. eauto.
Qed.

Lemma limit_all (n : nat) (l : list (string * TaskRunRow)) kv :
  (length l <= n)%nat -> kv ∈ l -> kv ∈ take n (orderByUpdatedAt l).
Proof.
  intros Hlen Hin. rewrite take_ge.
  - rewrite (orderByUpdatedAt_perm l). exact Hin.
  - rewrite (orderByUpdatedAt_perm l). exact Hlen.
Qed.

Lemma limit_full (n : nat) (l : list (string * TaskRunRow)) kv' :
  kv' ∈ l -> kv' ∉ take n (orderByUpdatedAt l) ->
  kv' ∈ drop n (orderByUpdatedAt l) /\ length (take n (orderByUpdatedAt l)) = n.
Proof.
  intros Hin' Hout.
  rewrite <- (orderByUpdatedAt_perm l) in Hin'.
  rewrite <- (take_drop n (orderByUpdatedAt l)) in Hin'.
  apply elem_of_app in Hin' as [Hin'|Hin']; [contradiction|].
  split; [exact Hin'|].
  apply length_take_le.
  destruct (decide (n <= length (orderByUpdatedAt l))%nat) as [Hle|Hgt]; [exact Hle|].
  rewrite drop_ge in Hin' by lia. inversion Hin'.
Qed.

Lemma limit_oldest (n : nat) (l : list (string * TaskRunRow)) kv kv' :
  kv ∈ take n (orderByUpdatedAt l) -> kv' ∈ l -> kv' ∉ take n (orderByUpdatedAt l) ->
  updated_at (snd kv) <= updated_at (snd kv').
Proof.
  intros Hin Hin' Hout.
  destruct (limit_full n l kv' Hin' Hout) as [Hdrop _].
  pose proof (orderByUpdatedAt_sorted l) as Hs.
  rewrite <- (take_drop n (orderByUpdatedAt l)) in Hs.
  exact (StronglySorted_app_1_elem_of _ _ _ _ _ Hs Hin Hdrop).
Qed.

Lemma supersedable_spec (channel0 senderId : string) (beforeTs : Z) (k : string)
  (r : TaskRunRow) :
  supersedable channel0 senderId beforeTs k r = true
  <-> channel r = channel0 /\ sender_id r = senderId
      /\ status r = needs_input /\ updated_at r < beforeTs.
Proof.
  unfold supersedable. rewrite !andb_true_iff, !String.eqb_eq, bool_decide_eq_true, Z.ltb_lt.
  tauto.
Qed.

Lemma rejectRow_idem (t : Z) (r : TaskRunRow) : rejectRow t (rejectRow t r) = rejectRow t r.
Proof. reflexivity. Qed.

Lemma lookup_rejectAll (t : Z) (ids : list string) :
  forall (m : gmap string TaskRunRow) (id : string),
    rejectAll t ids m !! id
    = if decide (id ∈ ids) then rejectRow t <$> m !! id else m !! id.
Proof.
  induction ids as [|a ids IH]; intros m id.
  - simpl. destruct (decide (id ∈ [])) as [Hin|_]; [inversion Hin | reflexivity].
  - unfold rejectAll in *. simpl. rewrite IH. rewrite lookup_alter.
    destruct (decide (a = id)) as [->|Hne].
    + destruct (decide (id ∈ id :: ids)) as [_|Hout]; [|exfalso; apply Hout; left].
      destruct (decide (id ∈ ids)); [|reflexivity].
      destruct (m !! id); reflexivity.
    + destruct (decide (id ∈ ids)) as [Hin|Hout].
      * destruct (decide (id ∈ a :: ids)) as [_|Hout]; [reflexivity|].
        exfalso. apply Hout. right. exact Hin.
      * destruct (decide (id ∈ a :: ids)) as [Hin|_]; [|reflexivity].
        apply elem_of_cons in Hin as [->|Hin]; contradiction.
Qed.

(** What a call with a sender does: the selected ids are returned and
    exactly their rows are rewritten, stamped with the next clock reading. *)
Lemma supersede_run {X : Type} (channel0 senderId : string) (beforeTs : Z) (w : World X) :
  senderId <> "" ->
  let ids := map fst (selectSupersedable channel0 senderId beforeTs (task_runs (db w))) in
  exists w',
    supersedeNeedsInputRuns channel0 senderId beforeTs w = (Ok ids, w')
    /\ task_runs (db w') = rejectAll (clock w (reads w)) ids (task_runs (db w)).
Proof.
  intros Hs ids. unfold supersedeNeedsInputRuns.
  destruct senderId as [|c s]; [contradiction|].
  change (negb (Js.truthy (String c s))) with false. cbv iota.
  unfold bind, getDb. cbv beta iota. fold ids.
  destruct (selectSupersedable channel0 (String c s) beforeTs (task_runs (db w)))
    as [|kv rows] eqn:Hsel.
  - exists w. split; reflexivity.
  - change (length (kv :: rows) =? 0)%nat with false. cbv iota.
    unfold now, modifyDb, ret. cbv beta iota.
    eexists. split; reflexivity.
Qed.

End TaskRunFacts.

Section Supersession.
Import Types Store Eff Repository.

(** C10. With an empty senderId the call returns the empty list and the
    world it was given: no row of the store is touched, the clock is not
    even read. *)
Theorem C10_supersede_empty_sender_is_noop :
  forall (X : Type) (channel0 : string) (beforeTs : Z) (w : World X),
    supersedeNeedsInputRuns channel0 "" beforeTs w = (Ok [], w).
Proof. intros X channel0 beforeTs w. reflexivity. Qed.

(** C4, amended.  For a non-empty senderId the call rejects the runs of
    that (channel, senderId) in status needs_input last updated before the
    cutoff, up to the 200 oldest, and returns exactly the ids of the runs it
    rejected: all qualifying runs when there are at most 200; no other row
    changes. *)
Theorem C4_supersede_rejects_oldest_200 :
  forall (X : Type) (channel0 senderId : string) (beforeTs : Z) (w : World X),
    senderId <> "" ->
    let qualifies (id : string) (r : TaskRunRow) :=
      task_runs (db w) !! id = Some r
      /\ channel r = channel0 /\ sender_id r = senderId
      /\ status r = needs_input /\ updated_at r < beforeTs in
    exists ids w',
      supersedeNeedsInputRuns channel0 senderId beforeTs w = (Ok ids, w')
      /\ NoDup ids /\ (length ids <= 200)%nat
      /\ (forall id, id ∈ ids ->
            exists r, qualifies id r
                      /\ task_runs (db w') !! id = Some (rejectRow (clock w (reads w)) r))
      /\ (forall id, id ∉ ids -> task_runs (db w') !! id = task_runs (db w) !! id)
      /\ (forall id r, qualifies id r -> id ∉ ids ->
            length ids = 200%nat
            /\ forall id' r', id' ∈ ids -> task_runs (db w) !! id' = Some r' ->
                 updated_at r' <= updated_at r)
      /\ ((length (selectWhere (supersedable channel0 senderId beforeTs) (task_runs (db w)))
           <= 200)%nat ->
          forall id r, qualifies id r -> id ∈ ids).
Proof.
  intros X channel0 senderId beforeTs w Hs qualifies.
  destruct (supersede_run channel0 senderId beforeTs w Hs) as (w' & Hrun & Hdb).
  set (m := task_runs (db w)) in *.
  set (sel := selectWhere (supersedable channel0 senderId beforeTs) m) in *.
  set (rows := selectSupersedable channel0 senderId beforeTs m) in *.
  assert (Hrows : rows = take 200 (orderByUpdatedAt sel)) by reflexivity.
  assert (Hnd : NoDup rows.*1).
  { rewrite Hrows. apply limit_NoDup, NoDup_fst_selectWhere. }
  assert (Hsub : forall kv, kv ∈ rows -> kv ∈ sel).
  { intros kv. rewrite Hrows. apply limit_subset. }
  assert (Hq : forall id r, (id, r) ∈ sel <-> qualifies id r).
  { intros id r. unfold sel, qualifies. rewrite elem_of_selectWhere, supersedable_spec.
    reflexivity. }
  assert (Hids : forall id, id ∈ map fst rows <-> exists r, (id, r) ∈ rows).
  { intros id. split.
    - intros Hin. apply list_elem_of_fmap in Hin as [[k r] [-> Hin]]. eauto.
    - intros [r Hin]. apply list_elem_of_fmap. exists (id, r). auto. }
  exists (map fst rows), w'. split; [exact Hrun|].
  split; [exact Hnd|].
  split; [rewrite length_map, Hrows, length_take; lia|].
  split; [|split; [|split]].
  - intros id Hin. apply Hids in Hin as [r Hin]. exists r.
    pose proof (proj1 (Hq id r) (Hsub _ Hin)) as Hqual. split; [exact Hqual|].
    rewrite Hdb, lookup_rejectAll.
    destruct (decide (id ∈ map fst rows)) as [_|Hout].
    + destruct Hqual as [-> _]. reflexivity.
    + exfalso. apply Hout. apply Hids. eauto.
  - intros id Hout. rewrite Hdb, lookup_rejectAll.
    destruct (decide (id ∈ map fst rows)); [contradiction | reflexivity].
  - intros id r Hqual Hout.
    assert (Hin' : (id, r) ∈ sel) by (apply Hq; exact Hqual).
    assert (Hout' : (id, r) ∉ take 200 (orderByUpdatedAt sel)).
    { rewrite <- Hrows. intros Hin. apply Hout. apply Hids. eauto. }
    split.
    + rewrite length_map, Hrows. exact (proj2 (limit_full 200 sel _ Hin' Hout')).
    + intros id' r' Hin Hlk. apply Hids in Hin as [r'' Hin].
      assert (r'' = r') as ->.
      { destruct (proj1 (Hq id' r'') (Hsub _ Hin)) as [Hlk' _].
        change (m !! id' = Some r') in Hlk. rewrite Hlk in Hlk'.
        inversion Hlk'. reflexivity. }
      rewrite Hrows in Hin.
      exact (limit_oldest 200 sel (id', r') (id, r) Hin Hin' Hout').
  - intros Hlen id r Hqual. apply Hids. exists r. rewrite Hrows.
    apply limit_all; [exact Hlen|]. apply Hq. exact Hqual.
Qed.

End Supersession.

Section Outreach.
Import Types Store Eff Repository.

Lemma hasNewerSibling_false (m : gmap string TaskRunRow) (k : string) (tr : TaskRunRow) :
  hasNewerSibling m k tr = false ->
  forall k' r', m !! k' = Some r' -> k' <> k ->
    channel r' = channel tr -> sender_id r' = sender_id tr ->
    created_at r' <= updated_at tr.
Proof.
  unfold hasNewerSibling. intros Hex k' r' Hlk Hne Hc Hs.
  destruct (Z.ltb (updated_at tr) (created_at r')) eqn:Hlt; [|apply Z.ltb_ge; exact Hlt].
  exfalso. apply not_true_iff_false in Hex. apply Hex.
  apply existsb_exists. exists (k', r'). split.
  - apply list_elem_of_In, elem_of_map_to_list. exact Hlk.
  - unfold isNewerSibling. simpl. rewrite Hlt, !andb_true_r.
    rewrite !andb_true_iff, !String.eqb_eq, negb_true_iff, String.eqb_neq. auto.
Qed.

Lemma blockedForOutreach_spec (m : gmap string TaskRunRow) (cutoff : Z) (k : string)
  (tr : TaskRunRow) :
  blockedForOutreach m cutoff k tr = true ->
  (status tr = needs_input \/ status tr = awaiting_approval)
  /\ sender_id tr <> ""
  /\ updated_at tr <= cutoff
  /\ hasNewerSibling m k tr = false.
Proof.
  unfold blockedForOutreach. rewrite !andb_true_iff, !negb_true_iff, String.eqb_neq, Z.leb_le.
  intros [[[Hst Hs] Hu] Hn]. repeat split; auto.
  destruct (status tr); simpl in Hst; try discriminate; auto.
Qed.

(** C5, amended.  The list holds, once each, only runs in status
    needs_input or awaiting_approval with a sender id, last updated at least
    minAge ago, for which no other run of the same (channel, senderId) was
    created after the run's last update.  Two listed runs of one (channel,
    senderId) are therefore runs whose lifetimes overlap: each was created
    no later than the other's last update. *)
Theorem C5_outreach_lists_runs_without_later_sibling :
  forall (X : Type) (minAgeMs limit : Z) (w : World X),
    exists rows w',
      listBlockedRunsForOutreach minAgeMs limit w = (Ok rows, w')
      /\ db w' = db w
      /\ NoDup (map b_run_id rows)
      /\ (forall b, b ∈ rows ->
            exists r, task_runs (db w) !! b_run_id b = Some r
              /\ b = toBlocked (b_run_id b, r)
              /\ (status r = needs_input \/ status r = awaiting_approval)
              /\ sender_id r <> ""
              /\ updated_at r <= clock w (reads w) - Z.max 0 minAgeMs
              /\ forall id' r', task_runs (db w) !! id' = Some r' -> id' <> b_run_id b ->
                   channel r' = channel r -> sender_id r' = sender_id r ->
                   created_at r' <= updated_at r)
      /\ (forall b1 b2, b1 ∈ rows -> b2 ∈ rows -> b_run_id b1 <> b_run_id b2 ->
            b_channel b1 = b_channel b2 -> b_sender_id b1 = b_sender_id b2 ->
            b_created_at b1 <= b_updated_at b2 /\ b_created_at b2 <= b_updated_at b1).
Proof.
  intros X minAgeMs limit w.
  set (m := task_runs (db w)).
  set (cutoff := clock w (reads w) - Z.max 0 minAgeMs).
  set (sel := selectBlockedRuns cutoff limit m).
  exists (map toBlocked sel), (mkWorld (ext w) (db w) (clock w) (S (reads w))).
  assert (Hrow : forall b, b ∈ map toBlocked sel ->
            exists r, m !! b_run_id b = Some r
              /\ b = toBlocked (b_run_id b, r)
              /\ (status r = needs_input \/ status r = awaiting_approval)
              /\ sender_id r <> ""
              /\ updated_at r <= cutoff
              /\ forall id' r', m !! id' = Some r' -> id' <> b_run_id b ->
                   channel r' = channel r -> sender_id r' = sender_id r ->
                   created_at r' <= updated_at r).
  { intros b Hb. apply list_elem_of_fmap in Hb as [[k r] [-> Hin]].
    apply limit_subset, elem_of_selectWhere in Hin as [Hlk Hp].
    apply blockedForOutreach_spec in Hp as (Hst & Hs & Hu & Hn).
    exists r. simpl. repeat split; auto.
    intros id' r' Hlk' Hne Hc Hs'. exact (hasNewerSibling_false m k r Hn id' r' Hlk' Hne Hc Hs'). }
  split; [reflexivity|]. split; [reflexivity|].
  split; [|split].
  - replace (map b_run_id (map toBlocked sel)) with (sel.*1).
    + apply limit_NoDup, NoDup_fst_selectWhere.
    + rewrite map_map. reflexivity.
  - exact Hrow.
  - intros b1 b2 H1 H2 Hne Hc Hs.
    destruct (Hrow b1 H1) as (r1 & Hl1 & E1 & _ & _ & _ & Hn1).
    destruct (Hrow b2 H2) as (r2 & Hl2 & E2 & _ & _ & _ & Hn2).
    assert (Hc' : channel r2 = channel r1).
    { rewrite E1, E2 in Hc. simpl in Hc. congruence. }
    assert (Hs' : sender_id r2 = sender_id r1).
    { rewrite E1, E2 in Hs. simpl in Hs. congruence. }
    pose proof (Hn1 _ _ Hl2 (not_eq_sym Hne) Hc' Hs') as Ha.
    pose proof (Hn2 _ _ Hl1 Hne (eq_sym Hc') (eq_sym Hs')) as Hb.
    rewrite E1, E2. simpl. split; assumption.
Qed.

End Outreach.

Section SupersessionExamples.
Import Types Store Eff Repository Scenarios.

(** C4, as stated, fails: of 201 qualifying runs the newest is neither
    rejected nor returned. *)
Lemma C4_counterexample_201_runs :
  (status <$> task_runs (db floodWorld) !! "run_200") = Some needs_input
  /\ (channel <$> task_runs (db floodWorld) !! "run_200") = Some "whatsapp"
  /\ (sender_id <$> task_runs (db floodWorld) !! "run_200") = Some "u1"
  /\ (updated_at <$> task_runs (db floodWorld) !! "run_200") = Some 402
  /\ 402 < 1000
  /\ (status <$> task_runs (db (after (supersedeNeedsInputRuns "whatsapp" "u1" 1000)
                                       floodWorld)) !! "run_200") = Some needs_input
  /\ match outcomeOf (supersedeNeedsInputRuns "whatsapp" "u1" 1000) floodWorld with
     | Ok ids => length ids = 200%nat /\ existsb (String.eqb "run_200") ids = false
     | Throw _ => False
     end.
Proof.
  split; [vm_compute; reflexivity|].
  split; [vm_compute; reflexivity|].
  split; [vm_compute; reflexivity|].
  split; [vm_compute; reflexivity|].
  split; [reflexivity|].
  split; [vm_compute; reflexivity|].
  vm_compute. split; reflexivity.
Qed.

(** The amended C4 at a concrete store: both waiting runs of the sender
    are rejected and returned. *)
Lemma C4_witness :
  exists ids w',
    supersedeNeedsInputRuns "whatsapp" "u1" 1000 overlapWorld = (Ok ids, w')
    /\ NoDup ids /\ (length ids <= 200)%nat.
Proof.
  destruct (C4_supersede_rejects_oldest_200 unit "whatsapp" "u1" 1000 overlapWorld)
    as (ids & w' & Hrun & Hnd & Hlen & _).
  - discriminate.
  - exists ids, w'. auto.
Defined.

(** C5, as stated, fails: two runs of the same (channel, senderId) are
    both listed. *)
Lemma C5_counterexample_overlapping_runs :
  match outcomeOf (listBlockedRunsForOutreach 0 100) overlapWorld with
  | Ok rows =>
      map (fun b => (b_run_id b, b_channel b, b_sender_id b, b_status b,
                     b_created_at b, b_updated_at b)) rows
      = [("run_b", "whatsapp", "u1", needs_input, 2, 3);
         ("run_a", "whatsapp", "u1", needs_input, 1, 4)]
  | Throw _ => False
  end.
Proof. vm_compute. reflexivity. Qed.

End SupersessionExamples.

(** ** Memory records *)

Section MemoryFacts.
Import Types Store Eff Repository MemoryService.
Context {X : Type}.

Lemma lookup_upsert {V : Type} (merge : V -> V -> V) (k k' : string) (v : V)
  (m : gmap string V) :
  upsert merge k v m !! k'
  = if decide (k = k')
    then Some (match m !! k with Some old => merge old v | None => v end)
    else m !! k'.
Proof.
  unfold upsert. destruct (m !! k) as [old|] eqn:Hk.
  - rewrite lookup_insert. destruct (decide (k = k')); reflexivity.
  - rewrite lookup_insert. destruct (decide (k = k')); reflexivity.
Qed.

Lemma forEach_upsert_run (rows : list MemoryInsertInput) :
  forall w : World X,
    exists w',
      forEach upsertMemoryRecord rows w = (Ok tt, w')
      /\ memory_records (db w') = upsertAll (clock w) (reads w) rows (memory_records (db w)).
Proof.
  induction rows as [|row tl IH]; intros w.
  - exists w. split; reflexivity.
  - simpl forEach. unfold bind at 1.
    unfold upsertMemoryRecord at 1. unfold bind at 1, now, modifyDb. cbv beta iota.
    destruct (IH (mkWorld (ext w)
                    (with_memory_records
                       (upsert mergeMemory (mi_recordId row)
                          (memoryRowOf (clock w (reads w)) row)) (db w))
                    (clock w) (S (reads w)))) as (w' & Hrun & Hm).
    exists w'. split; [exact Hrun|]. rewrite Hm. reflexivity.
Qed.

Lemma forEach_map {A B} (f : B -> M X unit) (g : A -> B) (l : list A) :
  forEach (fun a => f (g a)) l = forEach f (map g l).
Proof. induction l as [|a tl IH]; simpl; [reflexivity|]. rewrite IH. reflexivity. Qed.

Lemma upsertAll_frame (clock0 : nat -> Z) (rows : list MemoryInsertInput) (k : string) :
  (forall row, row ∈ rows -> mi_recordId row <> k) ->
  forall i m, upsertAll clock0 i rows m !! k = m !! k.
Proof.
  induction rows as [|row tl IH]; intros Hne i m; [reflexivity|].
  simpl. rewrite IH.
  - rewrite lookup_upsert. destruct (decide (mi_recordId row = k)) as [E|_]; [|reflexivity].
    exfalso. apply (Hne row); [left | exact E].
  - intros r Hr. apply Hne. right. exact Hr.
Qed.

(** The last upsert aimed at a record id decides its value and confidence. *)
Lemma upsertAll_last (clock0 : nat -> Z) (pre : list MemoryInsertInput) :
  forall (row : MemoryInsertInput) (post : list MemoryInsertInput) i m,
    (forall later, later ∈ post -> mi_recordId later <> mi_recordId row) ->
    exists r, upsertAll clock0 i (pre ++ row :: post) m !! mi_recordId row = Some r
              /\ value r = mi_value row /\ confidence r = mi_confidence row.
Proof.
  induction pre as [|a pre IH]; intros row post i m Hpost.
  - simpl. rewrite upsertAll_frame by exact Hpost.
    rewrite lookup_upsert. destruct (decide (mi_recordId row = mi_recordId row)); [|congruence].
    eexists. split; [reflexivity|].
    destruct (m !! mi_recordId row); simpl; auto.
  - simpl. apply IH. exact Hpost.
Qed.

Lemma keyed_unique (m : gmap string MemoryRow) :
  keyed m ->
  forall id1 id2 r1 r2, m !! id1 = Some r1 -> m !! id2 = Some r2 ->
    user_id r1 = user_id r2 -> category r1 = category r2 -> key r1 = key r2 ->
    id1 = id2 /\ r1 = r2.
Proof.
  intros Hk id1 id2 r1 r2 H1 H2 Hu Hc Hkey.
  assert (id1 = id2) as ->.
  { rewrite (Hk _ _ H1), (Hk _ _ H2), Hu, Hc, Hkey. reflexivity. }
  split; [reflexivity | congruence].
Qed.

Lemma upsertAll_keyed (clock0 : nat -> Z) (userId runId : string)
  (rows : list MemoryInsertInput) :
  forall i m, keyed m -> keyed (upsertAll clock0 i (map (stableInput userId runId) rows) m).
Proof.
  induction rows as [|row tl IH]; intros i m Hk; [exact Hk|].
  simpl. apply IH. intros id r. rewrite lookup_upsert.
  destruct (decide (_ = id)) as [<-|_]; [|apply Hk].
  destruct (m !! _) as [old|] eqn:Hold; intros Hr; inversion Hr; subst; simpl.
  - exact (Hk _ _ Hold).
  - reflexivity.
Qed.

End MemoryFacts.

Section MemoryIngest.
Import Types Store Eff Repository MemoryService Scenarios.

(** C6, amended.  Record ids are a deterministic hash of user, category and
    lower-cased key, and a store filled by ingests holds at most one record
    per (user, category, key).  When upserts target the same record the
    newer one wins: after an ingest the record holds the value and the
    confidence of the last row the ingest wrote to it, whatever confidence
    was stored before. *)
Theorem C6_memory_newer_ingest_wins :
  forall (X : Type) (userId runId objective0 responseText : string) (w : World X),
    let rows := map (stableInput userId runId)
                  (dedupRows (buildMemoryRowsFromText objective0
                              ++ buildMemoryRowsFromText responseText)) in
    exists n w',
      ingestMemorySignals userId runId objective0 responseText w = (Ok n, w')
      /\ n = Z.of_nat (length rows)
      /\ (forall row, row ∈ rows ->
            mi_recordId row
            = deterministicMemoryId userId (categoryName (mi_category row)) (mi_key row))
      /\ (keyed (memory_records (db w)) ->
          keyed (memory_records (db w'))
          /\ forall id1 id2 r1 r2,
               memory_records (db w') !! id1 = Some r1 ->
               memory_records (db w') !! id2 = Some r2 ->
               user_id r1 = user_id r2 -> category r1 = category r2 -> key r1 = key r2 ->
               id1 = id2 /\ r1 = r2)
      /\ (forall pre row post, rows = pre ++ row :: post ->
            (forall later, later ∈ post -> mi_recordId later <> mi_recordId row) ->
            exists r, memory_records (db w') !! mi_recordId row = Some r
                      /\ value r = mi_value row /\ confidence r = mi_confidence row).
Proof.
  intros X userId runId objective0 responseText w rows.
  set (raw := buildMemoryRowsFromText objective0 ++ buildMemoryRowsFromText responseText) in *.
  assert (Hids : forall row, row ∈ rows ->
            mi_recordId row
            = deterministicMemoryId userId (categoryName (mi_category row)) (mi_key row)).
  { intros row Hin. apply list_elem_of_fmap in Hin as [r0 [-> _]]. reflexivity. }
  unfold ingestMemorySignals. fold raw.
  destruct (Nat.eqb (length raw) 0) eqn:Hlen.
  - apply Nat.eqb_eq in Hlen. destruct raw; [|discriminate].
    exists 0, w. split; [reflexivity|]. split; [reflexivity|]. split; [exact Hids|].
    split.
    + intros Hk. split; [exact Hk | apply keyed_unique; exact Hk].
    + intros pre row post Hrows. destruct pre; discriminate Hrows.
  - rewrite forEach_map. fold rows.
    destruct (forEach_upsert_run rows w) as (w' & Hrun & Hm).
    exists (Z.of_nat (length (dedupRows raw))), w'.
    split; [unfold bind; rewrite Hrun; reflexivity|].
    split; [unfold rows; rewrite length_map; reflexivity|].
    split; [exact Hids|].
    split.
    + intros Hk.
      assert (Hk' : keyed (memory_records (db w'))).
      { rewrite Hm. apply upsertAll_keyed. exact Hk. }
      split; [exact Hk' | apply keyed_unique; exact Hk'].
    + intros pre row post Hrows Hpost. rewrite Hm, Hrows.
      apply upsertAll_last. exact Hpost.
Qed.

(** C6, as stated, fails: the stored preference of confidence 0.95 is
    replaced by a later ingest of confidence 0.85. *)
Lemma C6_counterexample_lower_confidence_replaces :
  (value <$> memory_records (db frenchWorld) !! preferenceId)
    = Some "that you always answer in French"
  /\ (confidence <$> memory_records (db frenchWorld) !! preferenceId) = Some (95 # 100)%Q
  /\ (value <$> memory_records (db englishWorld) !! preferenceId) = Some "English"
  /\ (confidence <$> memory_records (db englishWorld) !! preferenceId) = Some (85 # 100)%Q
  /\ (85 # 100 < 95 # 100)%Q.
Proof.
  split; [vm_compute; reflexivity|].
  split; [vm_compute; reflexivity|].
  split; [vm_compute; reflexivity|].
  split; [vm_compute; reflexivity|].
  reflexivity.
Qed.

End MemoryIngest.

(** ** Durable pending messages *)

Section PendingFacts.
Import Types Store Eff Repository PendingStore.
Context {X : Type}.

Lemma expiredIn_spec (channel0 : string) (cutoff : Z) (k : string)
  (r : ChannelPendingMessageRow) :
  expiredIn channel0 cutoff k r = true
  <-> expires_at r <= cutoff /\ (channel0 = "" \/ pm_channel r = channel0).
Proof.
  unfold expiredIn. rewrite andb_true_iff, Z.leb_le.
  destruct channel0 as [|c s]; simpl.
  - intuition.
  - rewrite String.eqb_eq. intuition discriminate.
Qed.

Lemma incrementMetric_run (metricName : string) (delta : Z) (meta : JsValue) (w : World X) :
  exists v w',
    incrementMetric metricName delta meta w = (Ok v, w')
    /\ channel_pending_messages (db w') = channel_pending_messages (db w)
    /\ clock w' = clock w /\ reads w' = S (S (reads w)).
Proof.
  unfold incrementMetric, bind, getDb, now, modifyDb, ret. cbv beta iota zeta.
  eexists _, _. split; [reflexivity|]. simpl. auto.
Qed.

(** A cleanup at clock reading [t] counts and deletes the rows of the
    channel that expired by [t]; the metric it may bump leaves the pending
    table alone. *)
Lemma cleanup_run (channel0 : string) (w : World X) :
  let t := clock w (reads w) in
  let pend := channel_pending_messages (db w) in
  exists w',
    cleanupExpiredPendingMessages channel0 w
    = (Ok (Z.of_nat (length (selectWhere (expiredIn channel0 t) pend))), w')
    /\ channel_pending_messages (db w') = deleteWhere (expiredIn channel0 t) pend
    /\ clock w' = clock w /\ (reads w < reads w')%nat.
Proof.
  intros t pend. unfold cleanupExpiredPendingMessages, purgeExpiredChannelPendingMessages.
  unfold bind, now, getDb, modifyDb, ret. cbv beta iota zeta. cbn [ext db clock reads].
  replace (clock w (reads w) - Z.max 0 0) with t by (unfold t; lia).
  fold pend.
  set (n := Z.of_nat (length (selectWhere (expiredIn channel0 t) pend))).
  destruct (0 <? n).
  - match goal with |- context [incrementMetric ?a ?b ?c ?d] =>
      destruct (incrementMetric_run a b c d) as (v & w2 & Hrun & Hp & Hc & Hr) end.
    rewrite Hrun. exists w2.
    split; [reflexivity|]. rewrite Hp, Hc, Hr. simpl. repeat split; lia.
  - eexists. split; [reflexivity|]. simpl. repeat split; lia.
Qed.

Lemma read_expired (channel0 messageId : string) (row : ChannelPendingMessageRow)
  (w : World X) :
  channel_pending_messages (db w) !! messageId = Some row ->
  expires_at row <= clock w (reads w) ->
  exists w', readPendingMessage channel0 messageId w = (Ok None, w').
Proof.
  intros Hrow Hexp. unfold readPendingMessage, getChannelPendingMessage.
  unfold bind, getDb, ret. cbv beta iota zeta. rewrite Hrow.
  destruct (negb (String.eqb (pm_channel row) channel0)); [eexists; reflexivity|].
  unfold now. cbv beta iota zeta.
  apply Z.leb_le in Hexp. rewrite Hexp.
  unfold deleteChannelPendingMessage, modifyDb. cbv beta iota zeta.
  eexists. reflexivity.
Qed.

Lemma deleteWhere_none {V : Type} (p : string -> V -> bool) (m : gmap string V) :
  (forall k v, m !! k = Some v -> p k v = false) -> deleteWhere p m = m.
Proof.
  intros Hall. apply map_eq. intros k. rewrite lookup_deleteWhere.
  destruct (m !! k) as [v|] eqn:Hk; [|reflexivity].
  rewrite (Hall k v Hk). reflexivity.
Qed.

End PendingFacts.

Section PendingTtl.
Import Types Store Eff Repository PendingStore Scenarios.

(** C7, amended.  A pending row whose expires_at lies in the past is not
    returned by readPendingMessage, whatever the channel asked for; a
    cleanup called for the row's channel, or with an empty channel, purges
    it and counts it; and a second cleanup of the same channel removes
    nothing and returns 0 provided no row that outlived the first cleanup
    has expired by the second one's clock reading. *)
Theorem C7_pending_ttl_expiry :
  forall (X : Type) (w : World X) (messageId : string) (row : ChannelPendingMessageRow),
    channel_pending_messages (db w) !! messageId = Some row ->
    expires_at row < clock w (reads w) ->
    (forall channel0, exists w', readPendingMessage channel0 messageId w = (Ok None, w'))
    /\ (forall channel0, channel0 = pm_channel row \/ channel0 = "" ->
          exists n w1,
            cleanupExpiredPendingMessages channel0 w = (Ok n, w1)
            /\ 1 <= n
            /\ channel_pending_messages (db w1) !! messageId = None)
    /\ (forall channel0, exists n1 w1 n2 w2,
          cleanupExpiredPendingMessages channel0 w = (Ok n1, w1)
          /\ cleanupExpiredPendingMessages channel0 w1 = (Ok n2, w2)
          /\ ((forall id r, channel_pending_messages (db w) !! id = Some r ->
                 clock w (reads w) < expires_at r -> clock w1 (reads w1) < expires_at r) ->
              n2 = 0
              /\ channel_pending_messages (db w2) = channel_pending_messages (db w1))).
Proof.
  intros X w messageId row Hrow Hexp. split; [|split].
  - intros channel0. apply (read_expired channel0 messageId row w Hrow). lia.
  - intros channel0 Hch.
    destruct (cleanup_run channel0 w) as (w1 & Hrun & Hp & _).
    eexists _, w1. split; [exact Hrun|].
    assert (Hq : expiredIn channel0 (clock w (reads w)) messageId row = true).
    { apply expiredIn_spec. split; [lia|]. destruct Hch as [->| ->]; auto. }
    split.
    + assert (Hin : (messageId, row) ∈
                      selectWhere (expiredIn channel0 (clock w (reads w)))
                        (channel_pending_messages (db w))).
      { apply elem_of_selectWhere. auto. }
      destruct (selectWhere _ _); [inversion Hin | simpl; lia].
    + rewrite Hp, lookup_deleteWhere, Hrow, Hq. reflexivity.
  - intros channel0.
    destruct (cleanup_run channel0 w) as (w1 & Hrun1 & Hp1 & Hc1 & _).
    destruct (cleanup_run channel0 w1) as (w2 & Hrun2 & Hp2 & _).
    eexists _, w1, _, w2. split; [exact Hrun1|]. split; [exact Hrun2|].
    intros Hquiet.
    assert (Hnone : forall k v, channel_pending_messages (db w1) !! k = Some v ->
              expiredIn channel0 (clock w1 (reads w1)) k v = false).
    { intros k v. rewrite Hp1, lookup_deleteWhere.
      destruct (channel_pending_messages (db w) !! k) as [v0|] eqn:Hk; [|discriminate].
      destruct (expiredIn channel0 (clock w (reads w)) k v0) eqn:Hold; [discriminate|].
      intros Hv. inversion Hv; subst v0.
      apply not_true_iff_false. intros Hnew.
      apply expiredIn_spec in Hnew as [Hle Hch].
      apply not_true_iff_false in Hold. apply Hold. apply expiredIn_spec.
      split; [|exact Hch].
      destruct (Z_lt_le_dec (clock w (reads w)) (expires_at v)) as [Hlt|Hle']; [|exact Hle'].
      pose proof (Hquiet k v Hk Hlt). lia. }
    split.
    + apply (proj2 (selectWhere_nil _ _)) in Hnone. rewrite Hnone. reflexivity.
    + rewrite Hp2. apply deleteWhere_none. exact Hnone.
Qed.

(** C7, as stated, fails twice.  The next cleanup need not purge an
    expired row: the whatsapp adapter's cleanup leaves an expired telegram
    row in place.  And a second cleanup with no write in between may remove
    a row: the one that expired between the two clock readings. *)
Lemma C7_counterexample_channel_and_clock :
  ((expires_at <$> channel_pending_messages (db staleTelegramWorld) !! "m1") = Some 61000
   /\ clock staleTelegramWorld (reads staleTelegramWorld) = 100000
   /\ outcomeOf (cleanupExpiredPendingMessages "whatsapp") staleTelegramWorld = Ok 0
   /\ (expires_at <$> channel_pending_messages
         (db (after (cleanupExpiredPendingMessages "whatsapp") staleTelegramWorld)) !! "m1")
      = Some 61000)
  /\ (outcomeOf (cleanupExpiredPendingMessages "telegram") twoCleanupsWorld = Ok 0
      /\ outcomeOf (cleanupExpiredPendingMessages "telegram")
           (after (cleanupExpiredPendingMessages "telegram") twoCleanupsWorld) = Ok 1).
Proof.
  split.
  - split; [vm_compute; reflexivity|].
    split; [vm_compute; reflexivity|].
    split; [vm_compute; reflexivity|].
    vm_compute; reflexivity.
  - split; vm_compute; reflexivity.
Qed.

(** The amended C7 at the stale telegram row. *)
Lemma C7_witness :
  (forall channel0, exists w',
      readPendingMessage channel0 "m1" staleTelegramWorld = (Ok None, w'))
  /\ exists n w1,
       cleanupExpiredPendingMessages "telegram" staleTelegramWorld = (Ok n, w1)
       /\ 1 <= n /\ channel_pending_messages (db w1) !! "m1" = None.
Proof.
  destruct (C7_pending_ttl_expiry unit staleTelegramWorld "m1"
              (mkPending "telegram" "Ada" "42" "chat42" "" 61000 1000 1000))
    as (Hread & Hclean & _).
  - vm_compute. reflexivity.
  - vm_compute. reflexivity.
  - split; [exact Hread|]. apply Hclean. left. reflexivity.
Defined.

End PendingTtl.

(** ** Long-response spill *)

Section SpillFacts.
Import Types Eff QueueProcessor.

Lemma append_cons (x : ascii) (a b : string) : String x a +:+ b = String x (a +:+ b).
Proof. reflexivity. Qed.

Lemma length_append (a b : string) :
  String.length (a +:+ b) = (String.length a + String.length b)%nat.
Proof.
  induction a as [|c a IH]; [reflexivity|].
  rewrite append_cons. simpl. rewrite IH. reflexivity.
Qed.

Lemma append_assoc (a b c : string) : (a +:+ b) +:+ c = a +:+ (b +:+ c).
Proof.
  induction a as [|x a IH]; [reflexivity|].
  rewrite !append_cons, IH. reflexivity.
Qed.

Lemma length_takeStr (n : nat) :
  forall s : string, String.length (Js.takeStr n s) = Nat.min n (String.length s).
Proof.
  induction n as [|n IH]; intros s; [reflexivity|].
  destruct s as [|c s]; simpl; [reflexivity|]. rewrite IH. reflexivity.
Qed.

Lemma length_previewSuffix : String.length previewSuffix = 36%nat.
Proof. reflexivity. Qed.

(** What [handleLongResponse] returns for a long response, when it returns. *)
Lemma handleLongResponse_long (FILES_DIR response : string) (existingFiles : list string)
  (w w' : World Disk) (r : string * list string) :
  (LONG_RESPONSE_THRESHOLD < Js.length response)%nat ->
  handleLongResponse FILES_DIR response existingFiles w = (Ok r, w') ->
  let filePath := pathJoin FILES_DIR ("response_" +:+ pretty (clock w (reads w)) +:+ ".md") in
  r = (Js.takeStr LONG_RESPONSE_THRESHOLD response +:+ previewSuffix,
       existingFiles ++ [filePath])
  /\ contents (ext w') = <[filePath := response]> (contents (ext w))
  /\ outgoing (ext w') = outgoing (ext w)
  /\ readOnly (ext w') = readOnly (ext w).
Proof.
  intros Hlong Hrun filePath. unfold handleLongResponse in Hrun.
  apply Nat.leb_gt in Hlong. rewrite Hlong in Hrun.
  unfold writeFileSync, log in Hrun.
  unfold bind, now, getExt, modifyExt, ret, throw in Hrun.
  cbv beta iota zeta in Hrun. cbn [ext db clock reads] in Hrun. fold filePath in Hrun.
  destruct (readOnly (ext w) filePath); [discriminate Hrun|].
  inversion Hrun; subst. cbn [ext contents outgoing readOnly]. auto.
Qed.

End SpillFacts.

Section Spill.
Import Types Eff QueueProcessor Scenarios.

(** C8. When the response text exceeds 4000 characters, the envelope that
    is written to the outgoing queue carries a message of at most 4000 + 40
    characters, and its files list contains a path ending in .md under which
    the call has written the full response text. *)
Theorem C8_long_response_spill :
  forall (FILES_DIR QUEUE_OUTGOING channel0 sender0 : string) (senderId : option string)
         (rawMessage messageId agentId finalResponse : string) (outboundFiles : list string)
         (w w' : World Disk) (envelope : ResponseData),
    (4000 < Js.length finalResponse)%nat ->
    writeResponse FILES_DIR QUEUE_OUTGOING channel0 sender0 senderId rawMessage messageId
      agentId finalResponse outboundFiles w = (Ok envelope, w') ->
    (Js.length (rd_message envelope) <= 4000 + 40)%nat
    /\ (exists file, last (outgoing (ext w')) = Some (file, envelope))
    /\ exists files stem,
         rd_files envelope = Some files
         /\ stem +:+ ".md" ∈ files
         /\ contents (ext w') !! (stem +:+ ".md") = Some finalResponse.
Proof.
  intros FILES_DIR QUEUE_OUTGOING channel0 sender0 senderId rawMessage messageId agentId
    finalResponse outboundFiles w w' envelope Hlong Hrun.
  unfold writeResponse in Hrun.
  apply bind_ok in Hrun as (spilled & w1 & Hspill & Hrun).
  apply (handleLongResponse_long _ _ _ _ _ _ Hlong) in Hspill as (-> & Hc & Ho & Hr).
  remember (Js.takeStr LONG_RESPONSE_THRESHOLD finalResponse) as preview eqn:Hpreview.
  unfold bind, now, getExt, modifyExt, ret, throw in Hrun.
  cbv beta iota zeta in Hrun. cbn [ext db clock reads fst snd] in Hrun.
  destruct (String.eqb channel0 "heartbeat");
    cbv beta iota zeta in Hrun; cbn [ext db clock reads fst snd] in Hrun;
    (match type of Hrun with
     | context [if readOnly ?d ?f then _ else _] => destruct (readOnly d f)
     end; [discriminate Hrun|]);
    inversion Hrun as [[Henvelope Hworld]]; subst envelope w'; clear Hrun;
    cbn [rd_message rd_files ext outgoing contents].
  all: split;
    [ unfold Js.length;
      rewrite length_append, Hpreview, length_takeStr, length_previewSuffix;
      unfold LONG_RESPONSE_THRESHOLD; lia
    | split; [eexists; rewrite last_snoc; reflexivity|] ].
  all: rewrite length_app; simpl length;
    replace (0 <? length outboundFiles + 1)%nat with true
      by (symmetry; apply Nat.ltb_lt; lia);
    eexists _, (FILES_DIR +:+ "/" +:+ "response_" +:+ pretty (clock w (reads w)));
    assert (Hpath : (FILES_DIR +:+ "/" +:+ "response_" +:+ pretty (clock w (reads w))) +:+ ".md"
                    = pathJoin FILES_DIR ("response_" +:+ pretty (clock w (reads w)) +:+ ".md"))
      by (unfold pathJoin; rewrite !append_assoc; reflexivity);
    rewrite Hpath; split; [reflexivity|]; split;
    [ apply elem_of_app; right; left
    | rewrite Hc; apply lookup_insert_eq ].
Qed.

(** C8 at a response of 4001 characters on a writable disk. *)
Lemma C8_witness :
  exists envelope w',
    longReply (freshWorld emptyDisk) = (Ok envelope, w')
    /\ (Js.length (rd_message envelope) <= 4000 + 40)%nat.
Proof.
  assert (Hlong : (4000 < Js.length longText)%nat).
  { apply Nat.ltb_lt. vm_compute. reflexivity. }
  destruct (longReply (freshWorld emptyDisk)) as [[envelope|e] w'] eqn:Hrun.
  - exists envelope, w'. split; [reflexivity|].
    exact (proj1 (C8_long_response_spill _ _ _ _ _ _ _ _ longText _ _ _ _ Hlong Hrun)).
  - vm_compute in Hrun. discriminate Hrun.
Defined.

End Spill.

(** ** The verifier *)

Section VerifierFacts.
Import Types Eff Orchestrator.

Lemma askVerifier_throws_pass {X : Type}
  (runOneShotPrompt : string -> string -> M X string) (JSON_parse : string -> res JsValue)
  (ctx : VerifyContext) (candidate : string) (w w1 : World X) (e : string) :
  tooShort candidate = false ->
  Regex.test errorPlaceholder candidate = false ->
  askVerifier runOneShotPrompt JSON_parse ctx candidate w = (Throw e, w1) ->
  verifyCandidate runOneShotPrompt JSON_parse ctx candidate w
  = (Ok (verdictOf ctx pass ["Verifier error: " +:+ e +:+ "; defaulting to pass."] []
           (extractEvidenceRefs candidate)), w1).
Proof.
  intros Hshort Hplaceholder Hthrow.
  unfold verifyCandidate. rewrite Hshort, Hplaceholder.
  unfold catch. rewrite Hthrow. reflexivity.
Qed.

(** What the body of the [try] does once the model has answered and the
    answer has parsed to some value. *)
Lemma askVerifier_parsed {X : Type}
  (runOneShotPrompt : string -> string -> M X string) (JSON_parse : string -> res JsValue)
  (ctx : VerifyContext) (candidate raw : string) (w w1 : World X)
  (parsed : option JsValue) :
  runOneShotPrompt (verifierPrompt ctx candidate) "claude-opus-4-6" w = (Ok raw, w1) ->
  parseVerifierOutput JSON_parse (Js.trim raw) = Ok parsed ->
  askVerifier runOneShotPrompt JSON_parse ctx candidate w
  = if notAnObject parsed then
      (Ok (verdictOf ctx pass
             ["Verifier output could not be parsed; defaulting to pass."] []
             (extractEvidenceRefs candidate)), w1)
    else
      match outcomeRawOf (default JNull parsed) with
      | Throw e => (Throw e, w1)
      | Ok outcomeRaw =>
          match stringArray (getField "findings" (default JNull parsed)) with
          | Throw e => (Throw e, w1)
          | Ok findings0 =>
              match stringArray (getField "required_actions" (default JNull parsed)) with
              | Throw e => (Throw e, w1)
              | Ok requiredActions0 =>
                  (Ok (verdictOf ctx (default pass (validOutcome outcomeRaw))
                         findings0 requiredActions0 (extractEvidenceRefs candidate)), w1)
              end
          end
      end.
Proof.
  intros Hcall Hparse. unfold askVerifier. cbv zeta.
  unfold bind at 1. rewrite Hcall.
  unfold bind at 1. unfold liftRes at 1. rewrite Hparse.
  destruct (notAnObject parsed); [reflexivity|].
  unfold bind, liftRes, ret.
  destruct (outcomeRawOf _); [|reflexivity].
  destruct (stringArray (getField "findings" _)); [|reflexivity].
  destruct (stringArray (getField "required_actions" _)); reflexivity.
Qed.

(** C3. When the candidate reaches the model-backed verifier (it is
    neither too short nor an error placeholder) and the model call throws,
    or parsing the model's answer throws, or the answer does not parse to a
    JSON object, or [String()] throws on the outcome, a finding or a
    required action of the parsed object, or the body of the [try] throws
    for whatever reason, [verifyCandidate] returns a verdict with outcome
    [pass] and no required action. *)
Theorem C3_verifier_fails_open :
  forall (X : Type) (runOneShotPrompt : string -> string -> M X string)
         (JSON_parse : string -> res JsValue)
         (ctx : VerifyContext) (candidate : string) (w : World X),
    tooShort candidate = false ->
    Regex.test errorPlaceholder candidate = false ->
    ((exists e w1,
        runOneShotPrompt (verifierPrompt ctx candidate) "claude-opus-4-6" w = (Throw e, w1))
     \/ (exists raw w1,
           runOneShotPrompt (verifierPrompt ctx candidate) "claude-opus-4-6" w = (Ok raw, w1)
           /\ ((exists e, parseVerifierOutput JSON_parse (Js.trim raw) = Throw e)
               \/ (exists parsed, parseVerifierOutput JSON_parse (Js.trim raw) = Ok parsed
                                  /\ forall fields, parsed <> Some (JObj fields))
               \/ (exists obj e,
                     parseVerifierOutput JSON_parse (Js.trim raw) = Ok (Some obj)
                     /\ (outcomeRawOf obj = Throw e
                         \/ stringArray (getField "findings" obj) = Throw e
                         \/ stringArray (getField "required_actions" obj) = Throw e))))
     \/ (exists e w1,
           askVerifier runOneShotPrompt JSON_parse ctx candidate w = (Throw e, w1))) ->
    exists verdict w',
      verifyCandidate runOneShotPrompt JSON_parse ctx candidate w = (Ok verdict, w')
      /\ outcome verdict = pass
      /\ requiredActions verdict = [].
Proof.
  intros X runOneShotPrompt JSON_parse ctx candidate w Hshort Hplaceholder Hfail.
  assert (Hthrown : forall e w1,
            askVerifier runOneShotPrompt JSON_parse ctx candidate w = (Throw e, w1) ->
            exists verdict w',
              verifyCandidate runOneShotPrompt JSON_parse ctx candidate w = (Ok verdict, w')
              /\ outcome verdict = pass /\ requiredActions verdict = []).
  { intros e w1 Hthrow. eexists _, _.
    split; [apply (askVerifier_throws_pass _ _ _ _ _ _ _ Hshort Hplaceholder Hthrow)|].
    split; reflexivity. }
  assert (Hpassed : forall fs w1,
            askVerifier runOneShotPrompt JSON_parse ctx candidate w
            = (Ok (verdictOf ctx pass fs [] (extractEvidenceRefs candidate)), w1) ->
            exists verdict w',
              verifyCandidate runOneShotPrompt JSON_parse ctx candidate w = (Ok verdict, w')
              /\ outcome verdict = pass /\ requiredActions verdict = []).
  { intros fs w1 Hrun. eexists _, _. unfold verifyCandidate. rewrite Hshort, Hplaceholder.
    unfold catch. rewrite Hrun. split; [reflexivity|]. split; reflexivity. }
  destruct Hfail as [(e & w1 & Hcall) | [(raw & w1 & Hcall & Hparse) | (e & w1 & Hthrow)]].
  - apply (Hthrown e w1). unfold askVerifier. cbv zeta. unfold bind at 1.
    rewrite Hcall. reflexivity.
  - destruct Hparse as [(e & Hparse) | [(parsed & Hparsed & Hobj) | (obj & e & Hparsed & Hstr)]].
    + apply (Hthrown e w1). unfold askVerifier. cbv zeta. unfold bind at 1.
      rewrite Hcall. unfold bind at 1. unfold liftRes at 1. rewrite Hparse. reflexivity.
    + pose proof (askVerifier_parsed _ _ _ _ _ _ _ _ Hcall Hparsed) as Hrun.
      destruct parsed as [[| b | z | s | l | fields]|];
        cbn [notAnObject jsTruthy typeofObject negb orb] in Hrun;
        rewrite ?orb_true_r in Hrun;
        try (eapply Hpassed; exact Hrun).
      exfalso. apply (Hobj fields). reflexivity.
    + pose proof (askVerifier_parsed _ _ _ _ _ _ _ _ Hcall Hparsed) as Hrun.
      cbn [default] in Hrun. unfold id in Hrun.
      destruct (notAnObject (Some obj)); [eapply Hpassed; exact Hrun|].
      destruct Hstr as [Ho | [Hf | Ha]].
      * rewrite Ho in Hrun. apply (Hthrown e w1). exact Hrun.
      * rewrite Hf in Hrun.
        destruct (outcomeRawOf obj) as [o|e0]; [apply (Hthrown e w1) | apply (Hthrown e0 w1)];
          exact Hrun.
      * rewrite Ha in Hrun.
        destruct (outcomeRawOf obj) as [o|e0]; [|apply (Hthrown e0 w1); exact Hrun].
        destruct (stringArray (getField "findings" obj)) as [fs|e1];
          [apply (Hthrown e w1) | apply (Hthrown e1 w1)]; exact Hrun.
  - apply (Hthrown e w1). exact Hthrow.
Qed.

(** C3 at a prose answer of the model. *)
Lemma C3_witness :
  exists verdict w',
    verifyCandidate Scenarios.proseModel Scenarios.noJson Scenarios.parisContext
      "The capital of France is Paris." (Scenarios.freshWorld tt) = (Ok verdict, w')
    /\ outcome verdict = pass
    /\ requiredActions verdict = [].
Proof.
  apply C3_verifier_fails_open.
  - vm_compute. reflexivity.
  - vm_compute. reflexivity.
  - right. left. exists "Looks good to me.", (Scenarios.freshWorld tt).
    split; [reflexivity|]. right. left. exists None.
    split; [vm_compute; reflexivity | discriminate].
Defined.

(** A parsed answer on which [String()] throws: the verdict is pass,
    whatever outcome the answer names. *)
Example verifier_passes_on_string_error :
  verifyCandidate Cases.shadowModel Cases.shadowJson Scenarios.parisContext
    "The capital of France is Paris." (Scenarios.freshWorld tt)
  = (Ok (verdictOf Scenarios.parisContext pass
           ["Verifier error: Cannot convert object to primitive value; defaulting to pass."]
           [] []),
     Scenarios.freshWorld tt).
Proof. vm_compute. reflexivity. Qed.

End VerifierFacts.

(** Symbolic execution of straight-line effectful code. *)
Ltac eff_simpl :=
  cbv beta iota zeta;
  cbn [Eff.ext Eff.db Eff.clock Eff.reads fst snd
       Store.task_runs Store.task_steps Store.task_events Store.memory_records
       Store.permissions Store.tool_registry Store.tool_events
       Store.channel_pending_messages Store.harness_metrics Store.harness_metric_events
       Store.with_task_runs Store.with_task_steps Store.with_task_events
       Store.with_memory_records Store.with_permissions Store.with_tool_registry
       Store.with_tool_events Store.with_pending Store.with_metrics
       ToolExecutor.uuids ToolExecutor.draws ToolExecutor.answer ToolExecutor.spawned].

Ltac eff_unfold :=
  unfold Repository.getToolByName, Repository.upsertTool, Repository.hasActivePermission,
    ToolExecutor.randomUUID, ToolExecutor.spawn, Repository.upsertPermission,
    Repository.appendToolEvent, ToolExecutor.count, Repository.incrementMetric, Eff.stamped;
  unfold Eff.bind, Eff.getDb, Eff.getExt, Eff.modifyDb, Eff.modifyExt, Eff.now, Eff.ret,
    Eff.throw;
  eff_simpl.

(** ** The tooling executor *)

Section ExecutorFacts.
Import Types Store Eff Repository ToolExecutor.

Lemma isActiveFor_spec (userId subject0 action0 k : string) (r : PermissionRow) :
  isActiveFor userId subject0 action0 k r = true
  <-> perm_user_id r = userId /\ subject r = subject0 /\ action r = action0
      /\ perm_status r = active.
Proof.
  unfold isActiveFor. rewrite !andb_true_iff, !String.eqb_eq, bool_decide_eq_true. tauto.
Qed.

Lemma count_run {X} (metric : string) (fields : list (string * JsValue)) (w : World X) :
  exists w',
    count metric fields w = (Ok tt, w')
    /\ ext w' = ext w
    /\ permissions (db w') = permissions (db w)
    /\ tool_registry (db w') = tool_registry (db w)
    /\ tool_events (db w') = tool_events (db w).
Proof.
  unfold count, incrementMetric, bind, getDb, now, modifyDb, ret. cbv beta iota zeta.
  eexists. split; [reflexivity|]. simpl. auto.
Qed.

(** C9. When the extracted command passes sanitization and the user
    holds no active (user, tool, execute) permission, the call draws a UUID,
    stores a pending permission under perm_<uuid> (for this user, tool and
    action when the id is new to the table), returns needs_approval with
    that requestId and a message naming it, and spawns nothing. *)
Theorem C9_missing_permission_needs_approval :
  forall (input : ToolExecutionInput) (w : World Os),
    let command0 := commandOf input in
    let toolName0 := toolNameOf command0 in
    let requestId0 := "perm_" +:+ uuids (ext w) (draws (ext w)) in
    ok (sanitizeCommand command0) = true ->
    (forall id r, permissions (db w) !! id = Some r ->
       ~ (perm_user_id r = ti_userId input /\ subject r = toolName0
          /\ action r = "execute" /\ perm_status r = active)) ->
    exists result w',
      executeToolingTask input w = (Ok result, w')
      /\ status result = needs_approval
      /\ requestId result = Some requestId0
      /\ message result
         = "Tool execution requires approval for '" +:+ toolName0
             +:+ "'. Reply with /approve " +:+ requestId0 +:+ " or /deny "
             +:+ requestId0 +:+ "."
      /\ spawned (ext w') = spawned (ext w)
      /\ draws (ext w') = S (draws (ext w))
      /\ (exists r, permissions (db w') !! requestId0 = Some r
                    /\ perm_status r = pending
                    /\ (permissions (db w) !! requestId0 = None ->
                        perm_user_id r = ti_userId input /\ subject r = toolName0
                        /\ action r = "execute" /\ resource r = "tool"))
      /\ (forall id, id <> requestId0 ->
            permissions (db w') !! id = permissions (db w) !! id).
Proof.
  intros input w command0 toolName0 requestId0 Hok Hnone.
  assert (Hsel : selectWhere (isActiveFor (ti_userId input) toolName0 "execute")
                   (permissions (db w)) = []).
  { apply selectWhere_nil. intros k v Hk. apply not_true_iff_false.
    intros Hact. apply isActiveFor_spec in Hact. exact (Hnone k v Hk Hact). }
  unfold executeToolingTask. fold command0. rewrite Hok. cbv zeta. fold toolName0.
  cbn [negb].
  eff_unfold.
  destruct (head (selectWhere _ (tool_registry (db w)))) as [known|];
    cbn [negb bool_decide decide_rel is_Some_dec option_rect]; eff_simpl;
    rewrite Hsel; change (negb (0 <? length (@nil (string * PermissionRow)))%nat) with true;
    eff_simpl;
    (eexists _, _; split; [reflexivity|]);
    cbn [status requestId message spawned draws ext db permissions with_metrics
         with_tool_events with_permissions with_tool_registry];
    (split; [reflexivity|]); (split; [reflexivity|]); (split; [reflexivity|]);
    (split; [reflexivity|]); (split; [reflexivity|]);
    fold requestId0.
  all: split;
    [ rewrite lookup_upsert;
      destruct (decide (requestId0 = requestId0)) as [_|Hne]; [|congruence];
      eexists; split; [reflexivity|];
      destruct (permissions (db w) !! requestId0) as [old|]; cbn;
        [split; [reflexivity | intros Habs; discriminate Habs]
        | split; [reflexivity | intros _; auto] ]
    | intros id Hid; rewrite lookup_upsert;
      destruct (decide (requestId0 = id)) as [E|_]; [congruence | reflexivity] ].
Qed.

End ExecutorFacts.

(** ** The regular expressions of the sanitizer *)

(** ** Strings and their code units *)

Section StringFacts.

Lemma chars_str (l : list ascii) : Js.chars (Js.str l) = l.
Proof. apply list_ascii_of_string_of_list_ascii. Qed.

Lemma str_chars (s : string) : Js.str (Js.chars s) = s.
Proof. apply string_of_list_ascii_of_string. Qed.

Lemma chars_takeStr (n : nat) (s : string) :
  Js.chars (Js.takeStr n s) = take n (Js.chars s).
Proof.
  revert s. induction n as [|n IH]; intros [|c s]; try reflexivity.
  cbn [Js.takeStr]. unfold Js.chars in *. cbn [list_ascii_of_string take].
  rewrite IH. reflexivity.
Qed.

Lemma length_chars (s : string) : length (Js.chars s) = String.length s.
Proof. induction s as [|c s IH]; [reflexivity|]. unfold Js.chars in *. simpl. lia. Qed.

End StringFacts.

Section RegexFacts.
Import Regex.

Lemma searchFrom_cons (r : re) (i : nat) (p : option ascii) (c : ascii) (tl : list ascii) :
  searchFrom r i p (c :: tl)
  = match matchAt r (mkSt i p (c :: tl) []) with
    | Some m => Some m
    | None => searchFrom r (S i) (Some c) tl
    end.
Proof. reflexivity. Qed.

Lemma searchFrom_hit (r : re) (i : nat) (p : option ascii) (l : list ascii) :
  matchAt r (mkSt i p l []) <> None -> searchFrom r i p l <> None.
Proof.
  intros Hm. destruct l as [|c tl].
  - change (searchFrom r i p []) with
      (match matchAt r (mkSt i p [] []) with Some m => Some m | None => None end).
    destruct (matchAt r (mkSt i p [] [])); congruence.
  - rewrite searchFrom_cons. destruct (matchAt r (mkSt i p (c :: tl) [])); congruence.
Qed.

(** The search finds a match when the pattern matches at some index. *)
Lemma searchFrom_found (r : re) (l1 : list ascii) :
  forall (i : nat) (prev : option ascii) (l2 : list ascii),
    matchAt r (mkSt (i + length l1) (lastOf prev l1) l2 []) <> None ->
    searchFrom r i prev (l1 ++ l2) <> None.
Proof.
  induction l1 as [|c tl IH]; intros i prev l2 Hm.
  - cbn [length lastOf foldl app] in *. rewrite Nat.add_0_r in Hm.
    apply searchFrom_hit. exact Hm.
  - cbn [app]. rewrite searchFrom_cons.
    destruct (matchAt r (mkSt i prev (c :: tl ++ l2) [])); [congruence|].
    apply IH. cbn [length lastOf foldl] in Hm. rewrite Nat.add_succ_r in Hm. exact Hm.
Qed.

Lemma chars_append (a b : string) : Js.chars (a +:+ b) = Js.chars a ++ Js.chars b.
Proof.
  induction a as [|c a IH]; [reflexivity|].
  change (String c a +:+ b) with (String c (a +:+ b)).
  unfold Js.chars in *. simpl. rewrite IH. reflexivity.
Qed.

Lemma test_found (r : re) (pre rest0 : string) :
  matchAt r (mkSt (length (Js.chars pre)) (lastOf None (Js.chars pre)) (Js.chars rest0) [])
    <> None ->
  test r (pre +:+ rest0) = true.
Proof.
  intros Hm. unfold test, exec. rewrite chars_append.
  pose proof (searchFrom_found r (Js.chars pre) 0 None (Js.chars rest0) Hm) as Hs.
  destruct (searchFrom r 0 None _); [reflexivity | congruence].
Qed.

Lemma lower_letter_is_word (c : ascii) :
  Js.between 97 122 (Js.lowerChar c) = true -> Js.isWord c = true.
Proof.
  destruct c as [[] [] [] [] [] [] [] []]; vm_compute; intros H; congruence.
Qed.

Lemma greedyLoop_S (step : (st -> option st) -> st -> option st) (k : st -> option st)
  (fuel : nat) (s0 : st) :
  greedyLoop step k (S fuel) s0
  = match step (progress s0 (greedyLoop step k fuel)) s0 with
    | Some x => Some x
    | None => k s0
    end.
Proof. reflexivity. Qed.

Lemma run_cls_cons (p : ascii -> bool) (k : st -> option st) (i : nat)
  (prev0 : option ascii) (c : ascii) (tl : list ascii) (caps0 : list (nat * list ascii)) :
  run (Cls p) k (mkSt i prev0 (c :: tl) caps0)
  = if p c then k (mkSt (S i) (Some c) tl caps0) else None.
Proof. reflexivity. Qed.

(** A greedy run over a class takes the whole block of code units of the
    class when the continuation accepts what follows. *)
Lemma greedy_cls (p : ascii -> bool) (k : st -> option st) (l : list ascii) :
  forall (fuel i : nat) (prev0 : option ascii) (rest0 : list ascii)
         (caps0 : list (nat * list ascii)) (x : st),
    (forall c, In c l -> p c = true) ->
    match rest0 with c :: _ => p c = false | [] => True end ->
    (length l < fuel)%nat ->
    k (mkSt (i + length l) (lastOf prev0 l) rest0 caps0) = Some x ->
    greedyLoop (run (Cls p)) k fuel (mkSt i prev0 (l ++ rest0) caps0) = Some x.
Proof.
  induction l as [|c tl IH]; intros fuel i prev0 rest0 caps0 x Hall Hstop Hfuel Hk.
  - destruct fuel as [|fuel]; [simpl in Hfuel; lia|].
    cbn [length lastOf foldl app] in *. rewrite Nat.add_0_r in Hk.
    rewrite greedyLoop_S.
    destruct rest0 as [|c0 tl0].
    + exact Hk.
    + rewrite run_cls_cons, Hstop. exact Hk.
  - destruct fuel as [|fuel]; [simpl in Hfuel; lia|].
    cbn [app]. rewrite greedyLoop_S, run_cls_cons, (Hall c (or_introl eq_refl)).
    unfold progress at 1. cbn [pos]. rewrite (proj2 (Nat.ltb_lt i (S i))) by lia.
    rewrite (IH fuel (S i) (Some c) rest0 caps0 x); [reflexivity | | exact Hstop | | ].
    + intros c' Hc'. apply Hall. right. exact Hc'.
    + simpl in Hfuel. lia.
    + cbn [length lastOf foldl] in Hk. rewrite Nat.add_succ_r in Hk. exact Hk.
Qed.

End RegexFacts.

Section PatternFacts.
Import Regex ToolExecutor.

Lemma lower_four (w : string) (a b c d : ascii) :
  Js.toLowerCase w = String a (String b (String c (String d EmptyString))) ->
  exists c1 c2 c3 c4,
    w = String c1 (String c2 (String c3 (String c4 EmptyString)))
    /\ Js.lowerChar c1 = a /\ Js.lowerChar c2 = b
    /\ Js.lowerChar c3 = c /\ Js.lowerChar c4 = d.
Proof.
  destruct w as [|c1 [|c2 [|c3 [|c4 [|c5 w]]]]]; intros H; try discriminate H.
  inversion H. exists c1, c2, c3, c4. auto.
Qed.

(** The sudo pattern finds the word however it is capitalised, when it is
    not glued to a word character on either side. *)
Lemma sudoRegex_finds_word (pre word post : string) :
  Js.toLowerCase word = "sudo" ->
  isWordOpt (lastOf None (Js.chars pre)) = false ->
  isWordOpt (head (Js.chars post)) = false ->
  test sudoRegex (pre +:+ word +:+ post) = true.
Proof.
  intros Hw Hpre Hpost. apply test_found.
  apply lower_four in Hw as (c1 & c2 & c3 & c4 & -> & H1 & H2 & H3 & H4).
  rewrite chars_append. cbn [Js.chars list_ascii_of_string app].
  unfold matchAt, sudoRegex, litI, chrI. cbn [pos prev rest caps Js.chars list_ascii_of_string seqOf].
  cbn [run rest pos prev caps]. unfold atWordBoundary, advance. cbn [prev rest head].
  rewrite Hpre, Hpost. cbn [isWordOpt].
  rewrite (lower_letter_is_word c1) by (rewrite H1; reflexivity).
  rewrite (lower_letter_is_word c4) by (rewrite H4; reflexivity).
  cbn [xorb isWordOpt].
  rewrite H1, H2, H3, H4.
  change (Js.lowerChar "s") with "s"%char. change (Js.lowerChar "u") with "u"%char.
  change (Js.lowerChar "d") with "d"%char. change (Js.lowerChar "o") with "o"%char.
  rewrite !Ascii.eqb_refl. discriminate.
Qed.

Lemma lower_two (w : string) (a b : ascii) :
  Js.toLowerCase w = String a (String b EmptyString) ->
  exists c1 c2,
    w = String c1 (String c2 EmptyString)
    /\ Js.lowerChar c1 = a /\ Js.lowerChar c2 = b.
Proof.
  destruct w as [|c1 [|c2 [|c3 w]]]; intros H; try discriminate H.
  inversion H. exists c1, c2. auto.
Qed.

Lemma lower_three (w : string) (a b c : ascii) :
  Js.toLowerCase w = String a (String b (String c EmptyString)) ->
  exists c1 c2 c3,
    w = String c1 (String c2 (String c3 EmptyString))
    /\ Js.lowerChar c1 = a /\ Js.lowerChar c2 = b /\ Js.lowerChar c3 = c.
Proof.
  destruct w as [|c1 [|c2 [|c3 [|c4 w]]]]; intros H; try discriminate H.
  inversion H. exists c1, c2, c3. auto.
Qed.

Lemma lower_dash (c : ascii) : Js.lowerChar c = "-"%char -> c = "-"%char.
Proof.
  destruct c as [[] [] [] [] [] [] [] []]; vm_compute; intros H; congruence.
Qed.

Lemma run_Seq (r1 r2 : re) (k : st -> option st) (s : st) :
  run (Seq r1 r2) k s = run r1 (run r2 k) s.
Proof. reflexivity. Qed.

Lemma run_WordB (k : st -> option st) (s : st) :
  run WordB k s = if atWordBoundary s then k s else None.
Proof. reflexivity. Qed.

Lemma run_Star (r : re) (k : st -> option st) (s : st) :
  run (Star r) k s = greedyLoop (run r) k (S (length (rest s))) s.
Proof. reflexivity. Qed.

(** The rm -rf pattern finds rm, blanks, -rf however capitalised, when it
    is not glued to a word character on either side. *)
Lemma rmRfRegex_finds_pattern (pre rm blanks rf post : string) :
  Js.toLowerCase rm = "rm" ->
  blanks <> EmptyString ->
  (forall c, In c (Js.chars blanks) -> Js.isSpace c = true) ->
  Js.toLowerCase rf = "-rf" ->
  isWordOpt (lastOf None (Js.chars pre)) = false ->
  isWordOpt (head (Js.chars post)) = false ->
  test rmRfRegex (pre +:+ rm +:+ blanks +:+ rf +:+ post) = true.
Proof.
  intros Hrm Hne Hblank Hrf Hpre Hpost. apply test_found.
  apply lower_two in Hrm as (r1 & m1 & -> & Hr & Hm).
  apply lower_three in Hrf as (d1 & r2 & f1 & -> & Hd & Hr2 & Hf).
  apply lower_dash in Hd. subst d1.
  destruct blanks as [|b0 blanks]; [congruence|].
  rewrite !chars_append.
  change (Js.chars (String r1 (String m1 EmptyString))) with [r1; m1].
  change (Js.chars (String b0 blanks)) with (b0 :: Js.chars blanks) in *.
  change (Js.chars (String "-" (String r2 (String f1 EmptyString)))) with ["-"%char; r2; f1].
  cbn [app].
  set (tail := Seq (litI "-rf") WordB).
  assert (Htail : forall i p0 caps0,
            run tail Some (mkSt i p0 ("-"%char :: r2 :: f1 :: Js.chars post) caps0)
            = Some (mkSt (S (S (S i))) (Some f1) (Js.chars post) caps0)).
  { intros i p0 caps0. unfold tail, litI, chrI.
    cbn [Js.chars list_ascii_of_string seqOf run rest pos prev caps].
    unfold atWordBoundary, advance. cbn [prev rest head pos caps].
    rewrite Hpost. cbn [isWordOpt].
    rewrite (lower_letter_is_word f1) by (rewrite Hf; reflexivity).
    rewrite Hr2, Hf.
    change (Js.lowerChar "-") with "-"%char. change (Js.lowerChar "r") with "r"%char.
    change (Js.lowerChar "f") with "f"%char.
    rewrite !Ascii.eqb_refl. reflexivity. }
  unfold matchAt. cbn [pos prev rest caps].
  match goal with
  | |- match ?m with Some _ => _ | None => _ end <> None =>
      assert (Hrun : exists e, m = Some e); [|destruct Hrun as [e ->]; discriminate]
  end.
  unfold rmRfRegex, Plus, space. fold tail.
  unfold litI, chrI. cbn [Js.chars list_ascii_of_string seqOf].
  rewrite run_Seq, run_WordB. unfold atWordBoundary. cbn [prev rest head].
  rewrite Hpre. cbn [isWordOpt].
  rewrite (lower_letter_is_word r1) by (rewrite Hr; reflexivity). cbn [xorb].
  rewrite !run_Seq, !run_cls_cons, Hr, Hm.
  change (Js.lowerChar "r") with "r"%char. change (Js.lowerChar "m") with "m"%char.
  rewrite !Ascii.eqb_refl.
  rewrite !run_Seq, run_cls_cons.
  rewrite (Hblank b0) by (left; reflexivity).
  rewrite run_Star. cbn [rest].
  eexists. apply greedy_cls.
  - intros c Hc. apply Hblank. right. exact Hc.
  - reflexivity.
  - rewrite length_app. lia.
  - apply Htail.
Qed.

End PatternFacts.

Section SanitizerFacts.
Import Types Store Eff Repository ToolExecutor.

Lemma searchFrom_cls (p : ascii -> bool) (l : list ascii) :
  forall (i : nat) (prev : option ascii),
    match Regex.searchFrom (Regex.Cls p) i prev l with
    | Some _ => true
    | None => false
    end = existsb p l.
Proof.
  induction l as [|c tl IH]; intros i prev; [reflexivity|].
  simpl. unfold Regex.matchAt. simpl. destruct (p c); [reflexivity|]. apply IH.
Qed.

(** A one-class pattern tests whether some code unit is in the class. *)
Lemma test_cls (p : ascii -> bool) (s : string) :
  Regex.test (Regex.Cls p) s = existsb p (Js.chars s).
Proof. unfold Regex.test, Regex.exec. apply searchFrom_cls. Qed.

Lemma metaRegex_false (command0 : string) :
  Regex.test metaRegex command0 = false <->
  forall c, c ∈ Js.chars command0 -> c ∉ Js.chars ";&|`".
Proof.
  unfold metaRegex, Regex.oneOf. rewrite test_cls. split.
  - intros Hex c Hc Hin.
    apply not_true_iff_false in Hex. apply Hex.
    apply existsb_exists. exists c. split; [apply list_elem_of_In; exact Hc|].
    apply existsb_exists. exists c. split; [apply list_elem_of_In; exact Hin|].
    apply Ascii.eqb_refl.
  - intros Hall. apply not_true_iff_false. intros Hex.
    apply existsb_exists in Hex as (c & Hc & Hin).
    apply existsb_exists in Hin as (c' & Hc' & Heq).
    apply Ascii.eqb_eq in Heq. subst c'.
    apply (Hall c); apply list_elem_of_In; assumption.
Qed.

Lemma includesTool_spec (tool : string) :
  includesTool tool = true <-> tool ∈ ALLOWED_TOOLS.
Proof.
  unfold includesTool. rewrite existsb_exists. split.
  - intros (x & Hin & Heq). apply String.eqb_eq in Heq. subst x.
    apply list_elem_of_In. exact Hin.
  - intros Hin. exists tool. split; [apply list_elem_of_In; exact Hin | apply String.eqb_refl].
Qed.

(** What passing [sanitizeCommand] means. *)
Lemma sanitize_ok (command0 : string) :
  ok (sanitizeCommand command0) = true <->
  Js.truthy (Js.trim command0) = true
  /\ Regex.test metaRegex command0 = false
  /\ Regex.test sudoRegex command0 = false
  /\ Regex.test rmRfRegex command0 = false
  /\ exists bin0 args0,
       tokenizeCommand command0 = bin0 :: args0
       /\ includesTool (Js.toLowerCase bin0) = true.
Proof.
  unfold sanitizeCommand.
  destruct (Js.truthy (Js.trim command0)); cbn [negb];
    [|split; [discriminate | intros [H _]; discriminate H]].
  destruct (Regex.test metaRegex command0);
    [split; [discriminate | intros (_ & H & _); discriminate H]|].
  destruct (Regex.test sudoRegex command0);
    [split; [discriminate | intros (_ & _ & H & _); discriminate H]|].
  destruct (Regex.test rmRfRegex command0);
    [split; [discriminate | intros (_ & _ & _ & H & _); discriminate H]|].
  destruct (tokenizeCommand command0) as [|bin0 args0].
  - split; [discriminate | intros (_ & _ & _ & _ & b & a & H & _); discriminate H].
  - destruct (includesTool (Js.toLowerCase bin0)) eqn:Hin; cbn [negb ok].
    + split; [|reflexivity]. intros _. repeat split; eauto.
    + split; [discriminate|]. intros (_ & _ & _ & _ & b & a & H & Hb).
      inversion H; subst. congruence.
Qed.

(** A command that holds the word sudo, however capitalised, is refused. *)
Lemma sanitizeCommand_refuses_sudo (pre word post : string) :
  Js.toLowerCase word = "sudo" ->
  Regex.isWordOpt (Regex.lastOf None (Js.chars pre)) = false ->
  Regex.isWordOpt (head (Js.chars post)) = false ->
  ok (sanitizeCommand (pre +:+ word +:+ post)) = false.
Proof.
  intros Hword Hpre Hpost.
  pose proof (sudoRegex_finds_word pre word post Hword Hpre Hpost) as Hfound.
  apply not_true_iff_false. intros Hok.
  apply sanitize_ok in Hok as (_ & _ & Hsudo & _). congruence.
Qed.

(** A command that holds rm, blanks and -rf as words, however capitalised,
    is refused. *)
Lemma sanitizeCommand_refuses_rm_rf (pre rm blanks rf post : string) :
  Js.toLowerCase rm = "rm" ->
  blanks <> EmptyString ->
  (forall c, In c (Js.chars blanks) -> Js.isSpace c = true) ->
  Js.toLowerCase rf = "-rf" ->
  Regex.isWordOpt (Regex.lastOf None (Js.chars pre)) = false ->
  Regex.isWordOpt (head (Js.chars post)) = false ->
  ok (sanitizeCommand (pre +:+ rm +:+ blanks +:+ rf +:+ post)) = false.
Proof.
  intros Hrm Hne Hblank Hrf Hpre Hpost.
  pose proof (rmRfRegex_finds_pattern pre rm blanks rf post Hrm Hne Hblank Hrf Hpre Hpost)
    as Hfound.
  apply not_true_iff_false. intros Hok.
  apply sanitize_ok in Hok as (_ & _ & _ & Hrmrf & _). congruence.
Qed.

End SanitizerFacts.

(** ** The tokens of a command *)

Section TokenShape.
Import Regex ToolExecutor.

Lemma lastOf_app (p : option ascii) (a b : list ascii) :
  lastOf p (a ++ b) = lastOf (lastOf p a) b.
Proof. unfold lastOf. apply foldl_app. Qed.

Lemma lastOf_snoc (p : option ascii) (a : list ascii) (c : ascii) :
  lastOf p (a ++ [c]) = Some c.
Proof. rewrite lastOf_app. reflexivity. Qed.

Lemma space_not_word (c : ascii) : Js.isSpace c = true -> Js.isWord c = false.
Proof. destruct c as [[] [] [] [] [] [] [] []]; vm_compute; congruence. Qed.

(** The longest prefix of a list in a class. *)
Lemma span_cls (p : ascii -> bool) (l : list ascii) :
  exists block rest0,
    l = block ++ rest0
    /\ (forall c, In c block -> p c = true)
    /\ match rest0 with c :: _ => p c = false | [] => True end.
Proof.
  induction l as [|c tl (block & rest0 & -> & Hall & Hstop)].
  - exists [], []. repeat split. intros c [].
  - destruct (p c) eqn:Hc.
    + exists (c :: block), rest0. split; [reflexivity|]. split; [|exact Hstop].
      intros x [<- | Hx]; [exact Hc | apply Hall; exact Hx].
    + exists [], (c :: block ++ rest0). split; [reflexivity|]. split; [intros x []|exact Hc].
Qed.

(** What a greedy run over a class hands to its continuation: a block of
    the class has been read. *)
Lemma greedy_cls_sound (p : ascii -> bool) (k : st -> option st) (fuel : nat) :
  forall (i : nat) (prev0 : option ascii) (l : list ascii)
         (caps0 : list (nat * list ascii)) (x : st),
    greedyLoop (run (Cls p)) k fuel (mkSt i prev0 l caps0) = Some x ->
    exists block rest0,
      l = block ++ rest0
      /\ (forall c, In c block -> p c = true)
      /\ k (mkSt (i + length block) (lastOf prev0 block) rest0 caps0) = Some x.
Proof.
  induction fuel as [|fuel IH]; intros i prev0 l caps0 x Hrun.
  - exists [], l. cbn [length lastOf foldl app]. rewrite Nat.add_0_r.
    split; [reflexivity|]. split; [intros c []|exact Hrun].
  - rewrite greedyLoop_S in Hrun.
    destruct (run (Cls p) (progress (mkSt i prev0 l caps0) (greedyLoop (run (Cls p)) k fuel))
                (mkSt i prev0 l caps0)) as [y|] eqn:Hstep.
    + inversion Hrun; subst y. clear Hrun.
      destruct l as [|c tl]; [discriminate Hstep|].
      rewrite run_cls_cons in Hstep. destruct (p c) eqn:Hc; [|discriminate Hstep].
      unfold progress in Hstep. cbn [pos] in Hstep.
      rewrite (proj2 (Nat.ltb_lt i (S i))) in Hstep by lia.
      apply IH in Hstep as (block & rest0 & -> & Hall & Hk).
      exists (c :: block), rest0. split; [reflexivity|]. split.
      * intros y [<- | Hy]; [exact Hc | apply Hall; exact Hy].
      * cbn [length lastOf foldl]. rewrite Nat.add_succ_r. exact Hk.
    + exists [], l. cbn [length lastOf foldl app]. rewrite Nat.add_0_r.
      split; [reflexivity|]. split; [intros c []|exact Hrun].
Qed.

(** A quoted alternative of the tokenizer: the quote, a block of the
    class under group [n], the quote. *)
Lemma run_quoted_sound (q : ascii) (p : ascii -> bool) (n i : nat) (prev0 : option ascii)
  (l : list ascii) (x : st) :
  run (Seq (chr q) (Seq (Grp n (Star (Cls p))) (chr q))) Some (mkSt i prev0 l []) = Some x ->
  exists block rest0,
    l = q :: block ++ q :: rest0
    /\ x = mkSt (S (S (i + length block))) (Some q) rest0 [(n, block)].
Proof.
  unfold chr. rewrite run_Seq.
  destruct l as [|c tl]; [discriminate|].
  rewrite run_cls_cons. destruct (Ascii.eqb q c) eqn:Hq; [|discriminate].
  apply Ascii.eqb_eq in Hq. subst c.
  rewrite run_Seq. cbn [run]. cbn [rest].
  intros Hrun. apply greedy_cls_sound in Hrun as (block & rest0 & -> & _ & Hk).
  unfold setCap in Hk. cbn [pos prev rest caps] in Hk.
  destruct rest0 as [|c rest0]; [discriminate Hk|].
  destruct (Ascii.eqb q c) eqn:Hq; [|discriminate Hk].
  apply Ascii.eqb_eq in Hq. subst c.
  exists block, rest0. split; [reflexivity|].
  unfold advance in Hk. cbn [pos prev rest caps] in Hk. inversion Hk.
  replace (i + length block - i)%nat with (length block) by lia.
  rewrite take_app_length. reflexivity.
Qed.

(** The third alternative of the tokenizer takes the whole block of
    non-blanks at the position. *)
Lemma run_bare (i : nat) (prev0 : option ascii) (c : ascii) (tl : list ascii) :
  Js.isSpace c = false ->
  exists block rest0,
    c :: tl = block ++ rest0
    /\ block <> []
    /\ (forall x, In x block -> Js.isSpace x = false)
    /\ match rest0 with c :: _ => Js.isSpace c = true | [] => True end
    /\ run (Grp 3 (Plus nonSpace)) Some (mkSt i prev0 (c :: tl) [])
       = Some (mkSt (i + length block) (lastOf prev0 block) rest0 [(3%nat, block)]).
Proof.
  intros Hc.
  destruct (span_cls (fun x => negb (Js.isSpace x)) tl) as (block & rest0 & -> & Hall & Hstop).
  exists (c :: block), rest0. split; [reflexivity|]. split; [discriminate|].
  split.
  { intros x [<- | Hx]; [exact Hc|]. apply negb_true_iff. apply Hall. exact Hx. }
  split.
  { destruct rest0 as [|x rest0]; [exact I|]. cbn. apply negb_false_iff. exact Hstop. }
  unfold Plus, nonSpace. cbn [run]. cbn [rest]. rewrite Hc. cbn [negb].
  unfold advance. cbn [pos prev rest caps].
  apply greedy_cls.
  - exact Hall.
  - exact Hstop.
  - rewrite length_app. lia.
  - unfold setCap. cbn [pos prev rest caps length lastOf foldl]. f_equal. f_equal.
    + lia.
    + replace (S i + length block - i)%nat with (S (length block)) by lia.
      cbn [take]. rewrite take_app_length. reflexivity.
Qed.

Lemma run_bare_none (i : nat) (prev0 : option ascii) (l : list ascii) (x : st) :
  run (Grp 3 (Plus nonSpace)) Some (mkSt i prev0 l []) = Some x ->
  exists c tl, l = c :: tl /\ Js.isSpace c = false.
Proof.
  destruct l as [|c tl]; [discriminate|].
  unfold Plus, nonSpace. cbn [run]. cbn [rest].
  destruct (Js.isSpace c) eqn:Hc; [discriminate|]. intros _. exists c, tl. auto.
Qed.

Lemma run_Alt (r1 r2 : re) (k : st -> option st) (s : st) :
  run (Alt r1 r2) k s
  = match run r1 k s with Some x => Some x | None => run r2 k s end.
Proof. reflexivity. Qed.

(** The two shapes of a match of the tokenizer's pattern: a quoted block,
    or a whole block of non-blanks. *)
Lemma matchAt_token (i : nat) (prev0 : option ascii) (l : list ascii) (m : result) :
  matchAt tokenRegex (mkSt i prev0 l []) = Some m ->
  (exists q block rest0,
     Js.isWord q = false /\ Js.isSpace q = false
     /\ l = q :: block ++ q :: rest0
     /\ tokenOf m = Js.str block
     /\ rest (after m) = rest0
     /\ prev (after m) = Some q
     /\ pos (after m) = S (S (i + length block)))
  \/ (exists block rest0,
        block <> []
        /\ (forall x, In x block -> Js.isSpace x = false)
        /\ match rest0 with c :: _ => Js.isSpace c = true | [] => True end
        /\ l = block ++ rest0
        /\ tokenOf m = Js.str block
        /\ rest (after m) = rest0
        /\ prev (after m) = lastOf prev0 block
        /\ pos (after m) = (i + length block)%nat).
Proof.
  unfold matchAt. cbn [pos prev rest].
  destruct (run tokenRegex Some (mkSt i prev0 l [])) as [e|] eqn:Hrun; [|discriminate].
  intros Hm. inversion Hm; subst m. clear Hm. cbn [after].
  unfold tokenRegex in Hrun. rewrite run_Alt in Hrun.
  match type of Hrun with
  | match ?a with Some _ => _ | None => _ end = _ => destruct a as [x1|] eqn:H1
  end.
  - inversion Hrun; subst x1. clear Hrun.
    apply (run_quoted_sound dqChar _ 1 i prev0 l e) in H1 as (block & rest0 & -> & ->).
    left. exists dqChar, block, rest0. repeat split; reflexivity.
  - rewrite run_Alt in Hrun.
    match type of Hrun with
    | match ?a with Some _ => _ | None => _ end = _ => destruct a as [x2|] eqn:H2
    end.
    + inversion Hrun; subst x2. clear Hrun.
      apply (run_quoted_sound "'"%char _ 2 i prev0 l e) in H2 as (block & rest0 & -> & ->).
      left. exists "'"%char, block, rest0. repeat split; reflexivity.
    + pose proof (run_bare_none i prev0 l e Hrun) as (c & tl & -> & Hc).
      destruct (run_bare i prev0 c tl Hc) as (block & rest0 & Hl & Hne & Hall & Hstop & Hbare).
      rewrite Hbare in Hrun. inversion Hrun; subst e. clear Hrun.
      right. exists block, rest0. repeat split; try assumption; reflexivity.
Qed.

Lemma lastOf_last (p : option ascii) (l : list ascii) :
  l <> [] -> exists c, lastOf p l = Some c /\ In c l.
Proof.
  intros Hne. destruct (exists_last Hne) as (l' & c & ->).
  exists c. split; [apply lastOf_snoc | apply in_or_app; right; left; reflexivity].
Qed.

(** The search for a token skips blanks only. *)
Lemma searchFrom_token (l : list ascii) :
  forall (i : nat) (prev0 : option ascii) (m : result),
    searchFrom tokenRegex i prev0 l = Some m ->
    exists skipped l',
      l = skipped ++ l'
      /\ (forall c, In c skipped -> Js.isSpace c = true)
      /\ matchAt tokenRegex (mkSt (i + length skipped) (lastOf prev0 skipped) l' []) = Some m.
Proof.
  induction l as [|c tl IH]; intros i prev0 m Hs.
  - exists [], []. cbn [length lastOf foldl app]. rewrite Nat.add_0_r.
    split; [reflexivity|]. split; [intros c []|].
    cbn [searchFrom] in Hs. destruct (matchAt tokenRegex _); [exact Hs | discriminate Hs].
  - rewrite searchFrom_cons in Hs.
    destruct (matchAt tokenRegex (mkSt i prev0 (c :: tl) [])) as [m0|] eqn:Hm.
    + exists [], (c :: tl). cbn [length lastOf foldl app]. rewrite Nat.add_0_r.
      split; [reflexivity|]. split; [intros x []|]. rewrite Hm. exact Hs.
    + assert (Hc : Js.isSpace c = true).
      { destruct (Js.isSpace c) eqn:Hc; [reflexivity|]. exfalso.
        destruct (run_bare i prev0 c tl Hc) as (block & rest0 & _ & _ & _ & _ & Hbare).
        unfold matchAt in Hm. cbn [pos prev rest] in Hm.
        unfold tokenRegex in Hm. rewrite !run_Alt, Hbare in Hm.
        destruct (run _ Some _) in Hm; [discriminate Hm|].
        destruct (run _ Some _) in Hm; discriminate Hm. }
      apply IH in Hs as (skipped & l' & -> & Hall & Hmatch).
      exists (c :: skipped), l'. split; [reflexivity|]. split.
      * intros x [<- | Hx]; [exact Hc | apply Hall; exact Hx].
      * cbn [length lastOf foldl]. rewrite Nat.add_succ_r. exact Hmatch.
Qed.

(** Every match of the tokenizer's pattern in a text gives a piece of the
    text that no word character touches on either side. *)
Lemma execAllFrom_tokens (L : list ascii) (fuel : nat) :
  forall (s : st) (done : list ascii),
    L = done ++ rest s ->
    prev s = lastOf None done ->
    isWordOpt (prev s) = false
    \/ match rest s with c :: _ => Js.isSpace c = true | [] => True end ->
    forall m, In m (execAllFrom fuel tokenRegex s) ->
      exists pre seg post,
        L = pre ++ seg ++ post
        /\ tokenOf m = Js.str seg
        /\ isWordOpt (lastOf None pre) = false
        /\ isWordOpt (head post) = false.
Proof.
  induction fuel as [|fuel IH]; intros s done HL Hprev Hinv m Hin; [destruct Hin|].
  cbn [execAllFrom] in Hin.
  destruct (searchFrom tokenRegex (pos s) (prev s) (rest s)) as [m0|] eqn:Hs; [|destruct Hin].
  apply searchFrom_token in Hs as (skipped & l' & Hrest & Hblank & Hmatch).
  assert (Hstart : lastOf (prev s) skipped = lastOf None (done ++ skipped)).
  { rewrite lastOf_app, Hprev. reflexivity. }
  assert (Hq : forall q, Js.isWord q = false -> isWordOpt (Some q) = false) by (intros q H; exact H).
  apply matchAt_token in Hmatch
    as [(q & block & rest0 & Hqw & Hqs & Hl' & Htok & Hr & Hp & _)
       | (block & rest0 & Hne & Hall & Hstop & Hl' & Htok & Hr & Hp & _)].
  - assert (HL' : L = (done ++ skipped ++ q :: block ++ [q]) ++ rest (after m0)).
    { rewrite HL, Hrest, Hl', Hr. rewrite <- !app_assoc. cbn [app].
      rewrite <- !app_assoc. reflexivity. }
    destruct Hin as [<- | Hin].
    + exists (done ++ skipped ++ [q]), block, (q :: rest0).
      split; [rewrite HL, Hrest, Hl'; rewrite <- !app_assoc; reflexivity|].
      split; [exact Htok|]. split; [|exact Hqw].
      rewrite !app_assoc. rewrite lastOf_snoc. exact Hqw.
    + apply (IH (after m0) _ HL'); [| |exact Hin].
      * rewrite Hp. rewrite !app_assoc. rewrite (app_comm_cons block [q] q).
        rewrite !app_assoc. rewrite lastOf_snoc. reflexivity.
      * left. rewrite Hp. exact Hqw.
  - assert (Hclean : isWordOpt (lastOf (prev s) skipped) = false).
    { destruct skipped as [|c0 sk].
      - cbn [lastOf foldl]. destruct Hinv as [Hinv | Hinv]; [exact Hinv|].
        exfalso. rewrite Hrest, Hl' in Hinv. cbn [app] in Hinv.
        destruct block as [|b0 block]; [congruence|]. cbn [app] in Hinv.
        rewrite (Hall b0 (or_introl eq_refl)) in Hinv. discriminate Hinv.
      - destruct (lastOf_last (prev s) (c0 :: sk)) as (c & -> & Hc); [discriminate|].
        cbn [isWordOpt]. apply space_not_word. apply Hblank. exact Hc. }
    assert (HL' : L = (done ++ skipped ++ block) ++ rest (after m0)).
    { rewrite HL, Hrest, Hl', Hr. rewrite <- !app_assoc. reflexivity. }
    destruct Hin as [<- | Hin].
    + exists (done ++ skipped), block, rest0.
      split; [rewrite HL, Hrest, Hl'; rewrite <- !app_assoc; reflexivity|].
      split; [exact Htok|]. split; [rewrite <- Hstart; exact Hclean|].
      destruct rest0 as [|c rest0]; [reflexivity|].
      cbn [head isWordOpt]. apply space_not_word. exact Hstop.
    + apply (IH (after m0) _ HL'); [| |exact Hin].
      * rewrite Hp, Hstart. rewrite (app_assoc done skipped block), <- lastOf_app. reflexivity.
      * right. rewrite Hr. exact Hstop.
Qed.

(** A token of a command is a piece of the command that no word character
    touches on either side. *)
Lemma token_in_command (command0 token : string) :
  In token (tokenizeCommand command0) ->
  exists pre post,
    command0 = pre +:+ token +:+ post
    /\ isWordOpt (lastOf None (Js.chars pre)) = false
    /\ isWordOpt (head (Js.chars post)) = false.
Proof.
  unfold tokenizeCommand. intros Hin.
  apply List.filter_In in Hin as [Hin _].
  apply List.in_map_iff in Hin as (m & <- & Hm).
  unfold execAll in Hm.
  apply (execAllFrom_tokens (Js.chars command0) _ _ []) in Hm
    as (pre & seg & post & HL & Htok & Hpre & Hpost);
    [|reflexivity|reflexivity|left; reflexivity].
  exists (Js.str pre), (Js.str post). rewrite Htok, !chars_str.
  split; [|split; assumption].
  rewrite <- (str_chars command0), HL.
  rewrite <- (str_chars (Js.str pre +:+ Js.str seg +:+ Js.str post)).
  rewrite !chars_append, !chars_str. reflexivity.
Qed.

Lemma lastOf_nonempty (p p' : option ascii) (l : list ascii) :
  l <> [] -> lastOf p l = lastOf p' l.
Proof.
  intros Hne. destruct (exists_last Hne) as (l' & c & ->).
  rewrite !lastOf_snoc. reflexivity.
Qed.

Lemma searchFrom_sound (r : re) (l : list ascii) :
  forall (i : nat) (prev0 : option ascii) (m : result),
    searchFrom r i prev0 l = Some m ->
    exists l1 l2,
      l = l1 ++ l2
      /\ matchAt r (mkSt (i + length l1) (lastOf prev0 l1) l2 []) = Some m.
Proof.
  induction l as [|c tl IH]; intros i prev0 m Hs.
  - exists [], []. cbn [length lastOf foldl app]. rewrite Nat.add_0_r.
    split; [reflexivity|].
    cbn [searchFrom] in Hs. destruct (matchAt r _); [exact Hs | discriminate Hs].
  - rewrite searchFrom_cons in Hs.
    destruct (matchAt r (mkSt i prev0 (c :: tl) [])) as [m0|] eqn:Hm.
    + exists [], (c :: tl). cbn [length lastOf foldl app]. rewrite Nat.add_0_r.
      split; [reflexivity|]. rewrite Hm. exact Hs.
    + apply IH in Hs as (l1 & l2 & -> & Hmatch).
      exists (c :: l1), l2. split; [reflexivity|].
      cbn [length lastOf foldl]. rewrite Nat.add_succ_r. exact Hmatch.
Qed.

Lemma word_boundary_left (p : option ascii) (c : ascii) (tl : list ascii) (i : nat)
  (caps0 : list (nat * list ascii)) :
  Js.isWord c = true ->
  atWordBoundary (mkSt i p (c :: tl) caps0) = negb (isWordOpt p).
Proof.
  intros Hc. unfold atWordBoundary. cbn [prev rest head isWordOpt]. rewrite Hc.
  destruct (isWordOpt p); reflexivity.
Qed.

Lemma word_boundary_right (c : ascii) (tl : list ascii) (i : nat)
  (caps0 : list (nat * list ascii)) :
  Js.isWord c = true ->
  atWordBoundary (mkSt i (Some c) tl caps0) = negb (isWordOpt (head tl)).
Proof.
  intros Hc. unfold atWordBoundary. cbn [prev rest isWordOpt]. rewrite Hc.
  destruct (isWordOpt (head tl)); reflexivity.
Qed.

(** Where the sudo pattern matches, the word stands, in some
    capitalisation, with no word character on either side. *)
Lemma sudoRegex_match_inv (i : nat) (p : option ascii) (l : list ascii) (m : result) :
  matchAt sudoRegex (mkSt i p l []) = Some m ->
  exists word tl,
    l = word ++ tl
    /\ Js.toLowerCase (Js.str word) = "sudo"
    /\ isWordOpt p = false
    /\ isWordOpt (head tl) = false.
Proof.
  unfold matchAt. cbn [pos prev rest].
  destruct (run sudoRegex Some (mkSt i p l [])) as [e|] eqn:Hrun; [|discriminate].
  intros _. unfold sudoRegex, litI, chrI in Hrun.
  cbn [Js.chars list_ascii_of_string seqOf] in Hrun.
  change (Js.lowerChar "s") with "s"%char in Hrun.
  change (Js.lowerChar "u") with "u"%char in Hrun.
  change (Js.lowerChar "d") with "d"%char in Hrun.
  change (Js.lowerChar "o") with "o"%char in Hrun.
  rewrite run_Seq, run_WordB in Hrun.
  destruct (atWordBoundary (mkSt i p l [])) eqn:Hleft; [|discriminate Hrun].
  rewrite !run_Seq in Hrun.
  destruct l as [|c1 l]; [discriminate Hrun|].
  rewrite run_cls_cons in Hrun.
  destruct (Ascii.eqb (Js.lowerChar c1) "s") eqn:H1; [|discriminate Hrun].
  rewrite !run_Seq in Hrun.
  destruct l as [|c2 l]; [discriminate Hrun|].
  rewrite run_cls_cons in Hrun.
  destruct (Ascii.eqb (Js.lowerChar c2) "u") eqn:H2; [|discriminate Hrun].
  rewrite !run_Seq in Hrun.
  destruct l as [|c3 l]; [discriminate Hrun|].
  rewrite run_cls_cons in Hrun.
  destruct (Ascii.eqb (Js.lowerChar c3) "d") eqn:H3; [|discriminate Hrun].
  rewrite ?run_Seq in Hrun.
  destruct l as [|c4 l]; [discriminate Hrun|].
  rewrite run_cls_cons in Hrun.
  destruct (Ascii.eqb (Js.lowerChar c4) "o") eqn:H4; [|discriminate Hrun].
  rewrite run_WordB in Hrun.
  destruct (atWordBoundary (mkSt (S (S (S (S i)))) (Some c4) l [])) eqn:Hright;
    [|discriminate Hrun].
  apply Ascii.eqb_eq in H1, H2, H3, H4.
  rewrite word_boundary_left in Hleft by (apply lower_letter_is_word; rewrite H1; reflexivity).
  rewrite word_boundary_right in Hright
    by (apply lower_letter_is_word; rewrite H4; reflexivity).
  exists [c1; c2; c3; c4], l. split; [reflexivity|]. split.
  - unfold Js.toLowerCase. rewrite chars_str. cbn [map]. rewrite H1, H2, H3, H4. reflexivity.
  - split; [apply negb_true_iff; exact Hleft | apply negb_true_iff; exact Hright].
Qed.

Lemma sudoRegex_test_inv (s : string) :
  test sudoRegex s = true ->
  exists pre word post,
    s = pre +:+ word +:+ post
    /\ Js.toLowerCase word = "sudo"
    /\ isWordOpt (lastOf None (Js.chars pre)) = false
    /\ isWordOpt (head (Js.chars post)) = false.
Proof.
  unfold test, exec.
  destruct (searchFrom sudoRegex 0 None (Js.chars s)) as [m|] eqn:Hs; [|discriminate].
  intros _. apply searchFrom_sound in Hs as (l1 & l2 & Hl & Hm).
  apply sudoRegex_match_inv in Hm as (word & tl & -> & Hword & Hleft & Hright).
  exists (Js.str l1), (Js.str word), (Js.str tl). rewrite !chars_str.
  split; [|split; [exact Hword | split; assumption]].
  rewrite <- (str_chars s), Hl.
  rewrite <- (str_chars (Js.str l1 +:+ Js.str word +:+ Js.str tl)).
  rewrite !chars_append, !chars_str. reflexivity.
Qed.

(** No token of a command holds a character the command does not. *)
Lemma token_chars (command0 token : string) (x : ascii) :
  In token (tokenizeCommand command0) -> In x (Js.chars token) -> In x (Js.chars command0).
Proof.
  intros Htok Hx. apply token_in_command in Htok as (pre & post & -> & _).
  rewrite !chars_append. apply in_or_app. right. apply in_or_app. left. exact Hx.
Qed.

(** A token holds the word sudo only if the command does. *)
Lemma token_sudo (command0 token : string) :
  In token (tokenizeCommand command0) ->
  test sudoRegex token = true -> test sudoRegex command0 = true.
Proof.
  intros Htok Hsudo.
  apply token_in_command in Htok as (pre & post & -> & Hpre & Hpost).
  apply sudoRegex_test_inv in Hsudo as (a & word & b & -> & Hword & Ha & Hb).
  replace (pre +:+ (a +:+ word +:+ b) +:+ post)
    with ((pre +:+ a) +:+ word +:+ (b +:+ post)).
  2:{ rewrite <- (str_chars ((pre +:+ a) +:+ word +:+ b +:+ post)).
      rewrite <- (str_chars (pre +:+ (a +:+ word +:+ b) +:+ post)).
      rewrite !chars_append, <- !app_assoc. reflexivity. }
  apply sudoRegex_finds_word; [exact Hword | |].
  - rewrite chars_append, lastOf_app.
    destruct (Js.chars a) as [|c tl] eqn:Hchars; [exact Hpre|].
    rewrite (lastOf_nonempty _ None) by discriminate. exact Ha.
  - rewrite chars_append. destruct (Js.chars b) as [|c tl]; [exact Hpost | exact Hb].
Qed.

End TokenShape.

Section ExecutorSafety.
Import Types Store Eff Repository ToolExecutor.

(** The three ways a call ends: the command is refused; approval is
    asked for; or the command, which passed [sanitizeCommand], is spawned
    once, as the tokens of the command in the workspace directory. *)
Lemma executeToolingTask_spawns (input : ToolExecutionInput) (w : World Os) :
  let command0 := commandOf input in
  let w' := after (executeToolingTask input) w in
  (ok (sanitizeCommand command0) = false
   /\ (exists r, outcomeOf (executeToolingTask input) w = Ok r /\ status r = needs_input)
   /\ ext w' = ext w
   /\ permissions (db w') = permissions (db w)
   /\ tool_registry (db w') = tool_registry (db w)
   /\ tool_events (db w') = tool_events (db w))
  \/ (ok (sanitizeCommand command0) = true
      /\ (spawned (ext w') = spawned (ext w)
          \/ exists bin0 args0,
               tokenizeCommand command0 = bin0 :: args0
               /\ spawned (ext w')
                  = spawned (ext w) ++ [mkSpawn bin0 args0 (ti_workspacePath input)])).
Proof.
  intros command0 w'. unfold w', after, outcomeOf.
  unfold executeToolingTask. fold command0.
  destruct (ok (sanitizeCommand command0)) eqn:Hok; cbn [negb]; cbv zeta.
  - right. split; [reflexivity|].
    apply sanitize_ok in Hok as (_ & _ & _ & _ & bin0 & args0 & Htok & _).
    unfold executeCommand. rewrite Htok.
    eff_unfold.
    destruct (head (selectWhere _ (tool_registry (db w)))) as [known|];
      cbn [negb bool_decide decide_rel is_Some_dec option_rect]; eff_simpl;
      (destruct (0 <? length (selectWhere _ (permissions (db w))))%nat;
       cbn [negb]; eff_simpl; [|left; reflexivity]);
      right; exists bin0, args0; (split; [reflexivity|]);
      (destruct (answer (ext w) _) as [msg|code out err]; eff_simpl;
       [|destruct (default 1 code =? 0)]; cbn [negb]; eff_simpl; reflexivity).
  - left. split; [reflexivity|]. eff_unfold.
    split; [eexists; split; reflexivity|]. repeat split; reflexivity.
Qed.

End ExecutorSafety.

Section ExecutorClaims.
Import Types Store Eff Repository ToolExecutor Scenarios.

(** C1, amended.  Whatever the objective and the candidate output, every
    subprocess the call spawns is the tokenized extracted command; its
    argv[0] is, in lower case, on the allowlist; none of its arguments
    holds one of the characters ; & | ` or the word sudo; and the text of
    the command holds none of these characters, not the word sudo and not
    the pattern rm -rf.  A command whose text holds such a character, the
    word sudo or the pattern rm -rf (each as a word of its own, in any
    capitalisation), or which has no token or a first token off the
    allowlist in lower case, makes the call return needs_input; then
    nothing is spawned and no permission, tool or tool event is written. *)
Theorem C1_spawn_only_sanitized_allowlisted :
  forall (input : ToolExecutionInput) (w : World Os),
    let command0 := commandOf input in
    let w' := after (executeToolingTask input) w in
    (forall c, c ∈ spawned (ext w') ->
       c ∈ spawned (ext w)
       \/ (tokenizeCommand command0 = bin c :: args c
           /\ Js.toLowerCase (bin c) ∈ ALLOWED_TOOLS
           /\ (forall arg, arg ∈ bin c :: args c ->
                 (forall x, x ∈ Js.chars arg -> x ∉ Js.chars ";&|`")
                 /\ Regex.test sudoRegex arg = false)
           /\ (forall x, x ∈ Js.chars command0 -> x ∉ Js.chars ";&|`")
           /\ Regex.test sudoRegex command0 = false
           /\ Regex.test rmRfRegex command0 = false))
    /\ ((exists x, x ∈ Js.chars command0 /\ x ∈ Js.chars ";&|`")
        \/ Regex.test sudoRegex command0 = true
        \/ Regex.test rmRfRegex command0 = true
        \/ (exists pre word post,
              command0 = pre +:+ word +:+ post
              /\ Js.toLowerCase word = "sudo"
              /\ Regex.isWordOpt (Regex.lastOf None (Js.chars pre)) = false
              /\ Regex.isWordOpt (head (Js.chars post)) = false)
        \/ (exists pre rm blanks rf post,
              command0 = pre +:+ rm +:+ blanks +:+ rf +:+ post
              /\ Js.toLowerCase rm = "rm"
              /\ blanks <> EmptyString
              /\ (forall c, In c (Js.chars blanks) -> Js.isSpace c = true)
              /\ Js.toLowerCase rf = "-rf"
              /\ Regex.isWordOpt (Regex.lastOf None (Js.chars pre)) = false
              /\ Regex.isWordOpt (head (Js.chars post)) = false)
        \/ (forall bin0 args0, tokenizeCommand command0 = bin0 :: args0 ->
              Js.toLowerCase bin0 ∉ ALLOWED_TOOLS) ->
        (exists r, outcomeOf (executeToolingTask input) w = Ok r /\ status r = needs_input)
        /\ spawned (ext w') = spawned (ext w)
        /\ permissions (db w') = permissions (db w)
        /\ tool_registry (db w') = tool_registry (db w)
        /\ tool_events (db w') = tool_events (db w)).
Proof.
  intros input w. cbv zeta.
  pose proof (executeToolingTask_spawns input w) as Hcases. cbv zeta in Hcases.
  set (command0 := commandOf input) in *.
  set (w' := after (executeToolingTask input) w) in *.
  destruct Hcases as [(Hbad & Hres & Hext & Hperm & Htool & Hev) | (Hok & Hspawn)].
  - split.
    + intros c Hc. left. rewrite Hext in Hc. exact Hc.
    + intros _. rewrite Hext. auto.
  - pose proof (proj1 (sanitize_ok command0) Hok)
      as (_ & Hmeta & Hsudo & Hrm & bin0 & args0 & Htok & Hallowed).
    split.
    + intros c Hc. destruct Hspawn as [Hsame | (b & a & Htok' & Hsp)].
      * left. rewrite Hsame in Hc. exact Hc.
      * rewrite Hsp in Hc. apply elem_of_app in Hc as [Hc|Hc]; [left; exact Hc|].
        apply list_elem_of_singleton in Hc. subst c. right. cbn [bin args].
        rewrite Htok in Htok'. inversion Htok'; subst b a.
        split; [exact Htok|]. split; [apply includesTool_spec; exact Hallowed|].
        split; [|split; [apply metaRegex_false; exact Hmeta | auto]].
        intros arg Harg. apply list_elem_of_In in Harg. rewrite <- Htok in Harg.
        split.
        -- intros x Hx. apply (proj1 (metaRegex_false command0) Hmeta).
           apply list_elem_of_In. apply list_elem_of_In in Hx.
           exact (token_chars command0 arg x Harg Hx).
        -- apply not_true_iff_false. intros Harg_sudo.
           pose proof (token_sudo command0 arg Harg Harg_sudo). congruence.
    + intros [(x & Hx & Hin) | [Hs | [Hr | [Hword | [Hpattern | Hnone]]]]]; exfalso.
      * exact (proj1 (metaRegex_false command0) Hmeta x Hx Hin).
      * congruence.
      * congruence.
      * destruct Hword as (pre & word & post & Hcmd & Hword & Hpre & Hpost).
        pose proof (sudoRegex_finds_word pre word post Hword Hpre Hpost) as Hfound.
        rewrite <- Hcmd in Hfound. congruence.
      * destruct Hpattern
          as (pre & rm & blanks & rf & post & Hcmd & Hrm' & Hne & Hblank & Hrf & Hpre & Hpost).
        pose proof (rmRfRegex_finds_pattern pre rm blanks rf post Hrm' Hne Hblank Hrf Hpre Hpost)
          as Hfound.
        rewrite <- Hcmd in Hfound. congruence.
      * apply (Hnone bin0 args0 Htok). apply includesTool_spec. exact Hallowed.
Qed.

(** C1, as stated, fails: for the objective NPM --version and a user
    with the npm permission, the subprocess spawned has argv[0] NPM, which
    is not on the allowlist, and the call does not return needs_input. *)
Lemma C1_counterexample_uppercase_tool :
  spawned (ext (after (executeToolingTask shoutedNpm) grantedWorld))
  = [mkSpawn "NPM" ["--version"] "/home/ada/work"]
  /\ existsb (String.eqb "NPM") ALLOWED_TOOLS = false
  /\ (status <$> match outcomeOf (executeToolingTask shoutedNpm) grantedWorld with
                 | Ok r => Some r
                 | Throw _ => None
                 end) = Some completed.
Proof.
  split; [vm_compute; reflexivity|].
  split; [vm_compute; reflexivity|].
  vm_compute. reflexivity.
Qed.

(** The sanitizer reads the text of the command and the executor spawns
    its tokens, quotes removed: git rm -rf x is refused, while the same
    command with rm in quotes is spawned as git, rm, -rf, x. *)
Example quoted_rm_rf_is_spawned :
  (status <$> match outcomeOf (executeToolingTask Cases.plainRm) Cases.gitWorld with
              | Ok r => Some r
              | Throw _ => None
              end) = Some needs_input
  /\ spawned (ext (after (executeToolingTask Cases.plainRm) Cases.gitWorld)) = []
  /\ ok (sanitizeCommand (commandOf Cases.quotedRm)) = true
  /\ spawned (ext (after (executeToolingTask Cases.quotedRm) Cases.gitWorld))
     = [mkSpawn "git" ["rm"; "-rf"; "x"] "/home/ada/work"].
Proof. vm_compute. repeat split; reflexivity. Qed.

(** The amended C1 where a command is spawned: npm --version, permitted. *)
Lemma C1_witness :
  exists c,
    c ∈ spawned (ext (after (executeToolingTask npmVersion) grantedWorld))
    /\ Js.toLowerCase (bin c) ∈ ALLOWED_TOOLS.
Proof.
  exists (mkSpawn "npm" ["--version"] "/home/ada/work").
  assert (Hin : mkSpawn "npm" ["--version"] "/home/ada/work"
                ∈ spawned (ext (after (executeToolingTask npmVersion) grantedWorld))).
  { apply list_elem_of_In. vm_compute. left. reflexivity. }
  split; [exact Hin|].
  destruct (proj1 (C1_spawn_only_sanitized_allowlisted npmVersion grantedWorld) _ Hin)
    as [Hold | (_ & Hallowed & _)].
  - apply list_elem_of_In in Hold. vm_compute in Hold. contradiction.
  - exact Hallowed.
Defined.

(** C9 at the objective npm --version for a user without permission. *)
Lemma C9_witness :
  exists result w',
    executeToolingTask npmVersion (freshWorld quietOs) = (Ok result, w')
    /\ status result = needs_approval
    /\ requestId result = Some "perm_3f2b8c1e-0000-4000-8000-000000000000".
Proof.
  destruct (C9_missing_permission_needs_approval npmVersion (freshWorld quietOs))
    as (result & w' & Hrun & Hst & Hid & _).
  - vm_compute. reflexivity.
  - intros id r Hlk. exfalso. revert Hlk.
    change (permissions (db (freshWorld quietOs))) with (∅ : gmap string PermissionRow).
    rewrite lookup_empty. discriminate.
  - exists result, w'. split; [exact Hrun|]. split; [exact Hst|].
    rewrite Hid. vm_compute. reflexivity.
Defined.

End ExecutorClaims.

(** ** Known values *)

Section KnownValues.
Import Types Store Eff Repository.

Example sha1_abc : Sha1.hex "abc" = "a9993e364706816aba3e25717850c26c9cd0d89d".
Proof. vm_compute. reflexivity. Qed.

Example sha1_empty : Sha1.hex "" = "da39a3ee5e6b4b0d3255bfef95601890afd80709".
Proof. vm_compute. reflexivity. Qed.

Example sha1_two_blocks :
  Sha1.hex "abcdbcdecdefdefgefghfghighijhijkijkljklmklmnlmnomnopnopq"
  = "84983e441c3bd26ebaae4aa1f95129e5e54670f1".
Proof. vm_compute. reflexivity. Qed.

Example memory_id_of_preference :
  MemoryService.deterministicMemoryId "u1" "preferences" "preference" = "mem_8408a14c4dca49a6".
Proof. vm_compute. reflexivity. Qed.

Example memory_rows_of_preference :
  map (fun r => (mi_key r, mi_value r))
    (MemoryService.buildMemoryRowsFromText
       "I prefer concise bullet updates. Remember this preference.")
  = [("preference", "concise bullet updates. Remember this preference.")].
Proof. vm_compute. reflexivity. Qed.

Example preference_stops_at_line_end :
  Regex.matched (Regex.exec MemoryService.preferenceRegex
                   ("I prefer tea" +:+ Js.LF +:+ "and coffee")) = None
  /\ Regex.matched (Regex.exec MemoryService.preferenceRegex
                      ("x" +:+ Js.LF +:+ "Please always:  - be kind  "))
     = Some (2%nat, "Please always:  - be kind  ", Some "Please always", Some "be kind  ")
  /\ Regex.matched (Regex.exec MemoryService.preferenceRegex "i preferably i usually go")
     = Some (13%nat, "i usually go", Some "i usually", Some "go").
Proof. vm_compute. auto. Qed.

Example correction_and_project :
  Regex.matched (Regex.exec MemoryService.correctionRegex "Actually, : no -- wait")
  = Some (0%nat, "Actually, : no -- wait", Some "Actually", Some "no -- wait")
  /\ Regex.matched (Regex.exec MemoryService.projectRegex "rebuild the build: my project")
     = Some (12%nat, "build: my project", Some "build", Some "my project").
Proof. vm_compute. auto. Qed.

Example fenced_and_object :
  Regex.matched (Regex.exec Orchestrator.fencedRegex
                   ("here ```json" +:+ Js.LF +:+ "{x}" +:+ Js.LF +:+ "``` tail ``` more"))
  = Some (5%nat, "```json" +:+ Js.LF +:+ "{x}" +:+ Js.LF +:+ "```", Some "{x}", None)
  /\ Regex.matched (Regex.exec Orchestrator.fencedRegex "```js   on ``` ")
     = Some (0%nat, "```js   on ```", Some "js   on", None)
  /\ Regex.matched (Regex.exec Orchestrator.objectRegex "a {b} c } d")
     = Some (2%nat, "{b} c }", None, None).
Proof. vm_compute. auto. Qed.

Example evidence_refs :
  Orchestrator.extractEvidenceRefs
    "see https://a.b/c) and http://x.y [Evidence:  doc 1 ] [source: https://a.b/c] https://a.b/c"
  = ["https://a.b/c"; "http://x.y"; "https://a.b/c]"; "doc 1"].
Proof. vm_compute. reflexivity. Qed.

Example error_placeholder :
  Regex.test Orchestrator.errorPlaceholder "Sorry,  I Encountered An Error" = true
  /\ Regex.test Orchestrator.errorPlaceholder "Sorry I encountered  an error" = false.
Proof. vm_compute. auto. Qed.

Example tool_pattern :
  Regex.matched (Regex.exec (ToolExecutor.toolRegex "git")
                   ("use digit git" +:+ Js.LF +:+ Js.LF +:+ "  status now" +:+ Js.LF +:+ "x"))
  = Some (10%nat, "git" +:+ Js.LF +:+ Js.LF +:+ "  status now", Some "git", None)
  /\ Regex.matched (Regex.exec (ToolExecutor.toolRegex "git") "git   ")
     = Some (0%nat, "git   ", Some "git", None)
  /\ Regex.matched (Regex.exec (ToolExecutor.toolRegex "git") ("git " +:+ Js.LF)) = None.
Proof. vm_compute. auto. Qed.

Example rm_rf_and_sudo_patterns :
  Regex.matched (Regex.exec ToolExecutor.rmRfRegex "git rm  -rf x")
  = Some (4%nat, "rm  -rf", None, None)
  /\ Regex.matched (Regex.exec ToolExecutor.rmRfRegex "git rm -rfx") = None
  /\ Regex.matched (Regex.exec ToolExecutor.rmRfRegex "farm -rf") = None
  /\ Regex.matched (Regex.exec ToolExecutor.rmRfRegex ("RM" +:+ Js.LF +:+ "-RF."))
     = Some (0%nat, "RM" +:+ Js.LF +:+ "-RF", None, None)
  /\ Regex.matched (Regex.exec ToolExecutor.sudoRegex "pseudo sudo. x")
     = Some (7%nat, "sudo", None, None).
Proof. vm_compute. repeat split; reflexivity. Qed.

Example line_prefixes :
  ToolExecutor.stripLinePrefix "  - 12) npm i" = "- 12) npm i"
  /\ ToolExecutor.stripLinePrefix "- 12) npm i" = "npm i"
  /\ ToolExecutor.stripLinePrefix "12.   * npm i " = "* npm i".
Proof. vm_compute. auto. Qed.

Example command_from_bullet :
  ToolExecutor.extractCommandCandidate
    ("Please run:" +:+ Js.LF +:+ "- NPM install left-pad" +:+ Js.LF +:+ "thanks")
  = "NPM install left-pad".
Proof. vm_compute. reflexivity. Qed.

Example command_from_prose :
  ToolExecutor.extractCommandCandidate
    ("you could try using pip  install requests" +:+ Js.LF +:+ "or not")
  = "pip  install requests".
Proof. vm_compute. reflexivity. Qed.

Example tokens_of_quoted_command :
  ToolExecutor.tokenizeCommand "git commit -m 'first try' --no-edit"
  = ["git"; "commit"; "-m"; "first try"; "--no-edit"].
Proof. vm_compute. reflexivity. Qed.

Example sanitizer_verdicts :
  map (fun c => ToolExecutor.ok (ToolExecutor.sanitizeCommand c))
    ["npm --version"; "npm i; ls"; "git rm -rf x"; "npm install farm -rf"; "SUDO npm i";
     "pseudo npm"; "ls -la"; "   "; "Yarn add x"]
  = [true; false; false; true; false; false; false; false; true].
Proof. vm_compute. reflexivity. Qed.

End KnownValues.

(** ** SQL string literals *)

Section SqlFacts.
Import Sql.

Lemma readBody_doubleQuotes (v rest0 : list ascii) :
  head rest0 <> Some "'"%char ->
  readBody (doubleQuotes v ++ "'"%char :: rest0) = Some (v, rest0).
Proof.
  intros Hrest. induction v as [|c v IH].
  - cbn [doubleQuotes app readBody]. rewrite Ascii.eqb_refl.
    destruct rest0 as [|c2 tl]; [reflexivity|].
    destruct (Ascii.eqb c2 "'") eqn:Hq; [|reflexivity].
    apply Ascii.eqb_eq in Hq. subst c2. exfalso. apply Hrest. reflexivity.
  - cbn [doubleQuotes]. destruct (Ascii.eqb c "'") eqn:Hc.
    + apply Ascii.eqb_eq in Hc. subst c.
      cbn [app readBody]. rewrite !Ascii.eqb_refl. rewrite IH. reflexivity.
    + cbn [app readBody]. rewrite Hc, IH. reflexivity.
Qed.

Lemma readLiteral_q (value : string) (rest0 : list ascii) :
  head rest0 <> Some "'"%char ->
  readLiteral (Js.chars (q value) ++ rest0) = Some (value, rest0).
Proof.
  intros Hrest. unfold q. rewrite chars_str.
  cbn [app readLiteral]. rewrite Ascii.eqb_refl.
  rewrite <- app_assoc. cbn [app].
  rewrite (readBody_doubleQuotes _ _ Hrest), str_chars. reflexivity.
Qed.

(** Two values with the same literal are the same value. *)
Lemma q_injective (v1 v2 : string) : q v1 = q v2 -> v1 = v2.
Proof.
  intros Heq.
  assert (Hnil : head (@nil ascii) <> Some "'"%char) by discriminate.
  pose proof (readLiteral_q v1 [] Hnil) as H1.
  pose proof (readLiteral_q v2 [] Hnil) as H2.
  rewrite Heq in H1. rewrite H1 in H2. inversion H2. reflexivity.
Qed.

(** A value quoted by [q] is read back by SQLite as one string literal,
    the value itself, whatever text follows the literal, as long as that
    text does not start with a quote: no value closes its literal early,
    and no two values share a literal. *)
Theorem q_reads_back (value : string) (rest0 : list ascii) :
  head rest0 <> Some "'"%char ->
  readLiteral (Js.chars (q value) ++ rest0) = Some (value, rest0)
  /\ forall other, q other = q value -> other = value.
Proof.
  intros Hrest. split; [apply readLiteral_q; exact Hrest|].
  intros other. apply q_injective.
Qed.

Lemma q_reads_back_witness :
  readLiteral (Js.chars (q "it's; DROP TABLE task_runs; --") ++ Js.chars " LIMIT 1;")
  = Some ("it's; DROP TABLE task_runs; --", Js.chars " LIMIT 1;").
Proof.
  apply (q_reads_back "it's; DROP TABLE task_runs; --" (Js.chars " LIMIT 1;")).
  vm_compute. discriminate.
Defined.

End SqlFacts.

(** ** The risk classifier *)

Section RiskFacts.
Import Types RiskClassifier.

Lemma classify_fold (objective : string) (ps : list RiskPattern) :
  forall (acc : RiskLevel * list string),
    let out := foldl (classifyStep objective) acc ps in
    snd out = snd acc ++ map reason (hits objective ps)
    /\ rank (fst acc) <= rank (fst out)
    /\ (forall p, In p (hits objective ps) -> rank (level p) <= rank (fst out))
    /\ (fst out = fst acc \/ exists p, In p (hits objective ps) /\ level p = fst out).
Proof.
  induction ps as [|p ps IH]; intros acc; cbv zeta.
  - cbn [foldl hits List.filter map]. rewrite app_nil_r.
    split; [reflexivity|]. split; [lia|].
    split; [intros p []|]. left. reflexivity.
  - change (foldl (classifyStep objective) acc (p :: ps))
      with (foldl (classifyStep objective) (classifyStep objective acc p) ps).
    destruct (IH (classifyStep objective acc p)) as (Hre & Hmono & Hall & Hsome).
    set (out := foldl (classifyStep objective) (classifyStep objective acc p) ps) in *.
    unfold hits in *. cbn [List.filter]. unfold classifyStep in Hre, Hmono, Hsome.
    destruct (Regex.test (regex p) objective) eqn:Htest.
    + cbn [fst snd map] in *.
      assert (Hstep : rank (fst acc) <= rank (fst out) /\ rank (level p) <= rank (fst out)).
      { destruct (rank (fst acc) <? rank (level p)) eqn:Hlt;
          [apply Z.ltb_lt in Hlt | apply Z.ltb_ge in Hlt]; lia. }
      split; [rewrite Hre, <- app_assoc; reflexivity|].
      split; [apply Hstep|].
      split.
      * intros p0 [<- | Hin]; [apply Hstep | apply Hall; exact Hin].
      * destruct Hsome as [Hsame | (p0 & Hin & Hlev)].
        -- destruct (rank (fst acc) <? rank (level p)).
           ++ right. exists p. split; [left; reflexivity | symmetry; exact Hsame].
           ++ left. exact Hsame.
        -- right. exists p0. split; [right; exact Hin | exact Hlev].
    + split; [exact Hre|]. split; [exact Hmono|].
      split; [exact Hall|]. exact Hsome.
Qed.

(** The risk of an objective is the highest level among the patterns it
    matches, and low when it matches none; the reasons are those of the
    matching patterns, in the order of the table, or the one default
    reason; the critical flag is set exactly when the loop budget of the
    risk is 5; and that budget is the one the loop engine enforces. *)
Theorem classifyRisk_highest_match (objective : string) :
  let c := classifyRisk objective in
  let matching := hits objective PATTERNS in
  rc_reasons c = (if Nat.eqb (length matching) 0
                  then ["No high-risk keywords detected"]
                  else map reason matching)
  /\ (forall p, In p matching -> rank (level p) <= rank (rc_risk c))
  /\ (matching = [] -> rc_risk c = low)
  /\ (matching <> [] -> exists p, In p matching /\ level p = rc_risk c)
  /\ (rc_critical c = true <-> loopBudgetForRisk (rc_risk c) = 5)
  /\ loopBudgetForRisk (rc_risk c) = LoopEngine.budgetForRisk (rc_risk c).
Proof.
  cbv zeta. unfold classifyRisk. cbn [rc_reasons rc_risk rc_critical].
  destruct (classify_fold objective PATTERNS (low, [])) as (Hre & _ & Hall & Hsome).
  cbn [fst snd app] in *.
  set (out := foldl (classifyStep objective) (low, []) PATTERNS) in *.
  set (matching := hits objective PATTERNS) in *.
  split.
  { rewrite Hre, length_map. destruct matching; reflexivity. }
  split; [exact Hall|].
  split.
  { intros Hnone. rewrite Hnone in Hsome.
    destruct Hsome as [Hlow | (p & [] & _)]. exact Hlow. }
  split.
  { intros Hsomehit. destruct Hsome as [Hlow | Hex]; [|exact Hex].
    destruct matching as [|p tl]; [congruence|].
    exists p. split; [left; reflexivity|].
    pose proof (Hall p (or_introl eq_refl)) as Hle. rewrite Hlow in *.
    destruct (level p); cbn in Hle; try lia. reflexivity. }
  split.
  { destruct (fst out); cbn; split; intros H; try reflexivity; try discriminate H; lia. }
  destruct (fst out); reflexivity.
Qed.

End RiskFacts.

(** ** Run identifiers *)

Section RunIdFacts.
Import RunIds.

Lemma safeId_chars (value : string) :
  Js.chars (safeId value)
  = take 80 (map (fun c => if isIdChar c then c else "_"%char) (Js.chars value)).
Proof. unfold safeId, Js.slice0. rewrite chars_takeStr, chars_str. reflexivity. Qed.

(** [safeId] returns at most 80 code units, all of them letters, digits,
    underscore or hyphen; it keeps the length of a shorter value, and what
    it returns it leaves alone. *)
Theorem safeId_is_safe (value : string) :
  Forall (fun c => isIdChar c = true) (Js.chars (safeId value))
  /\ Js.length (safeId value) = Nat.min (Js.length value) 80
  /\ safeId (safeId value) = safeId value.
Proof.
  assert (Hall : Forall (fun c => isIdChar c = true) (Js.chars (safeId value))).
  { rewrite safeId_chars. apply Forall_take, List.Forall_map, Forall_forall.
    intros x _. destruct (isIdChar x) eqn:Hx; [exact Hx | reflexivity]. }
  assert (Hlen : (length (Js.chars (safeId value)) <= 80)%nat).
  { rewrite safeId_chars, length_take. lia. }
  split; [exact Hall|]. split.
  - unfold Js.length. rewrite <- !length_chars, safeId_chars.
    rewrite length_take, length_map. lia.
  - assert (Hsame : Js.chars (safeId (safeId value)) = Js.chars (safeId value)).
    { rewrite (safeId_chars (safeId value)).
      rewrite (List.map_ext_Forall _ id).
      - rewrite List.map_id. apply take_ge. exact Hlen.
      - eapply Forall_impl; [exact Hall|]. intros c Hc. cbv beta. rewrite Hc. reflexivity. }
    rewrite <- (str_chars (safeId (safeId value))), Hsame. apply str_chars.
Qed.

End RunIdFacts.

(** ** Evidence references *)

Section EvidenceFacts.
Import Orchestrator.

Lemma existsb_eqb_elem (x : string) (l : list string) :
  existsb (String.eqb x) l = true <-> x ∈ l.
Proof.
  rewrite existsb_exists. split.
  - intros (y & Hin & Heq). apply String.eqb_eq in Heq. subst y.
    apply list_elem_of_In. exact Hin.
  - intros Hin. exists x. split; [apply list_elem_of_In; exact Hin | apply String.eqb_refl].
Qed.

Lemma setAdd_NoDup (x : string) (l : list string) : NoDup l -> NoDup (setAdd x l).
Proof.
  intros Hnd. unfold setAdd. destruct (existsb (String.eqb x) l) eqn:Hex; [exact Hnd|].
  apply NoDup_app. split; [exact Hnd|]. split; [|apply NoDup_singleton].
  intros y Hy Hin. apply list_elem_of_singleton in Hin. subst y.
  apply existsb_eqb_elem in Hy. congruence.
Qed.

Lemma setAdd_elem (x y : string) (l : list string) : y ∈ setAdd x l <-> y = x \/ y ∈ l.
Proof.
  unfold setAdd. destruct (existsb (String.eqb x) l) eqn:Hex.
  - apply existsb_eqb_elem in Hex. split; [auto|]. intros [-> | H]; auto.
  - rewrite elem_of_app, list_elem_of_singleton. tauto.
Qed.

Lemma foldl_setAdd {A : Type} (f : A -> string) (ms : list A) :
  forall acc, NoDup acc ->
    NoDup (foldl (fun acc m => setAdd (f m) acc) acc ms)
    /\ forall y, y ∈ foldl (fun acc m => setAdd (f m) acc) acc ms
                 <-> y ∈ acc \/ exists m, m ∈ ms /\ f m = y.
Proof.
  induction ms as [|m ms IH]; intros acc Hnd; cbn [foldl].
  - split; [exact Hnd|]. intros y. split; [auto|].
    intros [H | (m & Hm & _)]; [exact H | inversion Hm].
  - destruct (IH (setAdd (f m) acc) (setAdd_NoDup _ _ Hnd)) as [Hnd' Hin].
    split; [exact Hnd'|]. intros y. rewrite Hin, setAdd_elem. split.
    + intros [[-> | H] | (m0 & Hm0 & Hf)]; auto.
      * right. exists m. split; [left | reflexivity].
      * right. exists m0. split; [right; exact Hm0 | exact Hf].
    + intros [H | (m0 & Hm0 & Hf)]; auto.
      apply elem_of_cons in Hm0 as [-> | Hm0]; [left; left; auto|].
      right. exists m0. auto.
Qed.

(** The evidence references of a text hold no reference twice, and they
    are exactly the URLs the text shows and the trimmed contents of its
    [evidence: ...] and [source: ...] marks. *)
Theorem extractEvidenceRefs_is_a_set (text : string) :
  NoDup (extractEvidenceRefs text)
  /\ forall ref, ref ∈ extractEvidenceRefs text
       <-> (exists m, m ∈ Regex.execAll urlRegex text /\ group1 m = ref)
           \/ (exists m, m ∈ Regex.execAll evidenceRegex text /\ Js.trim (group1 m) = ref).
Proof.
  unfold extractEvidenceRefs.
  destruct (foldl_setAdd group1 (Regex.execAll urlRegex text) [] (NoDup_nil_2))
    as [Hnd1 Hin1].
  destruct (foldl_setAdd (fun m => Js.trim (group1 m)) (Regex.execAll evidenceRegex text)
              _ Hnd1) as [Hnd2 Hin2].
  split; [exact Hnd2|]. intros ref. rewrite Hin2, Hin1. split.
  - intros [[H | H] | H]; [inversion H | left; exact H | right; exact H].
  - intros [H | H]; [left; right; exact H | right; exact H].
Qed.

End EvidenceFacts.

(** ** The verifier's other paths *)

Section VerifierPaths.
Import Types Eff Orchestrator.

(** [verifyCandidate] never throws, whatever the model call and the JSON
    parser do, and its verdict names the run of the context, the verifier
    llm, and the evidence references of the candidate. *)
Theorem verifyCandidate_always_answers :
  forall (X : Type) (runOneShotPrompt : string -> string -> M X string)
         (JSON_parse : string -> res JsValue)
         (ctx : VerifyContext) (candidate : string) (w : World X),
    exists verdict w',
      verifyCandidate runOneShotPrompt JSON_parse ctx candidate w = (Ok verdict, w')
      /\ runId verdict = ctx_runId ctx
      /\ verifier verdict = "llm"
      /\ evidenceRefs verdict = extractEvidenceRefs candidate.
Proof.
  intros X runOneShotPrompt JSON_parse ctx candidate w.
  unfold verifyCandidate.
  destruct (tooShort candidate); [eexists _, _; repeat split; reflexivity|].
  destruct (Regex.test errorPlaceholder candidate);
    [eexists _, _; repeat split; reflexivity|].
  unfold catch, askVerifier, bind, liftRes, ret. cbv beta iota zeta.
  destruct (runOneShotPrompt _ _ w) as [[raw|e] w1];
    [|eexists _, _; repeat split; reflexivity].
  destruct (parseVerifierOutput JSON_parse (Js.trim raw)) as [parsed|e];
    [|eexists _, _; repeat split; reflexivity].
  destruct (notAnObject parsed); [eexists _, _; repeat split; reflexivity|].
  destruct (outcomeRawOf _); [|eexists _, _; repeat split; reflexivity].
  destruct (stringArray (getField "findings" _));
    [|eexists _, _; repeat split; reflexivity].
  destruct (stringArray (getField "required_actions" _));
    eexists _, _; repeat split; reflexivity.
Qed.

(** A candidate of fewer than 8 code units once trimmed, or one that
    holds the error placeholder, is failed on the spot: the verdict is
    critical_fail with an action to take, and no model is called (the
    world is left as it was, whatever the model would do). *)
Theorem verifyCandidate_fails_fast :
  forall (X : Type) (runOneShotPrompt : string -> string -> M X string)
         (JSON_parse : string -> res JsValue)
         (ctx : VerifyContext) (candidate : string) (w : World X),
    (Js.length (Js.trim candidate) < 8)%nat
    \/ Regex.test errorPlaceholder candidate = true ->
    exists verdict,
      verifyCandidate runOneShotPrompt JSON_parse ctx candidate w = (Ok verdict, w)
      /\ outcome verdict = critical_fail
      /\ requiredActions verdict <> [].
Proof.
  intros X runOneShotPrompt JSON_parse ctx candidate w Hfast.
  unfold verifyCandidate.
  destruct (tooShort candidate) eqn:Hshort;
    [eexists; split; [reflexivity|]; split; [reflexivity | discriminate]|].
  destruct Hfast as [Hlen | Hplace].
  - exfalso. unfold tooShort in Hshort.
    apply orb_false_iff in Hshort as [_ Hge]. apply Nat.ltb_ge in Hge. lia.
  - rewrite Hplace. eexists. split; [reflexivity|]. split; [reflexivity | discriminate].
Qed.

Lemma verifyCandidate_fails_fast_witness :
  exists verdict,
    verifyCandidate Scenarios.proseModel Scenarios.noJson Scenarios.parisContext
      "  Paris  " (Scenarios.freshWorld tt) = (Ok verdict, Scenarios.freshWorld tt)
    /\ outcome verdict = critical_fail
    /\ requiredActions verdict <> [].
Proof.
  apply verifyCandidate_fails_fast. left. vm_compute. lia.
Defined.

(** Past the two fast paths a verdict other than pass is the model's own:
    the model answered, its answer parsed to a JSON object, and the
    outcome field of that object names the verdict's outcome. *)
Theorem verifyCandidate_fail_is_the_models :
  forall (X : Type) (runOneShotPrompt : string -> string -> M X string)
         (JSON_parse : string -> res JsValue)
         (ctx : VerifyContext) (candidate : string) (w w' : World X)
         (verdict : VerificationVerdict),
    (8 <= Js.length (Js.trim candidate))%nat ->
    Regex.test errorPlaceholder candidate = false ->
    verifyCandidate runOneShotPrompt JSON_parse ctx candidate w = (Ok verdict, w') ->
    outcome verdict <> pass ->
    exists raw fields field,
      runOneShotPrompt (verifierPrompt ctx candidate) "claude-opus-4-6" w = (Ok raw, w')
      /\ parseVerifierOutput JSON_parse (Js.trim raw) = Ok (Some (JObj fields))
      /\ getField "outcome" (JObj fields) = Some field
      /\ jsString field = Ok (outcomeName (outcome verdict)).
Proof.
  intros X runOneShotPrompt JSON_parse ctx candidate w w' verdict Hlen Hplace Hrun Hfail.
  unfold verifyCandidate in Hrun.
  assert (Hshort : tooShort candidate = false).
  { unfold tooShort. apply orb_false_iff. split.
    - destruct candidate; [vm_compute in Hlen; lia | reflexivity].
    - apply Nat.ltb_ge. exact Hlen. }
  rewrite Hshort, Hplace in Hrun.
  unfold catch in Hrun.
  destruct (runOneShotPrompt (verifierPrompt ctx candidate) "claude-opus-4-6" w)
    as [[raw|e] w1] eqn:Hcall.
  2:{ unfold askVerifier in Hrun. cbv zeta in Hrun. unfold bind at 1 in Hrun.
      rewrite Hcall in Hrun. inversion Hrun; subst. cbn in Hfail. congruence. }
  destruct (parseVerifierOutput JSON_parse (Js.trim raw)) as [parsed|e] eqn:Hparse.
  2:{ unfold askVerifier in Hrun. cbv zeta in Hrun. unfold bind at 1 in Hrun.
      rewrite Hcall in Hrun. unfold bind at 1 in Hrun. unfold liftRes at 1 in Hrun.
      rewrite Hparse in Hrun. inversion Hrun; subst. cbn in Hfail. congruence. }
  rewrite (askVerifier_parsed _ _ _ _ _ _ _ _ Hcall Hparse) in Hrun.
  destruct (notAnObject parsed) eqn:Hobj;
    [inversion Hrun; subst; cbn in Hfail; congruence|].
  destruct (outcomeRawOf (default JNull parsed)) as [outcomeRaw|e] eqn:Hraw;
    [|inversion Hrun; subst; cbn in Hfail; congruence].
  destruct (stringArray (getField "findings" (default JNull parsed))) as [fs|e];
    [|inversion Hrun; subst; cbn in Hfail; congruence].
  destruct (stringArray (getField "required_actions" (default JNull parsed))) as [acts|e];
    [|inversion Hrun; subst; cbn in Hfail; congruence].
  inversion Hrun; subst verdict w'. clear Hrun. cbn [outcome verdictOf] in *.
  destruct parsed as [[| b | z | s | l | fields]|]; cbn in Hobj; try discriminate Hobj.
  - destruct b; discriminate Hobj.
  - destruct (negb (z =? 0)); discriminate Hobj.
  - destruct (Js.truthy s); discriminate Hobj.
  - cbn in Hraw. inversion Hraw; subst outcomeRaw. exfalso. apply Hfail. reflexivity.
  - cbn [default] in Hraw. unfold id in Hraw. unfold outcomeRawOf in Hraw.
    destruct (getField "outcome" (JObj fields)) as [field|] eqn:Hfield;
      [|inversion Hraw; subst outcomeRaw; exfalso; apply Hfail; reflexivity].
    destruct (jsTruthy field) eqn:Htruthy;
      [|inversion Hraw; subst outcomeRaw; exfalso; apply Hfail; reflexivity].
    exists raw, fields, field. split; [reflexivity|]. split; [exact Hparse|].
    split; [exact Hfield|]. rewrite Hraw. f_equal.
    unfold validOutcome in *.
    destruct (String.eqb outcomeRaw "pass") eqn:H1;
      [exfalso; apply Hfail; reflexivity|].
    destruct (String.eqb outcomeRaw "minor_fix") eqn:H2;
      [apply String.eqb_eq in H2; exact H2|].
    destruct (String.eqb outcomeRaw "critical_fail") eqn:H3;
      [apply String.eqb_eq in H3; exact H3|].
    destruct (String.eqb outcomeRaw "abstain") eqn:H4;
      [apply String.eqb_eq in H4; exact H4|].
    exfalso. apply Hfail. reflexivity.
Qed.

Lemma verifyCandidate_fail_is_the_models_witness :
  exists raw fields field,
    Cases.fixModel (verifierPrompt Scenarios.parisContext "The capital of France is Paris.")
      "claude-opus-4-6" (Scenarios.freshWorld tt) = (Ok raw, Scenarios.freshWorld tt)
    /\ parseVerifierOutput Cases.fixJson (Js.trim raw) = Ok (Some (JObj fields))
    /\ getField "outcome" (JObj fields) = Some field
    /\ jsString field = Ok "minor_fix".
Proof.
  apply (verifyCandidate_fail_is_the_models unit Cases.fixModel Cases.fixJson
           Scenarios.parisContext "The capital of France is Paris."
           (Scenarios.freshWorld tt) (Scenarios.freshWorld tt)
           (verdictOf Scenarios.parisContext minor_fix [] []
              (extractEvidenceRefs "The capital of France is Paris."))).
  - vm_compute. lia.
  - vm_compute. reflexivity.
  - vm_compute. reflexivity.
  - discriminate.
Defined.

End VerifierPaths.

(** ** How a loop run ends, and what it leaves in the log *)

Section LoopEnd.
Import Types Store Eff Repository LoopEngine LoopAudit.
Context {X : Type}.
Variable runId : string.
Variable callbacks : LoopCallbacks X.
Variable maxLoops : Z.

Lemma unresolved_is_resolvable (o : VerifierOutcome) :
  bool_decide (o = pass) || bool_decide (o = abstain) = false -> isResolvable o = true.
Proof. destruct o; cbn; intros H; try discriminate H; reflexivity. Qed.

Lemma settled_spec (o : VerifierOutcome) :
  bool_decide (o = pass) || bool_decide (o = abstain) = true <-> o = pass \/ o = abstain.
Proof.
  destruct o; cbn; split; intros H; try discriminate H; auto;
    destruct H as [H|H]; discriminate H.
Qed.

(** Inside the loop: a result is not exhausted exactly when its verdict
    is pass or abstain, and an exhausted one used every pass. *)
Lemma iterate_end (remaining : nat) :
  forall (iteration : Z) (generated : Generated) (verdict0 : VerificationVerdict)
         (w w' : World X) (r : LoopResult),
    (0 < remaining)%nat ->
    iteration + Z.of_nat remaining = maxLoops + 1 ->
    iterate runId callbacks maxLoops remaining iteration generated verdict0 w = (Ok r, w') ->
    (exhausted r = false <-> outcome (verdict r) = pass \/ outcome (verdict r) = abstain)
    /\ (exhausted r = true -> loopsUsed r = maxLoops).
Proof.
  induction remaining as [|n IH];
    intros iteration generated verdict0 w w' r Hpos Hinv Hrun; [lia|].
  cbn [iterate] in Hrun.
  destruct (bool_decide (outcome verdict0 = pass) || bool_decide (outcome verdict0 = abstain))
    eqn:Hsettled.
  - unfold bind, appendTaskEvent in Hrun. rewrite stamped_run in Hrun.
    unfold ret in Hrun. inversion Hrun; subst r w'. cbn [exhausted verdict loopsUsed].
    split; [|discriminate]. split; [intros _; apply settled_spec; exact Hsettled | reflexivity].
  - rewrite (unresolved_is_resolvable _ Hsettled) in Hrun. cbn [negb orb] in Hrun.
    destruct (maxLoops <=? iteration) eqn:Hlast.
    + unfold bind, appendTaskEvent in Hrun. rewrite stamped_run in Hrun.
      unfold ret in Hrun. inversion Hrun; subst r w'. cbn [exhausted verdict loopsUsed].
      apply Z.leb_le in Hlast. split; [|intros _; lia].
      split; [discriminate|]. intros Hs. apply settled_spec in Hs. congruence.
    + apply Z.leb_gt in Hlast.
      apply bind_ok in Hrun as (revised & w1 & _ & Hrun).
      apply bind_ok in Hrun as (? & w2 & _ & Hrun).
      apply bind_ok in Hrun as (verdict' & w3 & _ & Hrun).
      apply bind_ok in Hrun as (? & w4 & _ & Hrun).
      apply IH in Hrun; [exact Hrun | lia | lia].
Qed.

(** What a pass of the loop adds to the log, when the callbacks write
    none of it: one closing event, and two steps for every pass after the
    current one. *)
Lemma iterate_trail (remaining : nat) :
  callbacksKeepLogs callbacks ->
  forall (iteration : Z) (generated : Generated) (verdict0 : VerificationVerdict)
         (w w' : World X) (r : LoopResult),
    (0 < remaining)%nat ->
    iteration + Z.of_nat remaining = maxLoops + 1 ->
    iterate runId callbacks maxLoops remaining iteration generated verdict0 w = (Ok r, w') ->
    (exists t, task_events (db w') = task_events (db w) ++ [closingEvent runId r t])
    /\ Z.of_nat (length (task_steps (db w')))
       = Z.of_nat (length (task_steps (db w))) + 2 * (loopsUsed r - iteration).
Proof.
  intros (_ & Hverify & Hrevise).
  induction remaining as [|n IH];
    intros iteration generated verdict0 w w' r Hpos Hinv Hrun; [lia|].
  cbn [iterate] in Hrun.
  destruct (bool_decide (outcome verdict0 = pass) || bool_decide (outcome verdict0 = abstain))
    eqn:Hsettled.
  - unfold bind, appendTaskEvent in Hrun. rewrite stamped_run in Hrun.
    unfold ret in Hrun. inversion Hrun; subst r w'.
    cbn [db task_events task_steps with_task_events loopsUsed].
    split; [eexists; reflexivity | lia].
  - rewrite (unresolved_is_resolvable _ Hsettled) in Hrun. cbn [negb orb] in Hrun.
    destruct (maxLoops <=? iteration) eqn:Hlast.
    + unfold bind, appendTaskEvent in Hrun. rewrite stamped_run in Hrun.
      unfold ret in Hrun. inversion Hrun; subst r w'.
      cbn [db task_events task_steps with_task_events loopsUsed].
      split; [eexists; reflexivity | lia].
    + apply Z.leb_gt in Hlast.
      apply bind_ok in Hrun as (revised & w1 & Hrev & Hrun).
      apply bind_ok in Hrun as (? & w2 & Hstep1 & Hrun).
      apply bind_ok in Hrun as (verdict' & w3 & Hver & Hrun).
      apply bind_ok in Hrun as (? & w4 & Hstep2 & Hrun).
      apply IH in Hrun; [|lia|lia].
      destruct Hrun as [(t & Hev) Hsteps].
      pose proof (Hrevise (g_output generated) verdict0 (iteration + 1) w) as [Hs1 He1].
      unfold after in Hs1, He1. rewrite Hrev in Hs1, He1. cbn [snd] in Hs1, He1.
      unfold appendTaskStep in Hstep1. rewrite stamped_run in Hstep1.
      inversion Hstep1; subst w2. clear Hstep1.
      match type of Hver with
      | verify callbacks ?o ?i ?w0 = _ =>
          pose proof (Hverify o i w0) as [Hs3 He3];
          unfold after in Hs3, He3; rewrite Hver in Hs3, He3; cbn [snd] in Hs3, He3
      end.
      unfold appendTaskStep in Hstep2. rewrite stamped_run in Hstep2.
      inversion Hstep2; subst w4. clear Hstep2.
      cbn [db task_events task_steps with_task_steps] in *.
      split.
      * exists t. rewrite Hev, He3, He1. reflexivity.
      * rewrite Hsteps, length_app, Hs3, length_app, Hs1. cbn [length]. lia.
Qed.

End LoopEnd.

Section LoopEndClaims.
Import Types Store Eff Repository LoopEngine LoopAudit.

(** A run of the loop reports exhausted = false exactly when its last
    verdict is pass or abstain, and it reports exhausted = true only after
    using the whole budget of the risk level. *)
Theorem loop_gives_up_only_at_budget :
  forall (X : Type) (runId : string) (risk : RiskLevel) (callbacks : LoopCallbacks X)
         (w w' : World X) (r : LoopResult),
    runGeneratorVerifierRevisorLoop runId risk callbacks w = (Ok r, w') ->
    (exhausted r = false <-> outcome (verdict r) = pass \/ outcome (verdict r) = abstain)
    /\ (exhausted r = true -> loopsUsed r = budgetForRisk risk).
Proof.
  intros X runId risk callbacks w w' r Hrun.
  unfold runGeneratorVerifierRevisorLoop in Hrun.
  apply bind_ok in Hrun as (g & w1 & _ & Hrun).
  apply bind_ok in Hrun as (? & w2 & _ & Hrun).
  apply bind_ok in Hrun as (v & w3 & _ & Hrun).
  apply bind_ok in Hrun as (? & w4 & _ & Hrun).
  apply iterate_end in Hrun; [exact Hrun | |];
    destruct risk; vm_compute; first [reflexivity | lia].
Qed.

Lemma loop_gives_up_only_at_budget_witness :
  exists r w',
    runGeneratorVerifierRevisorLoop "run_1" high Scenarios.stubbornCallbacks
      (Scenarios.freshWorld tt) = (Ok r, w')
    /\ exhausted r = true /\ loopsUsed r = 5.
Proof.
  destruct (runGeneratorVerifierRevisorLoop "run_1" high Scenarios.stubbornCallbacks
              (Scenarios.freshWorld tt)) as [[r|e] w'] eqn:Hrun;
    [|vm_compute in Hrun; discriminate Hrun].
  exists r, w'. split; [reflexivity|].
  assert (Hex : exhausted r = true).
  { vm_compute in Hrun. inversion Hrun. reflexivity. }
  split; [exact Hex|].
  exact (proj2 (loop_gives_up_only_at_budget unit "run_1" high Scenarios.stubbornCallbacks
                  _ _ _ Hrun) Hex).
Defined.

(** With callbacks that write no log themselves, a returned run leaves
    exactly one more task event, loop_completed or loop_exhausted, which
    names the passes used and the last outcome, and exactly two more task
    steps per pass used: the generator's or revisor's, and the verifier's. *)
Theorem loop_leaves_one_closing_event :
  forall (X : Type) (runId : string) (risk : RiskLevel) (callbacks : LoopCallbacks X)
         (w w' : World X) (r : LoopResult),
    callbacksKeepLogs callbacks ->
    runGeneratorVerifierRevisorLoop runId risk callbacks w = (Ok r, w') ->
    (exists t, task_events (db w') = task_events (db w) ++ [closingEvent runId r t])
    /\ Z.of_nat (length (task_steps (db w')))
       = Z.of_nat (length (task_steps (db w))) + 2 * loopsUsed r.
Proof.
  intros X runId risk callbacks w w' r Hkeep Hrun.
  pose proof Hkeep as (Hgen & Hverify & _).
  unfold runGeneratorVerifierRevisorLoop in Hrun.
  apply bind_ok in Hrun as (g & w1 & Hg & Hrun).
  apply bind_ok in Hrun as (? & w2 & Hstep1 & Hrun).
  apply bind_ok in Hrun as (v & w3 & Hv & Hrun).
  apply bind_ok in Hrun as (? & w4 & Hstep2 & Hrun).
  apply (iterate_trail runId callbacks _ _ Hkeep) in Hrun;
    [| destruct risk; vm_compute; lia | destruct risk; reflexivity].
  destruct Hrun as [(t & Hev) Hsteps].
  pose proof (Hgen w) as [Hs1 He1].
  unfold after in Hs1, He1. rewrite Hg in Hs1, He1. cbn [snd] in Hs1, He1.
  unfold appendTaskStep in Hstep1. rewrite stamped_run in Hstep1.
  inversion Hstep1; subst w2. clear Hstep1.
  match type of Hv with
  | verify callbacks ?o ?i ?w0 = _ =>
      pose proof (Hverify o i w0) as [Hs3 He3];
      unfold after in Hs3, He3; rewrite Hv in Hs3, He3; cbn [snd] in Hs3, He3
  end.
  unfold appendTaskStep in Hstep2. rewrite stamped_run in Hstep2.
  inversion Hstep2; subst w4. clear Hstep2.
  cbn [db task_events task_steps with_task_steps] in *.
  split.
  - exists t. rewrite Hev, He3, He1. reflexivity.
  - rewrite Hsteps, length_app, Hs3, length_app, Hs1. cbn [length]. lia.
Qed.

Lemma loop_leaves_one_closing_event_witness :
  exists r w',
    runGeneratorVerifierRevisorLoop "run_1" medium Scenarios.stubbornCallbacks
      (Scenarios.freshWorld tt) = (Ok r, w')
    /\ length (task_events (db w')) = 1%nat
    /\ length (task_steps (db w')) = 6%nat.
Proof.
  destruct (runGeneratorVerifierRevisorLoop "run_1" medium Scenarios.stubbornCallbacks
              (Scenarios.freshWorld tt)) as [[r|e] w'] eqn:Hrun;
    [|vm_compute in Hrun; discriminate Hrun].
  exists r, w'. split; [reflexivity|].
  assert (Hkeep : callbacksKeepLogs Scenarios.stubbornCallbacks).
  { split; [|split]; intros; split; reflexivity. }
  destruct (loop_leaves_one_closing_event unit "run_1" medium Scenarios.stubbornCallbacks
              _ _ _ Hkeep Hrun) as [(t & Hev) Hsteps].
  assert (Hused : loopsUsed r = 3).
  { vm_compute in Hrun. inversion Hrun. reflexivity. }
  split.
  - rewrite Hev. reflexivity.
  - rewrite Hused in Hsteps. cbn in Hsteps. lia.
Defined.

End LoopEndClaims.

(** ** Remembering and reading a pending message *)

Section PendingRoundTrip.
Import Types Store Eff Repository PendingStore PendingRows.

Lemma orElse_idem (a b : string) : Js.orElse (Js.orElse a b) b = Js.orElse a b.
Proof. unfold Js.orElse. destruct a; [destruct b|]; reflexivity. Qed.

Lemma orElse_empty (a : string) : Js.orElse a "" = a.
Proof. destruct a; reflexivity. Qed.

Lemma remember_run {X : Type} (input : RememberInput) (w : World X) :
  rememberPendingMessage input w
  = (Ok tt,
     mkWorld (ext w)
       (with_pending
          (upsert mergePending (r_messageId input)
             (rememberedRow input (clock w (reads w)) (clock w (S (reads w)))))
          (db w))
       (clock w) (S (S (reads w)))).
Proof.
  unfold rememberPendingMessage, upsertChannelPendingMessage, rememberedRow.
  unfold bind, now, modifyDb, ret. cbv beta iota zeta.
  cbn [ext db clock reads pi_messageId pi_channel pi_sender pi_senderId pi_chatRef
       pi_replyRef pi_expiresAt orEmpty].
  rewrite !orElse_empty. reflexivity.
Qed.

(** A message remembered and read for its channel before it expires
    comes back with the sender it was stored with, the sender id standing
    in for a missing chat reference, and stays in the store.  It expires
    [max 1 ttl] milliseconds after the clock reading of the call, where a
    missing or zero ttl counts as ten minutes. *)
Theorem remembered_message_reads_back :
  forall (X : Type) (input : RememberInput) (w : World X),
    let w1 := after (rememberPendingMessage input) w in
    let expiry := clock w (reads w) + Z.max 1 (ttlOrDefault (r_ttlMs input)) in
    clock w1 (reads w1) < expiry ->
    exists w2,
      readPendingMessage (r_channel input) (r_messageId input) w1
      = (Ok (Some (mkDurable (r_channel input) (r_sender input) (r_senderId input)
                     (Js.orElse (orEmpty (r_chatRef input)) (r_senderId input))
                     (orEmpty (r_replyRef input)))), w2)
      /\ db w2 = db w1
      /\ (expires_at <$> channel_pending_messages (db w1) !! r_messageId input)
         = Some expiry.
Proof.
  intros X input w. cbv zeta. unfold after. rewrite remember_run. cbn [snd].
  cbn [ext db clock reads channel_pending_messages with_pending].
  intros Hfresh.
  unfold readPendingMessage, getChannelPendingMessage, deleteChannelPendingMessage.
  unfold bind, now, getDb, modifyDb, ret. cbv beta iota zeta.
  cbn [ext db clock reads fst snd channel_pending_messages with_pending].
  rewrite lookup_upsert.
  destruct (decide (r_messageId input = r_messageId input)) as [_|Hne]; [|congruence].
  apply Z.leb_gt in Hfresh.
  destruct (channel_pending_messages (db w) !! r_messageId input) as [old|];
    cbn [mergePending rememberedRow pm_channel pm_sender pm_sender_id chat_ref reply_ref
         expires_at fmap option_fmap option_map];
    rewrite String.eqb_refl; cbn [negb]; cbv beta iota; cbn [ext db clock reads];
    rewrite Hfresh; cbv beta iota;
    (eexists; split; [rewrite orElse_idem, orElse_empty; reflexivity|]);
    split; reflexivity.
Qed.

Lemma remembered_message_reads_back_witness :
  exists w2,
    readPendingMessage "telegram" "m1"
      (after (rememberPendingMessage Scenarios.telegramMessage)
         (mkWorld tt emptyDb (Scenarios.clockOf [1000; 1000; 50000] 100000) 0))
    = (Ok (Some (mkDurable "telegram" "Ada" "42" "chat42" "")), w2).
Proof.
  destruct (remembered_message_reads_back unit Scenarios.telegramMessage
              (mkWorld tt emptyDb (Scenarios.clockOf [1000; 1000; 50000] 100000) 0))
    as (w2 & Hread & _).
  - vm_compute. reflexivity.
  - exists w2. exact Hread.
Defined.

(** Reading is not read-only.  A message that is unknown, or that
    belongs to another channel, reads as null and the world stays as it
    was, the clock unread; an expired message read for its own channel
    reads as null and that one row is deleted; a message not yet expired
    reads as the row's channel, sender and sender id, its chat reference
    or else the sender id, and its reply reference, and the store stays
    as it was. *)
Theorem readPendingMessage_effects :
  forall (X : Type) (channel0 messageId : string) (w : World X),
    match channel_pending_messages (db w) !! messageId with
    | None => readPendingMessage channel0 messageId w = (Ok None, w)
    | Some row =>
        (pm_channel row <> channel0 ->
         readPendingMessage channel0 messageId w = (Ok None, w))
        /\ (pm_channel row = channel0 -> expires_at row <= clock w (reads w) ->
            exists w',
              readPendingMessage channel0 messageId w = (Ok None, w')
              /\ channel_pending_messages (db w')
                 = delete messageId (channel_pending_messages (db w)))
        /\ (pm_channel row = channel0 -> clock w (reads w) < expires_at row ->
            exists w',
              readPendingMessage channel0 messageId w
              = (Ok (Some (mkDurable (pm_channel row) (pm_sender row) (pm_sender_id row)
                             (Js.orElse (chat_ref row) (pm_sender_id row))
                             (Js.orElse (reply_ref row) ""))), w')
              /\ db w' = db w)
    end.
Proof.
  intros X channel0 messageId w.
  unfold readPendingMessage, getChannelPendingMessage, deleteChannelPendingMessage.
  unfold bind, now, getDb, modifyDb, ret. cbv beta iota zeta.
  destruct (channel_pending_messages (db w) !! messageId) as [row|]; [|reflexivity].
  split; [|split].
  - intros Hother. apply String.eqb_neq in Hother. rewrite Hother. reflexivity.
  - intros Hsame Hexp. apply String.eqb_eq in Hsame. rewrite Hsame. cbn [negb].
    apply Z.leb_le in Hexp. rewrite Hexp. eexists. split; reflexivity.
  - intros Hsame Hlive. apply String.eqb_eq in Hsame. rewrite Hsame. cbn [negb].
    apply Z.leb_gt in Hlive. rewrite Hlive. eexists. split; reflexivity.
Qed.

End PendingRoundTrip.

(** ** Task runs: create, update, look up *)

Section TaskRunRoundTrip.
Import Types Store Eff Repository Queries.

(** [createTaskRun] stores a run under a new id with both timestamps at
    the clock reading of the call, no result and no verifier outcome, and
    an empty string for every optional field left out; no other run
    changes.  Under an id already in the table it throws and the table is
    as before. *)
Theorem createTaskRun_inserts_or_throws :
  forall (X : Type) (input : CreateTaskRunInput) (w : World X),
    match task_runs (db w) !! in_runId input with
    | None =>
        exists w1 row,
          createTaskRun input w = (Ok tt, w1)
          /\ getTaskRun (in_runId input) w1 = (Ok (Some row), w1)
          /\ created_at row = clock w (reads w)
          /\ updated_at row = clock w (reads w)
          /\ status row = in_status input
          /\ sender_id row = orEmpty (in_senderId input)
          /\ conversation_id row = orEmpty (in_conversationId input)
          /\ branch_key row = orEmpty (in_branchKey input)
          /\ assigned_agent row = orEmpty (in_assignedAgent input)
          /\ result_text row = None
          /\ verifier_outcome row = None
          /\ (forall k, k <> in_runId input ->
                task_runs (db w1) !! k = task_runs (db w) !! k)
    | Some _ =>
        exists e w1, createTaskRun input w = (Throw e, w1) /\ db w1 = db w
    end.
Proof.
  intros X input w. unfold createTaskRun, getTaskRun.
  unfold bind, now, getDb, modifyDb, ret, throw. cbv beta iota zeta.
  cbn [ext db clock reads].
  destruct (task_runs (db w) !! in_runId input) as [old|] eqn:Hold.
  - eexists _, _. split; reflexivity.
  - eexists _, _. split; [reflexivity|].
    cbn [ext db clock reads task_runs with_task_runs].
    rewrite lookup_insert_eq.
    split; [reflexivity|].
    cbn [created_at updated_at status sender_id conversation_id branch_key
         assigned_agent result_text verifier_outcome].
    repeat (split; [reflexivity|]).
    intros k Hk. apply lookup_insert_ne. congruence.
Qed.

(** [updateTaskRun] never creates a run: under an unknown id it changes
    nothing in the store.  Under a known id it stamps the run with the
    clock reading, sets the fields the patch names and keeps the others,
    among them the creation time, the sender and the objective; an empty
    result text is a result text.  No other run changes. *)
Theorem updateTaskRun_patches_one_run :
  forall (X : Type) (runId : string) (p : TaskRunPatch) (w : World X),
    exists w1,
      updateTaskRun runId p w = (Ok tt, w1)
      /\ (forall k, k <> runId -> task_runs (db w1) !! k = task_runs (db w) !! k)
      /\ match task_runs (db w) !! runId with
         | None => db w1 = db w
         | Some row =>
             exists row',
               task_runs (db w1) !! runId = Some row'
               /\ updated_at row' = clock w (reads w)
               /\ created_at row' = created_at row
               /\ status row' = default (status row) (p_status p)
               /\ loop_iteration row' = default (loop_iteration row) (p_loopIteration p)
               /\ result_text row'
                  = match p_resultText p with
                    | Some s => Some s
                    | None => result_text row
                    end
               /\ sender_id row' = sender_id row
               /\ channel row' = channel row
               /\ objective row' = objective row
         end.
Proof.
  intros X runId p w. unfold updateTaskRun.
  unfold bind, now, modifyDb, ret. cbv beta iota zeta. cbn [ext db clock reads].
  eexists. split; [reflexivity|]. cbn [db task_runs with_task_runs].
  split.
  - intros k Hk. apply lookup_alter_ne. congruence.
  - destruct (task_runs (db w) !! runId) as [row|] eqn:Hrow.
    + eexists. rewrite lookup_alter_eq, Hrow. split; [reflexivity|].
      cbn. repeat split; reflexivity.
    + destruct (db w) as [runs steps events mem perms tools tevents pend metrics mevents].
      unfold with_task_runs.
      cbn [task_runs task_steps task_events memory_records permissions
           tool_registry tool_events channel_pending_messages harness_metrics
           harness_metric_events] in *.
      f_equal. apply map_eq. intros k. destruct (decide (k = runId)) as [->|Hne].
      * rewrite lookup_alter_eq, Hrow. reflexivity.
      * apply lookup_alter_ne. congruence.
Qed.

End TaskRunRoundTrip.

(** ** Permissions, metrics and the event log *)

Section StoreWrites.
Import Types Store Eff Repository Queries.

(** [upsertPermission] under an id that exists changes the status, the
    resource and the update time of that row and nothing else: the row
    keeps its user, subject, action and creation time, whatever user,
    subject and action the call names; no other row changes. *)
Theorem upsertPermission_cannot_reassign :
  forall (X : Type) (permissionId userId subject0 action0 resource0 : string)
         (st : PermissionStatus) (w : World X) (old : PermissionRow),
    permissions (db w) !! permissionId = Some old ->
    exists w1 row,
      upsertPermission permissionId userId subject0 action0 resource0 st w = (Ok tt, w1)
      /\ permissions (db w1) !! permissionId = Some row
      /\ perm_user_id row = perm_user_id old
      /\ subject row = subject old
      /\ action row = action old
      /\ perm_created_at row = perm_created_at old
      /\ perm_status row = st
      /\ resource row = resource0
      /\ perm_updated_at row = clock w (reads w)
      /\ (forall k, k <> permissionId ->
            permissions (db w1) !! k = permissions (db w) !! k).
Proof.
  intros X permissionId userId subject0 action0 resource0 st w old Hold.
  unfold upsertPermission, bind, now, modifyDb, ret. cbv beta iota zeta.
  cbn [ext db clock reads]. eexists _, _. split; [reflexivity|].
  cbn [db permissions with_permissions]. rewrite lookup_upsert.
  destruct (decide (permissionId = permissionId)) as [_|Hne]; [|congruence].
  rewrite Hold. split; [reflexivity|]. cbn.
  repeat (split; [reflexivity|]).
  intros k Hk. rewrite lookup_upsert.
  destruct (decide (permissionId = k)) as [E|_]; [congruence | reflexivity].
Qed.

Lemma upsertPermission_cannot_reassign_witness :
  exists w1 row,
    upsertPermission "perm_grant" "mallory" "docker" "execute" "tool" active
      Scenarios.grantedWorld = (Ok tt, w1)
    /\ permissions (db w1) !! "perm_grant" = Some row
    /\ perm_user_id row = "u1" /\ subject row = "npm".
Proof.
  destruct (upsertPermission_cannot_reassign _ "perm_grant" "mallory" "docker" "execute"
              "tool" active Scenarios.grantedWorld
              (mkPermission "u1" "npm" "execute" "tool" active 1 1))
    as (w1 & row & Hrun & Hrow & Hu & Hs & _).
  - vm_compute. reflexivity.
  - exists w1, row. auto.
Defined.

Lemma toDouble_safe (x : Z) : Z.abs x <= 2 ^ 53 -> Js.toDouble x = x.
Proof.
  intros Hsafe. unfold Js.toDouble. cbv zeta.
  apply Z.leb_le in Hsafe. rewrite Hsafe. reflexivity.
Qed.

Lemma incrementMetric_once {X : Type} (metricName : string) (delta : Z) (meta : JsValue)
  (w : World X) :
  let before := default 0 (metric_value <$> harness_metrics (db w) !! metricName) in
  exists w1 t,
    incrementMetric metricName delta meta w = (Ok (Js.plus before delta), w1)
    /\ (metric_value <$> harness_metrics (db w1) !! metricName)
       = Some (Js.plus before delta)
    /\ (forall other, other <> metricName ->
          harness_metrics (db w1) !! other = harness_metrics (db w) !! other)
    /\ harness_metric_events (db w1)
       = harness_metric_events (db w)
           ++ [mkMetricEvent metricName delta (orEmptyObject meta) t].
Proof.
  intros before.
  unfold incrementMetric, bind, getDb, now, modifyDb, ret. cbv beta iota zeta.
  cbn [ext db clock reads harness_metrics harness_metric_events with_metrics id].
  fold before. eexists _, _. split; [reflexivity|].
  cbn [ext db clock reads harness_metrics harness_metric_events with_metrics id].
  split; [|split].
  - rewrite lookup_upsert.
    destruct (decide (metricName = metricName)) as [_|Hne]; [|congruence].
    destruct (harness_metrics (db w) !! metricName); reflexivity.
  - intros other Hother. rewrite lookup_upsert.
    destruct (decide (metricName = other)) as [E|_]; [congruence | reflexivity].
  - reflexivity.
Qed.

(** As long as the sums stay integers of at most 2^53 in size, where the
    addition of doubles is exact, [incrementMetric] returns the stored
    value plus the delta, zero standing for a metric not yet stored; two
    calls in a row add both deltas, leave every other metric alone, and
    log one metric event each, with the metadata or else the empty
    object. *)
Theorem incrementMetric_adds_up :
  forall (X : Type) (metricName : string) (d1 d2 : Z) (m1 m2 : JsValue) (w : World X),
    let before := default 0 (metric_value <$> harness_metrics (db w) !! metricName) in
    Z.abs (before + d1) <= 2 ^ 53 ->
    Z.abs (before + d1 + d2) <= 2 ^ 53 ->
    exists w1 w2 t1 t2,
      incrementMetric metricName d1 m1 w = (Ok (before + d1), w1)
      /\ incrementMetric metricName d2 m2 w1 = (Ok (before + d1 + d2), w2)
      /\ (metric_value <$> harness_metrics (db w2) !! metricName)
         = Some (before + d1 + d2)
      /\ (forall other, other <> metricName ->
            harness_metrics (db w2) !! other = harness_metrics (db w) !! other)
      /\ harness_metric_events (db w2)
         = harness_metric_events (db w)
             ++ [mkMetricEvent metricName d1 (orEmptyObject m1) t1;
                 mkMetricEvent metricName d2 (orEmptyObject m2) t2].
Proof.
  intros X metricName d1 d2 m1 m2 w before Hsafe1 Hsafe2.
  destruct (incrementMetric_once metricName d1 m1 w) as (w1 & t1 & Hrun1 & Hv1 & Ho1 & He1).
  destruct (incrementMetric_once metricName d2 m2 w1) as (w2 & t2 & Hrun2 & Hv2 & Ho2 & He2).
  fold before in Hrun1, Hv1. rewrite Hv1 in Hrun2, Hv2. cbn [default] in Hrun2, Hv2.
  unfold id in Hrun2, Hv2. unfold Js.plus in *.
  rewrite (toDouble_safe _ Hsafe1) in *. rewrite (toDouble_safe _ Hsafe2) in *.
  exists w1, w2, t1, t2. split; [exact Hrun1|]. split; [exact Hrun2|].
  split; [exact Hv2|]. split.
  - intros other Hother. rewrite Ho2, Ho1 by exact Hother. reflexivity.
  - rewrite He2, He1, <- app_assoc. reflexivity.
Qed.

Lemma incrementMetric_adds_up_witness :
  exists w1 w2,
    incrementMetric "tooling_success_count" 2 JNull (Scenarios.freshWorld tt) = (Ok 2, w1)
    /\ incrementMetric "tooling_success_count" 3 (JObj [("runId", JStr "run_1")]) w1
       = (Ok 5, w2)
    /\ (me_metadata <$> harness_metric_events (db w2))
       = [JObj []; JObj [("runId", JStr "run_1")]].
Proof.
  destruct (incrementMetric_adds_up unit "tooling_success_count" 2 3 JNull
              (JObj [("runId", JStr "run_1")]) (Scenarios.freshWorld tt))
    as (w1 & w2 & t1 & t2 & Hrun1 & Hrun2 & _ & _ & Hev).
  - vm_compute. discriminate.
  - vm_compute. discriminate.
  - exists w1, w2. split; [exact Hrun1|]. split; [exact Hrun2|].
    rewrite Hev. reflexivity.
Defined.

(** Past 2^53 the sum is the nearest double: a metric at 2^53 stays there
    when 1 is added, and moves by 2 when 3 is added. *)
Example incrementMetric_rounds_past_2_53 :
  let w := after (incrementMetric "tooling_success_count" (2 ^ 53) JNull)
             (Scenarios.freshWorld tt) in
  outcomeOf (incrementMetric "tooling_success_count" 1 JNull) w = Ok (2 ^ 53)
  /\ outcomeOf (incrementMetric "tooling_success_count" 3 JNull) w = Ok (2 ^ 53 + 4)
  /\ outcomeOf (incrementMetric "tooling_success_count" (-1) JNull) w = Ok (2 ^ 53 - 1).
Proof. vm_compute. repeat split; reflexivity. Qed.

Lemma maxOf_snoc (l : list Z) (t : Z) :
  maxOf (l ++ [t]) = Some (match maxOf l with Some m => Z.max m t | None => t end).
Proof.
  destruct l as [|x tl]; [reflexivity|].
  cbn [app maxOf]. rewrite foldl_app. reflexivity.
Qed.

(** An event appended to a run is counted once, for its run and type
    only, and the time of the last event of that run and type is then the
    later of the old one and the new, as long as the clock reads no
    negative time (with no earlier event the old time reads as 0). *)
Theorem appendTaskEvent_is_counted :
  forall (X : Type) (runId eventType : string) (pl : JsValue) (w : World X),
    let w1 := after (appendTaskEvent runId eventType pl) w in
    let t := clock w (reads w) in
    exists n last last',
      getTaskEventCount runId eventType w = (Ok n, w)
      /\ getTaskEventCount runId eventType w1 = (Ok (n + 1), w1)
      /\ getLastTaskEventAt runId eventType w = (Ok last, w)
      /\ getLastTaskEventAt runId eventType w1 = (Ok last', w1)
      /\ t <= last' /\ (last' = t \/ last' = last)
      /\ (0 <= t -> last' = Z.max last t)
      /\ forall runId' eventType',
           runId' <> runId \/ eventType' <> eventType ->
           fst (getTaskEventCount runId' eventType' w1)
           = fst (getTaskEventCount runId' eventType' w).
Proof.
  intros X runId eventType pl w. cbv zeta.
  unfold after, appendTaskEvent. rewrite stamped_run. cbn [snd].
  unfold getTaskEventCount, getLastTaskEventAt, bind, getDb, ret.
  cbn [db task_events with_task_events fst].
  set (new := mkLog runId eventType (orEmptyObject pl) (clock w (reads w))).
  assert (Hown : isEvent runId eventType new = true).
  { unfold isEvent, new. cbn [log_key log_type]. rewrite !String.eqb_refl. reflexivity. }
  eexists _, _, _. split; [reflexivity|].
  rewrite !List.filter_app. cbn [List.filter]. rewrite Hown.
  split; [rewrite length_app; cbn [length]; f_equal; f_equal; lia|].
  split; [reflexivity|].
  rewrite map_app. cbn [map]. rewrite maxOf_snoc.
  split; [reflexivity|].
  change (log_created_at new) with (clock w (reads w)).
  split; [|split; [|split]].
  - destruct (maxOf _); cbn; lia.
  - destruct (maxOf _) as [m|]; cbn; [|left; reflexivity].
    destruct (Z.max_spec m (clock w (reads w))) as [[_ ->] | [_ ->]]; auto.
  - intros Hclock. destruct (maxOf _) as [m|]; cbn; [reflexivity | lia].
  - intros runId' eventType' Hother.
    assert (Hno : isEvent runId' eventType' new = false).
    { unfold isEvent, new. cbn [log_key log_type]. apply andb_false_iff.
      destruct Hother as [H | H]; [left | right]; apply String.eqb_neq; congruence. }
    cbn [fst]. rewrite List.filter_app. cbn [List.filter]. rewrite Hno, app_nil_r.
    reflexivity.
Qed.

End StoreWrites.

(** ** Supersession and outreach together *)

Section SupersededRuns.
Import Types Store Eff Repository.

(** A run that [supersedeNeedsInputRuns] returned is not among the runs
    [listBlockedRunsForOutreach] lists afterwards: a superseded run is
    rejected, and outreach goes to waiting runs only. *)
Theorem superseded_runs_get_no_outreach :
  forall (X : Type) (channel0 senderId : string) (beforeTs minAgeMs limit : Z)
         (w w1 w2 : World X) (ids : list string) (rows : list BlockedRunRow),
    supersedeNeedsInputRuns channel0 senderId beforeTs w = (Ok ids, w1) ->
    listBlockedRunsForOutreach minAgeMs limit w1 = (Ok rows, w2) ->
    forall id, id ∈ ids -> id ∉ map b_run_id rows.
Proof.
  intros X channel0 senderId beforeTs minAgeMs limit w w1 w2 ids rows Hsup Hlist id Hid Hin.
  destruct (String.eqb senderId "") eqn:Hempty.
  { apply String.eqb_eq in Hempty. subst senderId.
    unfold supersedeNeedsInputRuns in Hsup. cbn in Hsup. inversion Hsup; subst ids.
    inversion Hid. }
  apply String.eqb_neq in Hempty.
  destruct (supersede_run channel0 senderId beforeTs w Hempty) as (w1' & Hrun & Hruns).
  cbv zeta in Hrun. rewrite Hrun in Hsup. inversion Hsup; subst ids w1'. clear Hsup.
  unfold listBlockedRunsForOutreach, bind, now, getDb, ret in Hlist.
  cbv beta iota zeta in Hlist. cbn [ext db clock reads] in Hlist.
  inversion Hlist; subst rows w2. clear Hlist.
  rewrite map_map in Hin. apply list_elem_of_In, in_map_iff in Hin.
  destruct Hin as ([k r] & Hk & Hsel). cbn [toBlocked b_run_id fst snd] in Hk. subst k.
  apply list_elem_of_In in Hsel. unfold selectBlockedRuns in Hsel.
  apply limit_subset, elem_of_selectWhere in Hsel as [Hlk Hblocked].
  apply blockedForOutreach_spec in Hblocked as (Hst & _).
  rewrite Hruns, lookup_rejectAll in Hlk.
  destruct (decide (id ∈ map fst (selectSupersedable channel0 senderId beforeTs
                                    (task_runs (db w))))) as [_|Hno]; [|contradiction].
  destruct (task_runs (db w) !! id) as [r0|]; [|discriminate Hlk].
  cbn in Hlk. inversion Hlk; subst r. cbn [rejectRow status] in Hst.
  destruct Hst as [Hst | Hst]; discriminate Hst.
Qed.

Lemma superseded_runs_get_no_outreach_witness :
  exists ids w1 rows w2,
    supersedeNeedsInputRuns "whatsapp" "u1" 1000 Scenarios.overlapWorld = (Ok ids, w1)
    /\ listBlockedRunsForOutreach 0 100 w1 = (Ok rows, w2)
    /\ "run_a" ∈ ids /\ "run_a" ∉ map b_run_id rows.
Proof.
  destruct (supersedeNeedsInputRuns "whatsapp" "u1" 1000 Scenarios.overlapWorld)
    as [[ids|e] w1] eqn:Hsup; [|vm_compute in Hsup; discriminate Hsup].
  destruct (listBlockedRunsForOutreach 0 100 w1) as [[rows|e] w2] eqn:Hlist.
  2:{ unfold listBlockedRunsForOutreach, bind, now, getDb, ret in Hlist.
      discriminate Hlist. }
  exists ids, w1, rows, w2. split; [reflexivity|]. split; [exact Hlist|].
  assert (Hin : "run_a" ∈ ids).
  { vm_compute in Hsup. inversion Hsup. apply list_elem_of_In. cbn. auto. }
  split; [exact Hin|].
  exact (superseded_runs_get_no_outreach unit "whatsapp" "u1" 1000 0 100
           Scenarios.overlapWorld w1 w2 ids rows Hsup Hlist "run_a" Hin).
Defined.

End SupersededRuns.

(** ** Running a permitted command *)

Section PermittedRuns.
Import Types Store Eff Repository ToolExecutor.

Lemma selectWhere_some {V : Type} (p : string -> V -> bool) (m : gmap string V)
  (k : string) (v : V) :
  m !! k = Some v -> p k v = true -> (0 <? length (selectWhere p m))%nat = true.
Proof.
  intros Hk Hp.
  assert (Hin : (k, v) ∈ selectWhere p m) by (apply elem_of_selectWhere; auto).
  destruct (selectWhere p m); [inversion Hin | reflexivity].
Qed.

(** The run of [executeToolingTask] for a sanitized command whose tool
    the user may execute. *)
Lemma executeToolingTask_permitted (input : ToolExecutionInput) (w : World Os) :
  let command0 := commandOf input in
  let toolName0 := toolNameOf command0 in
  ok (sanitizeCommand command0) = true ->
  (0 <? length (selectWhere (isActiveFor (ti_userId input) toolName0 "execute")
                  (permissions (db w))))%nat = true ->
  exists result w' bin0 args0,
    executeToolingTask input w = (Ok result, w')
    /\ tokenizeCommand command0 = bin0 :: args0
    /\ spawned (ext w')
       = spawned (ext w) ++ [mkSpawn bin0 args0 (ti_workspacePath input)]
    /\ (status result = completed \/ status result = failed)
    /\ (status result = completed
        <-> exists out err,
              answer (ext w) (mkSpawn bin0 args0 (ti_workspacePath input))
              = Closed (Some 0) out err)
    /\ (exists snippet, outputSnippet result = Some snippet
                        /\ (Js.length snippet <= 8000)%nat)
    /\ permissions (db w') = permissions (db w)
    /\ (tool_status <$> tool_registry (db w') !! toolIdFromName toolName0) = Some approved.
Proof.
  intros command0 toolName0 Hok Hperm.
  pose proof (proj1 (sanitize_ok command0) Hok) as (_ & _ & _ & _ & bin0 & args0 & Htok & _).
  unfold executeToolingTask. fold command0. rewrite Hok. cbv zeta. fold toolName0.
  cbn [negb]. unfold executeCommand. rewrite Htok.
  eff_unfold.
  assert (Hsnip : forall s, (Js.length (Js.slice0 8000 s) <= 8000)%nat).
  { intros s. unfold Js.length, Js.slice0. rewrite length_takeStr. lia. }
  assert (Hreg : forall (m : gmap string ToolRow) (v : ToolRow),
            tool_status v = approved ->
            (tool_status <$> upsert mergeTool (toolIdFromName toolName0) v m
                             !! toolIdFromName toolName0) = Some approved).
  { intros m v Hv. rewrite lookup_upsert.
    destruct (decide (toolIdFromName toolName0 = toolIdFromName toolName0)) as [_|Hne];
      [|congruence].
    destruct (m !! toolIdFromName toolName0); cbn; rewrite Hv; reflexivity. }
  assert (Hzero : forall code : option Z, (default 1 code =? 0) = true <-> code = Some 0).
  { intros [z|]; cbn; [rewrite Z.eqb_eq|]; split; intros H; try discriminate H;
      congruence. }
  destruct (head (selectWhere _ (tool_registry (db w)))) as [known|];
    cbn [negb bool_decide decide_rel is_Some_dec option_rect]; eff_simpl;
    rewrite Hperm; cbn [negb]; eff_simpl;
    (destruct (answer (ext w) (mkSpawn bin0 args0 (ti_workspacePath input)))
       as [msg | code out err] eqn:Hanswer; eff_simpl;
     [ | destruct (default 1 code =? 0) eqn:Hcode ];
     cbn [negb]; eff_simpl;
     eexists _, _, bin0, args0; (split; [reflexivity|]); (split; [reflexivity|]);
     cbn [status outputSnippet spawned ext db permissions tool_registry with_metrics
          with_tool_events with_permissions with_tool_registry];
     (split; [reflexivity|]));
    (split; [auto|]).
  all: split;
    [ split;
      [ intros Hst; try discriminate Hst; rewrite Hanswer;
        apply Hzero in Hcode; subst code; eexists _, _; reflexivity
      | intros (out0 & err0 & Hclosed); rewrite Hanswer in Hclosed;
        try discriminate Hclosed; try reflexivity;
        injection Hclosed as Hc _ _; apply Hzero in Hc; congruence ]
    | split; [eexists; split; [reflexivity | apply Hsnip]|];
      split; [reflexivity|]; apply Hreg; reflexivity ].
Qed.

(** A sanitized command whose tool the user holds an active execute
    permission for is spawned exactly once, as its tokens, in the
    workspace directory.  The call reports completed exactly when the
    child closed with exit code 0, and failed for any other exit code, a
    signal or a spawn error; the output it returns is cut to 8000 code
    units; the permissions are left alone and the tool's registry row is
    set to approved. *)
Theorem permitted_command_runs_once :
  forall (input : ToolExecutionInput) (w : World Os) (id : string) (r : PermissionRow),
    let command0 := commandOf input in
    ok (sanitizeCommand command0) = true ->
    permissions (db w) !! id = Some r ->
    perm_user_id r = ti_userId input ->
    subject r = toolNameOf command0 ->
    action r = "execute" ->
    perm_status r = active ->
    exists result w' bin0 args0,
      executeToolingTask input w = (Ok result, w')
      /\ tokenizeCommand command0 = bin0 :: args0
      /\ spawned (ext w')
         = spawned (ext w) ++ [mkSpawn bin0 args0 (ti_workspacePath input)]
      /\ (status result = completed \/ status result = failed)
      /\ (status result = completed
          <-> exists out err,
                answer (ext w) (mkSpawn bin0 args0 (ti_workspacePath input))
                = Closed (Some 0) out err)
      /\ (exists snippet, outputSnippet result = Some snippet
                          /\ (Js.length snippet <= 8000)%nat)
      /\ permissions (db w') = permissions (db w)
      /\ (tool_status <$> tool_registry (db w')
                          !! toolIdFromName (toolNameOf command0)) = Some approved.
Proof.
  intros input w id r command0 Hok Hid Hu Hs Ha Hst.
  apply executeToolingTask_permitted; [exact Hok|].
  apply (selectWhere_some _ _ id r Hid). apply isActiveFor_spec. auto.
Qed.

Lemma permitted_command_runs_once_witness :
  exists result w',
    executeToolingTask Scenarios.npmVersion Scenarios.grantedWorld = (Ok result, w')
    /\ spawned (ext w') = [mkSpawn "npm" ["--version"] "/home/ada/work"]
    /\ status result = completed.
Proof.
  destruct (permitted_command_runs_once Scenarios.npmVersion Scenarios.grantedWorld
              "perm_grant" (mkPermission "u1" "npm" "execute" "tool" active 1 1))
    as (result & w' & bin0 & args0 & Hrun & Htok & Hsp & _ & Hdone & _);
    try (vm_compute; reflexivity).
  exists result, w'. split; [exact Hrun|].
  assert (Hargv : bin0 = "npm" /\ args0 = ["--version"]).
  { vm_compute in Htok. inversion Htok. auto. }
  destruct Hargv as [-> ->]. split; [exact Hsp|].
  apply Hdone. eexists _, _. vm_compute. reflexivity.
Defined.

End PermittedRuns.

(** ** Approving and blocking a tool *)

Section ToolServiceFacts.
Import Types Store Eff Repository ToolExecutor ToolService.

(** What [approveTool] and [blockTool] have in common: the registry row
    and a permission row under a new id. *)
Lemma decideTool_run (name0 userId : string) (trust : TrustClass) (st : ToolStatus)
  (pst : PermissionStatus) (meta : JsValue) (msg : string) (w : World Os) :
  let toolId := toolIdFromName name0 in
  let permissionId := "perm_" +:+ uuids (ext w) (draws (ext w)) in
  (upsertTool toolId name0 "manual" trust st meta ;;;
   uuid <- randomUUID ;;
   upsertPermission ("perm_" +:+ uuid) userId name0 "execute" "tool" pst ;;;
   ret msg)%eff w
  = (Ok msg,
     mkWorld
       (mkOs (uuids (ext w)) (S (draws (ext w))) (answer (ext w)) (spawned (ext w)))
       (with_permissions
          (upsert mergePermission permissionId
             (mkPermission userId name0 "execute" "tool" pst
                (clock w (S (reads w))) (clock w (S (reads w)))))
          (with_tool_registry
             (upsert mergeTool toolId
                (mkTool name0 "manual" trust st (clock w (reads w)) (orEmptyObject meta)
                   (clock w (reads w)) (clock w (reads w))))
             (db w)))
       (clock w) (S (S (reads w)))).
Proof. reflexivity. Qed.

(** [approveTool] with a new UUID leaves the user with an active execute
    permission on the name as given: [toolPermissionStatus] answers
    active.  The registry row of the tool is approved and curated, and
    no permission row under another id changes. *)
Theorem approveTool_grants_execute :
  forall (name0 userId : string) (w : World Os),
    let permissionId := "perm_" +:+ uuids (ext w) (draws (ext w)) in
    permissions (db w) !! permissionId = None ->
    exists msg w1,
      approveTool name0 userId w = (Ok msg, w1)
      /\ toolPermissionStatus userId name0 w1 = (Ok "active", w1)
      /\ permissions (db w1) !! permissionId
         = Some (mkPermission userId name0 "execute" "tool" active
                   (clock w (S (reads w))) (clock w (S (reads w))))
      /\ (forall k, k <> permissionId ->
            permissions (db w1) !! k = permissions (db w) !! k)
      /\ (exists row, tool_registry (db w1) !! toolIdFromName name0 = Some row
                      /\ tool_status row = approved /\ trust_class row = curated).
Proof.
  intros name0 userId w permissionId Hfresh.
  unfold approveTool. cbv zeta. rewrite decideTool_run. fold permissionId.
  eexists _, _. split; [reflexivity|].
  assert (Hrow : upsert mergePermission permissionId
                   (mkPermission userId name0 "execute" "tool" active
                      (clock w (S (reads w))) (clock w (S (reads w))))
                   (permissions (db w)) !! permissionId
                 = Some (mkPermission userId name0 "execute" "tool" active
                           (clock w (S (reads w))) (clock w (S (reads w))))).
  { rewrite lookup_upsert.
    destruct (decide (permissionId = permissionId)) as [_|Hne]; [|congruence].
    rewrite Hfresh. reflexivity. }
  split; [|split; [|split]].
  - unfold toolPermissionStatus, hasActivePermission, bind, getDb, ret.
    cbn [db permissions with_permissions with_tool_registry].
    rewrite (selectWhere_some _ _ _ _ Hrow); [reflexivity|].
    apply isActiveFor_spec. cbn. auto.
  - exact Hrow.
  - intros k Hk. cbn [db permissions with_permissions with_tool_registry].
    rewrite lookup_upsert.
    destruct (decide (permissionId = k)) as [E|_]; [congruence | reflexivity].
  - cbn [db tool_registry with_permissions with_tool_registry]. rewrite lookup_upsert.
    destruct (decide (toolIdFromName name0 = toolIdFromName name0)) as [_|Hne];
      [|congruence].
    eexists. split; [reflexivity|].
    destruct (tool_registry (db w) !! toolIdFromName name0); cbn; auto.
Qed.

Lemma approveTool_grants_execute_witness :
  exists msg w1,
    approveTool "git" "u1" (Scenarios.freshWorld Scenarios.quietOs) = (Ok msg, w1)
    /\ toolPermissionStatus "u1" "git" w1 = (Ok "active", w1).
Proof.
  destruct (approveTool_grants_execute "git" "u1" (Scenarios.freshWorld Scenarios.quietOs))
    as (msg & w1 & Hrun & Hstatus & _).
  - reflexivity.
  - exists msg, w1. auto.
Defined.

Lemma approveTool_run_permission (name0 userId : string) (w : World Os) :
  let permissionId := "perm_" +:+ uuids (ext w) (draws (ext w)) in
  permissions (db w) !! permissionId = None ->
  let w1 := after (approveTool name0 userId) w in
  permissions (db w1) !! permissionId
  = Some (mkPermission userId name0 "execute" "tool" active
            (clock w (S (reads w))) (clock w (S (reads w))))
  /\ spawned (ext w1) = spawned (ext w).
Proof.
  intros permissionId Hfresh. cbv zeta.
  unfold after, approveTool. cbv zeta. rewrite decideTool_run. fold permissionId.
  cbn [snd ext db spawned permissions with_permissions with_tool_registry].
  split; [|reflexivity]. rewrite lookup_upsert.
  destruct (decide (permissionId = permissionId)) as [_|Hne]; [|congruence].
  rewrite Hfresh. reflexivity.
Qed.

(** After [approveTool] for the tool a sanitized command names, with a
    new UUID, [executeToolingTask] of that user no longer asks for
    approval: it spawns the command, once. *)
Theorem approved_tool_is_executed :
  forall (input : ToolExecutionInput) (w : World Os),
    let command0 := commandOf input in
    let permissionId := "perm_" +:+ uuids (ext w) (draws (ext w)) in
    ok (sanitizeCommand command0) = true ->
    permissions (db w) !! permissionId = None ->
    let w1 := after (approveTool (toolNameOf command0) (ti_userId input)) w in
    exists result w2 bin0 args0,
      executeToolingTask input w1 = (Ok result, w2)
      /\ tokenizeCommand command0 = bin0 :: args0
      /\ spawned (ext w2)
         = spawned (ext w) ++ [mkSpawn bin0 args0 (ti_workspacePath input)]
      /\ (status result = completed \/ status result = failed).
Proof.
  intros input w command0 permissionId Hok Hfresh. cbv zeta.
  destruct (approveTool_run_permission (toolNameOf command0) (ti_userId input) w Hfresh)
    as (Hrow & Hspawned).
  fold permissionId in Hrow.
  destruct (executeToolingTask_permitted input
              (after (approveTool (toolNameOf command0) (ti_userId input)) w))
    as (result & w2 & bin0 & args0 & Hrun & Htok & Hsp & Hst & _).
  - exact Hok.
  - apply (selectWhere_some _ _ _ _ Hrow). apply isActiveFor_spec. cbn. auto.
  - exists result, w2, bin0, args0. split; [exact Hrun|]. split; [exact Htok|].
    split; [rewrite Hsp, Hspawned; reflexivity | exact Hst].
Qed.

Lemma approved_tool_is_executed_witness :
  exists result w2,
    executeToolingTask Scenarios.npmVersion
      (after (approveTool (toolNameOf (commandOf Scenarios.npmVersion))
                (ti_userId Scenarios.npmVersion))
         (Scenarios.freshWorld Scenarios.quietOs)) = (Ok result, w2)
    /\ length (spawned (ext w2)) = 1%nat.
Proof.
  destruct (approved_tool_is_executed Scenarios.npmVersion
              (Scenarios.freshWorld Scenarios.quietOs))
    as (result & w2 & bin0 & args0 & Hrun & _ & Hsp & _).
  - vm_compute. reflexivity.
  - reflexivity.
  - exists result, w2. split; [exact Hrun|]. rewrite Hsp. reflexivity.
Defined.

(** [blockTool] marks the registry row of the tool blocked and records a
    revoked permission under a new id.  It changes no permission row under
    another id: an execute permission granted earlier stays active, and
    [toolPermissionStatus] still answers active for it. *)
Theorem blockTool_keeps_earlier_permissions :
  forall (name0 userId : string) (w : World Os),
    let permissionId := "perm_" +:+ uuids (ext w) (draws (ext w)) in
    exists msg w1,
      blockTool name0 userId w = (Ok msg, w1)
      /\ (exists row, tool_registry (db w1) !! toolIdFromName name0 = Some row
                      /\ tool_status row = blocked /\ trust_class row = unknown)
      /\ (exists row, permissions (db w1) !! permissionId = Some row
                      /\ perm_status row = revoked)
      /\ (forall k, k <> permissionId ->
            permissions (db w1) !! k = permissions (db w) !! k)
      /\ (forall k r, k <> permissionId ->
            permissions (db w) !! k = Some r ->
            perm_user_id r = userId -> subject r = name0 -> action r = "execute" ->
            perm_status r = active ->
            toolPermissionStatus userId name0 w1 = (Ok "active", w1)).
Proof.
  intros name0 userId w permissionId.
  unfold blockTool. cbv zeta. rewrite decideTool_run. fold permissionId.
  eexists _, _. split; [reflexivity|].
  assert (Hother : forall k, k <> permissionId ->
            upsert mergePermission permissionId
              (mkPermission userId name0 "execute" "tool" revoked
                 (clock w (S (reads w))) (clock w (S (reads w))))
              (permissions (db w)) !! k = permissions (db w) !! k).
  { intros k Hk. rewrite lookup_upsert.
    destruct (decide (permissionId = k)) as [E|_]; [congruence | reflexivity]. }
  cbn [db tool_registry permissions with_permissions with_tool_registry].
  split; [|split; [|split; [exact Hother|]]].
  - rewrite lookup_upsert.
    destruct (decide (toolIdFromName name0 = toolIdFromName name0)) as [_|Hne];
      [|congruence].
    eexists. split; [reflexivity|].
    destruct (tool_registry (db w) !! toolIdFromName name0); cbn; auto.
  - rewrite lookup_upsert.
    destruct (decide (permissionId = permissionId)) as [_|Hne]; [|congruence].
    eexists. split; [reflexivity|].
    destruct (permissions (db w) !! permissionId); reflexivity.
  - intros k r Hk Hlk Hu Hs Ha Hst.
    unfold toolPermissionStatus, hasActivePermission, bind, getDb, ret.
    cbn [db permissions with_permissions with_tool_registry].
    rewrite (selectWhere_some _ _ k r); [reflexivity | |].
    + rewrite Hother by exact Hk. exact Hlk.
    + apply isActiveFor_spec. auto.
Qed.

(** A user approved for npm, then blocked: the command still runs. *)
Example blocked_tool_still_runs :
  let w1 := after (approveTool "npm" "u1") (Scenarios.freshWorld Scenarios.quietOs) in
  let w2 := after (blockTool "npm" "u1") w1 in
  outcomeOf (toolPermissionStatus "u1" "npm") w2 = Ok "active"
  /\ spawned (ext (after (executeToolingTask Scenarios.npmVersion) w2))
     = [mkSpawn "npm" ["--version"] "/home/ada/work"].
Proof. vm_compute. split; reflexivity. Qed.

End ToolServiceFacts.

(** ** Forgetting memory records *)

Section ForgetFacts.
Import Types Store Eff Repository Queries MemoryCommands.

Lemma aboutTopic_user (userId topic k : string) (r : MemoryRow) :
  aboutTopic userId topic k r = true -> user_id r = userId.
Proof.
  unfold aboutTopic. intros H. apply andb_true_iff in H as [H _].
  apply String.eqb_eq. exact H.
Qed.

Lemma truthy_trim (s : string) : Js.truthy (Js.trim s) = true -> Js.truthy s = true.
Proof. destruct s; [intros H; vm_compute in H; discriminate H | reflexivity]. Qed.

Lemma forgetMemory_run {X : Type} (userId topic : string) (w : World X) :
  forgetMemory userId topic w
  = (Ok (Z.of_nat (length (selectWhere (aboutTopic userId topic) (memory_records (db w))))),
     mkWorld (ext w)
       (with_memory_records (deleteWhere (aboutTopic userId topic)) (db w))
       (clock w) (reads w)).
Proof. reflexivity. Qed.

Lemma forgetMemoryForUser_topic_run (X : Type) (userId topic : string) (w : World X) :
  Js.truthy (Js.trim topic) = true ->
  exists msg w1,
    forgetMemoryForUser userId topic w = (Ok msg, w1)
    /\ (forall k r, memory_records (db w1) !! k = Some r
          <-> memory_records (db w) !! k = Some r
              /\ ~ (user_id r = userId
                    /\ (sqlLike (key r) ("%" +:+ topic +:+ "%") = true
                        \/ sqlLike (value r) ("%" +:+ topic +:+ "%") = true)))
    /\ listMemory userId topic w1 = (Ok [], w1).
Proof.
  intros Htopic. unfold forgetMemoryForUser. rewrite Htopic. cbn [negb].
  unfold bind at 1. rewrite forgetMemory_run. unfold ret.
  eexists _, _. split; [reflexivity|].
  cbn [db memory_records with_memory_records].
  split.
  - intros k r. rewrite lookup_deleteWhere.
    destruct (memory_records (db w) !! k) as [r0|];
      [|split; [discriminate | intros [H _]; discriminate H]].
    assert (Hspec : forall r1, aboutTopic userId topic k r1 = true
              <-> user_id r1 = userId
                  /\ (sqlLike (key r1) ("%" +:+ topic +:+ "%") = true
                      \/ sqlLike (value r1) ("%" +:+ topic +:+ "%") = true)).
    { intros r1. unfold aboutTopic.
      rewrite andb_true_iff, orb_true_iff, String.eqb_eq. reflexivity. }
    destruct (aboutTopic userId topic k r0) eqn:Habout.
    + split; [discriminate|]. intros [Heq Hnot]. inversion Heq; subst r0.
      exfalso. apply Hnot, Hspec. exact Habout.
    + split.
      * intros Heq. inversion Heq; subst r0. split; [reflexivity|].
        intros Hyes. apply Hspec in Hyes. congruence.
      * intros [Heq _]. exact Heq.
  - unfold listMemory, bind, getDb, ret. cbn [db memory_records with_memory_records].
    rewrite (truthy_trim _ Htopic).
    assert (Hnone : selectWhere (aboutTopic userId topic)
                      (deleteWhere (aboutTopic userId topic) (memory_records (db w))) = []).
    { apply selectWhere_nil. intros k v. rewrite lookup_deleteWhere.
      destruct (memory_records (db w) !! k) as [v0|]; [|discriminate].
      destruct (aboutTopic userId topic k v0) eqn:Hv0; [discriminate|].
      intros Heq. inversion Heq; subst v0. exact Hv0. }
    rewrite Hnone. reflexivity.
Qed.

(** [forgetMemoryForUser] with a blank topic answers with a request for
    a topic and deletes nothing.  With any other topic it deletes exactly
    the records of that user whose key or value is LIKE %topic%, and no
    record of another user; [listMemory] for the same user and topic then
    finds nothing. *)
Theorem forgetMemoryForUser_forgets_the_topic :
  forall (X : Type) (userId topic : string) (w : World X),
    if Js.truthy (Js.trim topic) then
      exists msg w1,
        forgetMemoryForUser userId topic w = (Ok msg, w1)
        /\ (forall k r, memory_records (db w1) !! k = Some r
              <-> memory_records (db w) !! k = Some r
                  /\ ~ (user_id r = userId
                        /\ (sqlLike (key r) ("%" +:+ topic +:+ "%") = true
                            \/ sqlLike (value r) ("%" +:+ topic +:+ "%") = true)))
        /\ listMemory userId topic w1 = (Ok [], w1)
    else
      forgetMemoryForUser userId topic w = (Ok "Please provide a topic to forget.", w).
Proof.
  intros X userId topic w.
  destruct (Js.truthy (Js.trim topic)) eqn:Htopic.
  - apply forgetMemoryForUser_topic_run. exact Htopic.
  - unfold forgetMemoryForUser. rewrite Htopic. reflexivity.
Qed.

Lemma likeFrom_percent (t : list ascii) : likeFrom ["%"%char] t = true.
Proof.
  induction t as [|c t IH]; [reflexivity|].
  cbn [likeFrom] in *. rewrite Ascii.eqb_refl in *. cbn [orb]. exact IH.
Qed.

Lemma likeFrom_percent_cons (p t : list ascii) :
  likeFrom p t = true -> likeFrom ("%"%char :: p) t = true.
Proof.
  intros H. cbn [likeFrom]. rewrite Ascii.eqb_refl.
  destruct t; rewrite H; reflexivity.
Qed.

Lemma likeFrom_percents (p t : list ascii) :
  p <> [] -> Forall (fun c => c = "%"%char) p -> likeFrom p t = true.
Proof.
  intros Hne Hall. induction Hall as [|c p -> Hall IH]; [congruence|].
  destruct p as [|c2 p]; [apply likeFrom_percent|].
  apply likeFrom_percent_cons. apply IH. discriminate.
Qed.

(** The topic is a LIKE pattern, not a plain text: a topic made of
    percent signs matches every key, so [forgetMemoryForUser] then deletes
    every record of the user, and the records of no other user. *)
Theorem forgetMemoryForUser_percent_forgets_all :
  forall (X : Type) (userId topic : string) (w : World X),
    topic <> "" ->
    Forall (fun c => c = "%"%char) (Js.chars topic) ->
    exists msg w1,
      forgetMemoryForUser userId topic w = (Ok msg, w1)
      /\ forall k r, memory_records (db w1) !! k = Some r
           <-> memory_records (db w) !! k = Some r /\ user_id r <> userId.
Proof.
  intros X userId topic w Hne Hall.
  assert (Hlike : forall text, sqlLike text ("%" +:+ topic +:+ "%") = true).
  { intros text. unfold sqlLike. apply likeFrom_percents.
    - discriminate.
    - rewrite !chars_append. apply Forall_app. split; [repeat constructor|].
      apply Forall_app. split; [exact Hall | repeat constructor]. }
  assert (Htrim : Js.truthy (Js.trim topic) = true).
  { assert (Hkeep : forall l, Forall (fun c => c = "%"%char) l -> Js.trimChars l = l).
    { intros l Hl. unfold Js.trimChars.
      assert (Hdrop : forall l0, Forall (fun c => c = "%"%char) l0 -> Js.dropSpace l0 = l0).
      { intros l0 H0. destruct H0 as [|c l0 -> _]; reflexivity. }
      rewrite (Hdrop l Hl), (Hdrop (rev l)), rev_involutive; [reflexivity|].
      apply Forall_rev. exact Hl. }
    unfold Js.trim. rewrite (Hkeep _ Hall), str_chars.
    destruct topic; [congruence | reflexivity]. }
  pose proof (forgetMemoryForUser_topic_run X userId topic w Htrim) as (msg & w1 & Hrun & Hrows & _).
  exists msg, w1. split; [exact Hrun|].
  intros k r. rewrite Hrows. split.
  - intros [Hk Hnot]. split; [exact Hk|]. intros Hu. apply Hnot.
    split; [exact Hu | left; apply Hlike].
  - intros [Hk Hu]. split; [exact Hk|]. intros [Hu' _]. contradiction.
Qed.

Lemma forgetMemoryForUser_percent_forgets_all_witness :
  exists msg w1,
    forgetMemoryForUser "u1" "%" Scenarios.frenchWorld = (Ok msg, w1)
    /\ memory_records (db w1) !! Scenarios.preferenceId = None.
Proof.
  destruct (forgetMemoryForUser_percent_forgets_all unit "u1" "%" Scenarios.frenchWorld)
    as (msg & w1 & Hrun & Hrows).
  - discriminate.
  - repeat constructor.
  - exists msg, w1. split; [exact Hrun|].
    destruct (memory_records (db w1) !! Scenarios.preferenceId) as [r|] eqn:Hr;
      [|reflexivity].
    apply Hrows in Hr as [Hk Hu]. exfalso. apply Hu.
    vm_compute in Hk. inversion Hk. reflexivity.
Defined.

End ForgetFacts.

(** ** Objective tokens and tool ids *)

Section TokenFacts.
Import MemoryCommands ToolExecutor.

Lemma dropSpace_Forall (P : ascii -> Prop) (l : list ascii) :
  Forall P l -> Forall P (Js.dropSpace l).
Proof.
  induction 1 as [|c l Hc Hl IH]; [constructor|].
  cbn [Js.dropSpace]. destruct (Js.isSpace c); [exact IH | constructor; assumption].
Qed.

Lemma trim_Forall (P : ascii -> Prop) (s : string) :
  Forall P (Js.chars s) -> Forall P (Js.chars (Js.trim s)).
Proof.
  intros H. unfold Js.trim, Js.trimChars. rewrite chars_str.
  apply Forall_rev, dropSpace_Forall, Forall_rev, dropSpace_Forall. exact H.
Qed.

Lemma splitWords_alnum (l : list ascii) :
  forall (cur : list ascii) (inRun : bool),
    Forall (fun c => isLowerAlnum c = true) cur ->
    Forall (fun piece => Forall (fun c => isLowerAlnum c = true) (Js.chars piece))
      (splitWords cur inRun l).
Proof.
  induction l as [|c l IH]; intros cur inRun Hcur; cbn [splitWords].
  - constructor; [|constructor]. rewrite chars_str. apply Forall_rev. exact Hcur.
  - destruct (isLowerAlnum c) eqn:Hc.
    + apply IH. constructor; assumption.
    + destruct inRun.
      * apply IH. exact Hcur.
      * constructor; [rewrite chars_str; apply Forall_rev; exact Hcur|].
        apply IH. constructor.
Qed.

(** [tokenizeObjective] returns at most 24 tokens, each of at least three
    code units, all of them lower-case letters or digits. *)
Theorem tokenizeObjective_tokens (input : string) :
  (length (tokenizeObjective input) <= 24)%nat
  /\ Forall (fun token => (3 <= Js.length token)%nat
                          /\ Forall (fun c => isLowerAlnum c = true) (Js.chars token))
       (tokenizeObjective input).
Proof.
  unfold tokenizeObjective. split; [rewrite length_take; lia|].
  apply Forall_take, Forall_forall. intros token Hin.
  apply list_elem_of_In, filter_In in Hin as [Hin Hlen].
  apply Nat.leb_le in Hlen. split; [exact Hlen|].
  apply in_map_iff in Hin as (piece & <- & Hpiece).
  apply trim_Forall.
  pose proof (splitWords_alnum (Js.chars (Js.toLowerCase input)) [] false (List.Forall_nil _))
    as Hall.
  rewrite Forall_forall in Hall. apply Hall, list_elem_of_In. exact Hpiece.
Qed.

Lemma lowerChar_idem (c : ascii) : Js.lowerChar (Js.lowerChar c) = Js.lowerChar c.
Proof. destruct c as [[] [] [] [] [] [] [] []]; vm_compute; reflexivity. Qed.

Lemma toLowerCase_idem (s : string) : Js.toLowerCase (Js.toLowerCase s) = Js.toLowerCase s.
Proof.
  unfold Js.toLowerCase. rewrite chars_str, List.map_map. f_equal.
  apply List.map_ext. intros c. apply lowerChar_idem.
Qed.

Lemma slug_chars (l : list ascii) :
  forall inRun : bool,
    Forall (fun c => isLowerAlnum c = true \/ c = "_"%char) (slug inRun l).
Proof.
  induction l as [|c l IH]; intros inRun; cbn [slug]; [constructor|].
  destruct (isLowerAlnum c) eqn:Hc.
  - constructor; [left; exact Hc | apply IH].
  - destruct inRun; [apply IH|]. constructor; [right; reflexivity | apply IH].
Qed.

(** A tool id is [tool_] followed by lower-case letters, digits and
    underscores only, and it does not depend on the case of the name:
    the name as given and the lower-cased name share one registry row. *)
Theorem toolIdFromName_is_a_slug (name0 : string) :
  (exists body,
     toolIdFromName name0 = "tool_" +:+ Js.str body
     /\ Forall (fun c => isLowerAlnum c = true \/ c = "_"%char) body)
  /\ toolIdFromName (Js.toLowerCase name0) = toolIdFromName name0.
Proof.
  split.
  - eexists. split; [reflexivity|]. apply slug_chars.
  - unfold toolIdFromName. rewrite toLowerCase_idem. reflexivity.
Qed.

End TokenFacts.

(** ** The captured output of a child process *)

Section OutputFacts.
Import ToolExecutor.

(** The last [n] elements of a list. *)
Lemma lastN_app {A : Type} (n : nat) (a b : list A) :
  drop (length (drop (length a - n) a ++ b) - n) (drop (length a - n) a ++ b)
  = drop (length (a ++ b) - n) (a ++ b).
Proof.
  rewrite !length_app, length_drop.
  destruct (le_lt_dec n (length a)) as [Hge | Hlt].
  - replace (length a - (length a - n) + length b - n)%nat with (length b) by lia.
    replace (length a + length b - n)%nat with ((length a - n) + length b)%nat by lia.
    rewrite <- drop_drop. rewrite (drop_app_le a b (length a - n)) by lia.
    reflexivity.
  - replace (length a - n)%nat with 0%nat by lia. rewrite !drop_0.
    replace (length a - 0 + length b - n)%nat with (length a + length b - n)%nat by lia.
    reflexivity.
Qed.

Lemma appendBounded_chars (prev nextChunk : string) :
  Js.chars (appendBounded prev nextChunk)
  = drop (length (Js.chars prev ++ Js.chars nextChunk) - MAX_OUTPUT_BYTES)
         (Js.chars prev ++ Js.chars nextChunk).
Proof.
  unfold appendBounded. cbv zeta. rewrite <- chars_append.
  unfold Js.length. rewrite <- length_chars.
  destruct (Nat.leb (length (Js.chars (prev +:+ nextChunk))) MAX_OUTPUT_BYTES) eqn:Hle.
  - apply Nat.leb_le in Hle.
    replace (length (Js.chars (prev +:+ nextChunk)) - MAX_OUTPUT_BYTES)%nat with 0%nat by lia.
    rewrite drop_0. reflexivity.
  - rewrite chars_str. reflexivity.
Qed.

Lemma capture_chars (chunks : list string) :
  forall (acc : string) (seen : list ascii),
    Js.chars acc = drop (length seen - MAX_OUTPUT_BYTES) seen ->
    Js.chars (foldl appendBounded acc chunks)
    = drop (length (seen ++ concat (map Js.chars chunks)) - MAX_OUTPUT_BYTES)
           (seen ++ concat (map Js.chars chunks)).
Proof.
  induction chunks as [|c chunks IH]; intros acc seen Hacc; cbn [foldl map concat].
  - rewrite app_nil_r. exact Hacc.
  - rewrite (IH (appendBounded acc c) (seen ++ Js.chars c)).
    + rewrite <- app_assoc. reflexivity.
    + rewrite appendBounded_chars, Hacc. apply lastN_app.
Qed.

(** What the executor keeps of a stream the child wrote in chunks is the
    end of the stream: everything when the stream has at most 24576 code
    units, its last 24576 otherwise. *)
Theorem captured_output_is_the_tail (chunks : list string) :
  let stream := concat (map Js.chars chunks) in
  let kept := Js.chars (foldl appendBounded "" chunks) in
  kept = drop (length stream - MAX_OUTPUT_BYTES) stream
  /\ length kept = Nat.min (length stream) MAX_OUTPUT_BYTES
  /\ ((length stream <= MAX_OUTPUT_BYTES)%nat -> kept = stream).
Proof.
  cbv zeta.
  pose proof (capture_chars chunks "" [] eq_refl) as Hkept. cbn [app] in Hkept.
  split; [exact Hkept|]. split.
  - rewrite Hkept, length_drop. lia.
  - intros Hfit. rewrite Hkept.
    replace (length (concat (map Js.chars chunks)) - MAX_OUTPUT_BYTES)%nat with 0%nat by lia.
    apply drop_0.
Qed.

End OutputFacts.

(** ** Quiet hours and outreach *)

Section QuietHours.
Import ProactiveNotifier.

(** For times of day in minutes, [isQuietHours] holds exactly when the
    current minute lies in the window that opens at [start] and closes
    before [end0], around midnight when the window wraps; the window from
    [end0] to [start] is its complement, and an empty setting (start equal
    to end) is never quiet. *)
Theorem quiet_hours_window :
  forall start end0 current : Z,
    0 <= start < 1440 -> 0 <= end0 < 1440 -> 0 <= current < 1440 ->
    (isQuietHours start end0 current = true
     <-> (current - start) mod 1440 < (end0 - start) mod 1440)
    /\ (start <> end0 ->
        isQuietHours end0 start current = negb (isQuietHours start end0 current)).
Proof.
  intros start end0 current Hs He Hc. unfold isQuietHours.
  assert (Hmod : forall x, -1440 < x < 1440 ->
            x mod 1440 = if x <? 0 then x + 1440 else x).
  { intros x Hx. destruct (x <? 0) eqn:Hneg.
    - apply Z.ltb_lt in Hneg. symmetry. apply (Z.mod_unique _ _ (-1)); lia.
    - apply Z.ltb_ge in Hneg. apply Z.mod_small. lia. }
  rewrite (Hmod (current - start)), (Hmod (end0 - start)) by lia.
  rewrite (Z.eqb_sym end0 start).
  destruct (Z.eqb_spec start end0), (Z.ltb_spec start end0), (Z.ltb_spec end0 start),
    (Z.leb_spec start current), (Z.ltb_spec current end0),
    (Z.leb_spec end0 current), (Z.ltb_spec current start),
    (Z.ltb_spec (current - start) 0), (Z.ltb_spec (end0 - start) 0);
    cbn [andb orb negb]; try lia;
    (split; [split; intros H; first [reflexivity | discriminate H | lia]
            | intros _; reflexivity]).
Qed.

Lemma quiet_hours_window_witness : isQuietHours 1320 390 120 = true.
Proof.
  apply (proj1 (quiet_hours_window 1320 390 120 ltac:(lia) ltac:(lia) ltac:(lia))).
  vm_compute. reflexivity.
Defined.

End QuietHours.

Section OutreachCap.
Import Types Store Eff Repository Queries ProactiveNotifier.
Context {X : Type}.
Variable queueProactiveMessage : ProactiveMessage -> M X string.
Variable buildBlockedOutreachText : BlockedRunRow -> string.
(** The proactive queue is made of files; it writes no task event. *)
Hypothesis queue_keeps_events :
  forall (m : ProactiveMessage) (w : World X),
    task_events (db (after (queueProactiveMessage m) w)) = task_events (db w).

(** One pass of the loop leaves the event log as it was, or adds one
    outreach event for its run, which had fewer than three. *)
Lemma outreachTo_events (run : BlockedRunRow) (acc : Z * Z) (w w' : World X)
  (r : res (Z * Z)) :
  outreachTo queueProactiveMessage buildBlockedOutreachText run acc w = (r, w') ->
  task_events (db w') = task_events (db w)
  \/ (outreachCount (b_run_id run) (db w) < 3
      /\ exists ev, task_events (db w') = task_events (db w) ++ [ev]
                    /\ isEvent (b_run_id run) OUTREACH ev = true).
Proof.
  intros Hrun. unfold outreachTo in Hrun.
  erewrite bind_run in Hrun by reflexivity. cbv beta zeta in Hrun.
  set (w1 := mkWorld (ext w) (db w) (clock w) (S (reads w))) in Hrun.
  destruct (BLOCKED_OUTREACH_MAX_AGE_MS <? _) in Hrun;
    [inversion Hrun; subst; left; reflexivity|].
  erewrite bind_run in Hrun by reflexivity.
  change (Z.of_nat _) with (outreachCount (b_run_id run) (db w)) in Hrun.
  destruct (BLOCKED_OUTREACH_MAX_ATTEMPTS <=? outreachCount (b_run_id run) (db w)) eqn:Hmax;
    [inversion Hrun; subst; left; reflexivity|].
  apply Z.leb_gt in Hmax. unfold BLOCKED_OUTREACH_MAX_ATTEMPTS in Hmax.
  erewrite bind_run in Hrun by reflexivity.
  set (last := default 0 _) in Hrun.
  assert (Hrest : forall w0 : World X,
            task_events (db w0) = task_events (db w) ->
            (result <- queueProactiveMessage
                         (mkProactive (b_channel run) (b_sender run) (b_sender_id run)
                            (buildBlockedOutreachText run) None
                            (bool_decide (b_status run = awaiting_approval))) ;;
             appendTaskEvent (b_run_id run) OUTREACH
               (JObj [("result", JStr result);
                      ("status", JStr (statusName (b_status run)));
                      ("attempt", JNum (outreachCount (b_run_id run) (db w) + 1))]) ;;;
             ret (if String.eqb result "deferred_quiet_hours"
                  then (fst acc, snd acc + 1)
                  else (fst acc + 1, snd acc)))%eff w0 = (r, w') ->
            task_events (db w') = task_events (db w)
            \/ (outreachCount (b_run_id run) (db w) < 3
                /\ exists ev, task_events (db w') = task_events (db w) ++ [ev]
                              /\ isEvent (b_run_id run) OUTREACH ev = true)).
  { intros w0 Hw0.
    set (message := mkProactive _ _ _ _ _ _).
    pose proof (queue_keeps_events message w0) as Hkeep. unfold after in Hkeep.
    unfold bind at 1.
    destruct (queueProactiveMessage message w0) as [[result|e] w2]; cbn [snd] in Hkeep.
    - unfold appendTaskEvent. erewrite bind_run by apply stamped_run.
      unfold ret. intros H; inversion H; subst. right. split; [exact Hmax|].
      cbn [db task_events with_task_events]. rewrite Hkeep, Hw0.
      eexists. split; [reflexivity|].
      unfold isEvent. cbn [log_key log_type]. rewrite !String.eqb_refl. reflexivity.
    - intros H; inversion H; subst. left. rewrite Hkeep. exact Hw0. }
  destruct (0 <? last).
  - erewrite bind_run in Hrun by reflexivity.
    destruct (_ - last <? BLOCKED_OUTREACH_MIN_INTERVAL_MS) in Hrun;
      [inversion Hrun; subst; left; reflexivity|].
    eapply Hrest; [|exact Hrun]. reflexivity.
  - erewrite bind_run in Hrun by reflexivity.
    eapply Hrest; [|exact Hrun]. reflexivity.
Qed.

Lemma outreachCount_snoc (runId : string) (d d' : Db) (ev : LogRow) :
  task_events d' = task_events d ++ [ev] ->
  outreachCount runId d'
  = outreachCount runId d + (if isEvent runId OUTREACH ev then 1 else 0).
Proof.
  intros Hev. unfold outreachCount. rewrite Hev, List.filter_app, length_app.
  cbn [List.filter]. destruct (isEvent runId OUTREACH ev); cbn [length]; lia.
Qed.

Lemma isEvent_same_run (runId runId' eventType : string) (ev : LogRow) :
  isEvent runId eventType ev = true -> isEvent runId' eventType ev = true ->
  runId' = runId.
Proof.
  unfold isEvent. rewrite !andb_true_iff, !String.eqb_eq.
  intros [H1 _] [H2 _]. congruence.
Qed.

Lemma outreachTo_cap (run : BlockedRunRow) (acc : Z * Z) (w : World X) (runId : string) :
  let w' := after (outreachTo queueProactiveMessage buildBlockedOutreachText run acc) w in
  outreachCount runId (db w) <= outreachCount runId (db w')
  /\ outreachCount runId (db w') <= Z.max (outreachCount runId (db w)) 3.
Proof.
  cbv zeta. unfold after.
  destruct (outreachTo queueProactiveMessage buildBlockedOutreachText run acc w)
    as [r w'] eqn:Hrun. cbn [snd].
  destruct (outreachTo_events run acc w w' r Hrun) as [Hsame | (Hfew & ev & Hev & Hown)].
  - unfold outreachCount. rewrite Hsame. lia.
  - rewrite (outreachCount_snoc runId _ _ ev Hev).
    destruct (isEvent runId OUTREACH ev) eqn:Hmine; [|lia].
    rewrite (isEvent_same_run _ _ _ _ Hown Hmine). lia.
Qed.

Lemma outreachAll_cap (runs : list BlockedRunRow) :
  forall (acc : Z * Z) (w : World X) (runId : string),
    let w' := after (outreachAll queueProactiveMessage buildBlockedOutreachText runs acc) w in
    outreachCount runId (db w) <= outreachCount runId (db w')
    /\ outreachCount runId (db w') <= Z.max (outreachCount runId (db w)) 3.
Proof.
  induction runs as [|run runs IH]; intros acc w runId; cbv zeta.
  - cbn. lia.
  - cbn [outreachAll]. unfold after, bind.
    pose proof (outreachTo_cap run acc w runId) as Hstep. cbv zeta in Hstep.
    unfold after in Hstep.
    destruct (outreachTo queueProactiveMessage buildBlockedOutreachText run acc w)
      as [[acc'|e] w1]; cbn [snd] in Hstep |- *.
    + pose proof (IH acc' w1 runId) as Hrest. cbv zeta in Hrest. unfold after in Hrest.
      lia.
    + exact Hstep.
Qed.

End OutreachCap.

Section OutreachCapClaims.
Import Types Store Eff Repository Queries ProactiveNotifier.

(** A tick of blocked-run outreach never takes a run past three outreach
    events: for every run the number of its proactive_outreach events
    after the tick is at least the number before and at most the larger of
    that number and 3, as long as queueing a message writes no task event;
    this holds also when the tick ends in an exception. *)
Theorem outreach_stops_at_three_attempts :
  forall (X : Type) (queueProactiveMessage : ProactiveMessage -> M X string)
         (buildBlockedOutreachText : BlockedRunRow -> string),
    (forall (m : ProactiveMessage) (w : World X),
        task_events (db (after (queueProactiveMessage m) w)) = task_events (db w)) ->
    forall (w : World X) (runId : string),
      let w' := after (queueBlockedRunOutreach queueProactiveMessage
                         buildBlockedOutreachText) w in
      outreachCount runId (db w) <= outreachCount runId (db w')
      /\ outreachCount runId (db w') <= Z.max (outreachCount runId (db w)) 3.
Proof.
  intros X queueProactiveMessage buildBlockedOutreachText Hkeep w runId. cbv zeta.
  unfold queueBlockedRunOutreach, after. unfold bind at 1.
  unfold listBlockedRunsForOutreach, bind, now, getDb, ret. cbv beta iota zeta.
  cbn [ext db clock reads].
  match goal with
  | |- context [outreachAll _ _ ?runs ?acc ?w0] =>
      pose proof (outreachAll_cap queueProactiveMessage buildBlockedOutreachText Hkeep
                    runs acc w0 runId) as Hcap
  end.
  cbv zeta in Hcap. unfold after in Hcap. cbn [db] in Hcap. exact Hcap.
Qed.

Lemma outreach_stops_at_three_attempts_witness :
  outreachCount "run_a" (db Cases.lateWorld)
  <= outreachCount "run_a"
       (db (after (queueBlockedRunOutreach Cases.fileQueue Cases.plainText) Cases.lateWorld))
  /\ outreachCount "run_a"
       (db (after (queueBlockedRunOutreach Cases.fileQueue Cases.plainText) Cases.lateWorld))
     <= Z.max (outreachCount "run_a" (db Cases.lateWorld)) 3.
Proof.
  apply (outreach_stops_at_three_attempts unit Cases.fileQueue Cases.plainText).
  intros m w. reflexivity.
Defined.

(** Twelve minutes after two runs of a sender were blocked, one tick sends
    one message for each and logs one outreach event for each. *)
Example outreach_reaches_both_runs :
  outcomeOf (queueBlockedRunOutreach Cases.fileQueue Cases.plainText) Cases.lateWorld
  = Ok (2, 0)
  /\ outreachCount "run_a"
       (db (after (queueBlockedRunOutreach Cases.fileQueue Cases.plainText) Cases.lateWorld))
     = 1
  /\ outreachCount "run_b"
       (db (after (queueBlockedRunOutreach Cases.fileQueue Cases.plainText) Cases.lateWorld))
     = 1.
Proof. vm_compute. repeat split; reflexivity. Qed.

End OutreachCapClaims.
